(** * The proxy gateway of the NeMo Agent Toolkit UI

    A shallow embedding of [src/proxy/request-transformers.js],
    [src/proxy/response-processors.js] and the request and upgrade handlers of
    [src/proxy/server.js], with the part of the JavaScript language they rest
    on: strings as sequences of UTF-16 code units, numbers as IEEE-754
    binary64 data, the values produced by [JSON.parse], property reads,
    truthiness, [JSON.parse] and [JSON.stringify]. *)

From Stdlib Require Import ZArith NArith PArith List Bool Lia String Ascii.
From Stdlib Require Import Floats.SpecFloat.
From Stdlib Require DecimalPos.
Import ListNotations.

Set Implicit Arguments.
Set Warnings "-register-all".
Open Scope string_scope.
Open Scope list_scope.

(* ===================================================================== *)
(** * JavaScript strings *)
(* ===================================================================== *)

(** A JavaScript string is a finite sequence of UTF-16 code units. *)
Definition jstring := list N.

(** A literal of the source, written in ASCII. *)
Definition js (s : string) : jstring :=
  map N_of_ascii (list_ascii_of_string s).

(** The code unit of an ASCII character. *)
Definition ch (c : ascii) : N := N_of_ascii c.

Arguments ch c%_char.

(** The double quote and the backslash. *)
Definition dquote : N := 34.

Definition backslash : N := 92.

(** The line feed, which ends the lines of a stream, and the line end of
    HTTP. *)
Definition newline : N := 10.

Definition crlf : jstring := [13; 10]%N.

(** The same with every apostrophe standing for a double quote, for JSON
    text. *)
Definition jsq (s : string) : jstring :=
  map (fun c => if N.eqb c (ch "'") then dquote else c) (js s).

Fixpoint jstr_eqb (a b : jstring) : bool :=
  match a, b with
  | [], [] => true
  | x :: a', y :: b' => N.eqb x y && jstr_eqb a' b'
  | _, _ => false
  end.

(** [String.prototype.startsWith] *)
Fixpoint startsWith (s prefix : jstring) : bool :=
  match prefix, s with
  | [], _ => true
  | p :: prefix', c :: s' => N.eqb p c && startsWith s' prefix'
  | _ :: _, [] => false
  end.

(** [String.prototype.slice(n)] for [0 <= n]. *)
Definition slice (n : nat) (s : jstring) : jstring := skipn n s.

(** WhiteSpace and LineTerminator code units, the ones [trim] removes and
    [Number] skips. *)
Definition isWhiteSpace (c : N) : bool :=
  ((9 <=? c) && (c <=? 13) || (c =? 32) || (c =? 160) || (c =? 5760)
   || (8192 <=? c) && (c <=? 8202) || (c =? 8232) || (c =? 8233)
   || (c =? 8239) || (c =? 8287) || (c =? 12288) || (c =? 65279))%N.

Fixpoint trimStart (s : jstring) : jstring :=
  match s with
  | c :: s' => if isWhiteSpace c then trimStart s' else s
  | [] => []
  end.

(** The string without its trailing white space: a code unit is kept when it
    is not white space or when something is kept after it. *)
Fixpoint trimEnd (s : jstring) : jstring :=
  match s with
  | [] => []
  | c :: s' =>
      match trimEnd s' with
      | [] => if isWhiteSpace c then [] else [c]
      | t => c :: t
      end
  end.

(** [String.prototype.trim] *)
Definition trim (s : jstring) : jstring := trimEnd (trimStart s).

(** [s.split(sep)] for a separator of one code unit: the result is never
    empty. *)
Fixpoint split (sep : N) (s : jstring) : list jstring :=
  match s with
  | [] => [[]]
  | c :: s' =>
      if N.eqb c sep then [] :: split sep s'
      else match split sep s' with
           | l :: ls => (c :: l) :: ls
           | [] => [[c]]
           end
  end.

(** [s.split(sep)] for a separator string that is not empty: matches are
    taken from the left and do not overlap. [skip] counts the code units of
    a match still to be dropped, [cur] is the piece being read, reversed. *)
Fixpoint splitOn_aux (sep : jstring) (skip : nat) (cur : jstring)
    (s : jstring) : list jstring :=
  match s with
  | [] => [rev cur]
  | c :: s' =>
      match skip with
      | S k => splitOn_aux sep k cur s'
      | O =>
          if startsWith s sep
          then rev cur :: splitOn_aux sep (List.length sep - 1) [] s'
          else splitOn_aux sep O (c :: cur) s'
      end
  end.

Definition splitOn (sep s : jstring) : list jstring :=
  splitOn_aux sep O [] s.

Definition isDigit (c : N) : bool := ((48 <=? c) && (c <=? 57))%N.

Definition digitVal (c : N) : N := (c - 48)%N.

(** The decimal digits of a natural number, without leading zeros. *)
Fixpoint uint_chars (u : Decimal.uint) : jstring :=
  match u with
  | Decimal.Nil => []
  | Decimal.D0 u => 48%N :: uint_chars u
  | Decimal.D1 u => 49%N :: uint_chars u
  | Decimal.D2 u => 50%N :: uint_chars u
  | Decimal.D3 u => 51%N :: uint_chars u
  | Decimal.D4 u => 52%N :: uint_chars u
  | Decimal.D5 u => 53%N :: uint_chars u
  | Decimal.D6 u => 54%N :: uint_chars u
  | Decimal.D7 u => 55%N :: uint_chars u
  | Decimal.D8 u => 56%N :: uint_chars u
  | Decimal.D9 u => 57%N :: uint_chars u
  end.

Definition N_to_jstring (n : N) : jstring := uint_chars (N.to_uint n).

Definition Z_to_jstring (z : Z) : jstring :=
  match z with
  | Zneg p => 45%N :: N_to_jstring (Npos p)
  | _ => N_to_jstring (Z.to_N z)
  end.

(** The value of a sequence of digits in base [b]; [None] when a code unit is
    not a digit of that base. *)
Definition digitOfBase (b : N) (c : N) : option N :=
  let v :=
    if isDigit c then Some (c - 48)%N
    else if ((97 <=? c) && (c <=? 102))%N then Some (c - 87)%N
    else if ((65 <=? c) && (c <=? 70))%N then Some (c - 55)%N
    else None in
  match v with
  | Some d => if (d <? b)%N then Some d else None
  | None => None
  end.

Fixpoint digitsValue (b : N) (acc : N) (s : jstring) : option N :=
  match s with
  | [] => Some acc
  | c :: s' =>
      match digitOfBase b c with
      | Some d => digitsValue b (acc * b + d)%N s'
      | None => None
      end
  end.

(** An array index: the canonical decimal form of an integer from 0 to
    2^32 - 2. *)
Definition arrayIndex (k : jstring) : option N :=
  match k with
  | [] => None
  | c :: rest =>
      if (N.eqb c 48 && negb (match rest with [] => true | _ => false end))
      then None
      else match digitsValue 10 0 k with
           | Some n => if (n <=? 4294967294)%N then Some n else None
           | None => None
           end
  end.

Fixpoint spanDigits (s : jstring) : jstring * jstring :=
  match s with
  | c :: s' =>
      if isDigit c
      then let '(d, r) := spanDigits s' in (c :: d, r)
      else ([], s)
  | [] => ([], [])
  end.

(* ===================================================================== *)
(** * JavaScript numbers *)
(* ===================================================================== *)

(** A Number is an IEEE-754 binary64 datum. *)
Definition number := spec_float.

Definition prec : Z := 53.
Definition emax : Z := 1024.

(** The Number nearest to [(-1)^neg * m * 10^e], ties to even. *)
Definition decimalToNumber (neg : bool) (m : N) (e : Z) : number :=
  match m with
  | N0 => S754_zero neg
  | Npos p =>
      match e with
      | Zneg k =>
          let '(q, e', l) :=
            SFdiv_core_binary prec emax (Zpos p) 0 (Z.pow_pos 10 k) 0 in
          binary_round_aux prec emax neg q e' l
      | _ => binary_round prec emax neg (p * Z.to_pos (10 ^ e))%positive 0
      end
  end.

Definition isNaN (x : number) : bool :=
  match x with S754_nan => true | _ => false end.

(** A decimal literal without its sign: integer digits, the digits after a
    point when there is one, and the exponent when there is one. *)
Record decimalLiteral := {
  intDigits : jstring;
  fracDigits : option jstring;
  expPart : option Z
}.

Definition scanExponent (s : jstring) : option (option Z) :=
  match s with
  | [] => Some None
  | c :: r =>
      if (N.eqb c (ch "e") || N.eqb c (ch "E"))%bool then
        let '(neg, r') :=
          match r with
          | 43%N :: r' => (false, r')     (* + *)
          | 45%N :: r' => (true, r')      (* - *)
          | _ => (false, r)
          end in
        match spanDigits r' with
        | ((_ :: _) as d, []) =>
            match digitsValue 10 0 d with
            | Some v => Some (Some (if neg then (- Z.of_N v)%Z else Z.of_N v))
            | None => None
            end
        | _ => None
        end
      else None
  end.

Definition scanDecimal (s : jstring) : option decimalLiteral :=
  let '(ip, r1) := spanDigits s in
  let '(fp, r2) :=
    match r1 with
    | 46%N :: r =>                             (* . *)
        let '(f, r') := spanDigits r in (Some f, r')
    | _ => (None, r1)
    end in
  match scanExponent r2 with
  | Some ex => Some {| intDigits := ip; fracDigits := fp; expPart := ex |}
  | None => None
  end.

Definition decimalValue (neg : bool) (d : decimalLiteral) : number :=
  let fp := match fracDigits d with Some f => f | None => [] end in
  let ex := match expPart d with Some e => e | None => 0%Z end in
  match digitsValue 10 0 (intDigits d ++ fp) with
  | Some m => decimalToNumber neg m (ex - Z.of_nat (List.length fp))
  | None => S754_nan
  end.

(** StrUnsignedDecimalLiteral: digits on at least one side of the point. *)
Definition isStrDecimal (d : decimalLiteral) : bool :=
  match intDigits d, fracDigits d with
  | [], None => false
  | [], Some [] => false
  | _, _ => true
  end.

(** The number production of the JSON grammar: no leading zero, digits on
    both sides of a point. *)
Definition isJSONDecimal (d : decimalLiteral) : bool :=
  match intDigits d with
  | [] => false
  | 48%N :: _ :: _ => false                    (* 0 and more digits *)
  | _ => match fracDigits d with Some [] => false | _ => true end
  end.

Definition nonDecimalValue (b : N) (digits : jstring) : number :=
  match digits with
  | [] => S754_nan
  | _ => match digitsValue b 0 digits with
         | Some v => decimalToNumber false v 0
         | None => S754_nan
         end
  end.

(** [Number(s)] for a string [s] (StringToNumber); NaN when [s] is not a
    StringNumericLiteral. *)
Definition StringToNumber (s : jstring) : number :=
  let t := trim s in
  match t with
  | [] => S754_zero false
  | 48%N :: c :: r =>                          (* 0x, 0o, 0b *)
      if (N.eqb c (ch "x") || N.eqb c (ch "X"))%bool then nonDecimalValue 16 r
      else if (N.eqb c (ch "o") || N.eqb c (ch "O"))%bool then nonDecimalValue 8 r
      else if (N.eqb c (ch "b") || N.eqb c (ch "B"))%bool then nonDecimalValue 2 r
      else match scanDecimal t with
           | Some d => if isStrDecimal d then decimalValue false d else S754_nan
           | None => S754_nan
           end
  | c :: r =>
      let '(neg, u) :=
        if N.eqb c (ch "+") then (false, r)
        else if N.eqb c (ch "-") then (true, r)
        else (false, t) in
      if jstr_eqb u (js "Infinity") then S754_infinity neg
      else match scanDecimal u with
           | Some d => if isStrDecimal d then decimalValue neg d else S754_nan
           | None => S754_nan
           end
  end.

(** The decimal exponent [n] of a positive rational [num / den]:
    [10^(n-1) <= num / den < 10^n]. *)
Definition numDigits (n : N) : Z := Z.of_nat (List.length (N_to_jstring n)).

Definition decimalExponent (num den : Z) : Z :=
  if (den <=? num)%Z then numDigits (Z.to_N (num / den))
  else
    let j0 := (numDigits (Z.to_N den) - numDigits (Z.to_N num))%Z in
    let j := if (den <=? num * 10 ^ j0)%Z then j0 else (j0 + 1)%Z in
    (1 - j)%Z.

(** [num / den * 10^p] as a fraction. *)
Definition scale10 (num den p : Z) : Z * Z :=
  match p with
  | Zneg k => (num, (den * Z.pow_pos 10 k)%Z)
  | _ => ((num * 10 ^ p)%Z, den)
  end.

Definition sameNumber (x y : number) : bool :=
  match x, y with
  | S754_finite s m e, S754_finite s' m' e' =>
      Bool.eqb s s' && Pos.eqb m m' && Z.eqb e e'
  | S754_zero s, S754_zero s' => Bool.eqb s s'
  | S754_infinity s, S754_infinity s' => Bool.eqb s s'
  | S754_nan, S754_nan => true
  | _, _ => false
  end.

(** The least number of digits [k], from [k] on, for which a decimal of [k]
    digits is read back as [x], with the integer [s] of those digits: of the
    two integers around [x * 10^(k-n)] the one that is read back as [x], the
    nearer one when both are, the even one at a tie. *)
Fixpoint shortestDigits (fuel : nat) (x : number) (num den n k : Z)
    : N * Z :=
  let '(a, b) := scale10 num den (k - n) in
  let lo := (a / b)%Z in
  let hi := (lo + 1)%Z in
  match fuel with
  | O => (Z.to_N lo, k)
  | S fuel' =>
      let okLo := sameNumber (decimalToNumber false (Z.to_N lo) (n - k)) x in
      let okHi := sameNumber (decimalToNumber false (Z.to_N hi) (n - k)) x in
      match okLo, okHi with
      | true, false => (Z.to_N lo, k)
      | false, true => (Z.to_N hi, k)
      | true, true =>
          match (2 * a ?= (2 * lo + 1) * b)%Z with
          | Lt => (Z.to_N lo, k)
          | Gt => (Z.to_N hi, k)
          | Eq => if Z.even lo then (Z.to_N lo, k) else (Z.to_N hi, k)
          end
      | false, false => shortestDigits fuel' x num den n (k + 1)
      end
  end.

Definition stripTrailingZeros (s : jstring) : jstring :=
  rev ((fix strip (r : jstring) : jstring :=
          match r with
          | 48%N :: r' => match r' with [] => r | _ => strip r' end
          | _ => r
          end) (rev s)).

Definition zeros (n : Z) : jstring := repeat 48%N (Z.to_nat n).

(** The text of a positive finite Number from its digits and decimal
    exponent: steps 5 to 10 of Number::toString. *)
Definition formatDigits (digits : jstring) (n : Z) : jstring :=
  let k := Z.of_nat (List.length digits) in
  if ((k <=? n) && (n <=? 21))%Z then digits ++ zeros (n - k)
  else if ((0 <? n) && (n <=? 21))%Z then
    firstn (Z.to_nat n) digits ++ js "." ++ skipn (Z.to_nat n) digits
  else if ((-6 <? n) && (n <=? 0))%Z then
    js "0." ++ zeros (- n) ++ digits
  else
    let e := (n - 1)%Z in
    let etext :=
      js "e" ++ (if (e <? 0)%Z then js "-" else js "+")
        ++ N_to_jstring (Z.abs_N e) in
    match digits with
    | [d] => [d] ++ etext
    | d :: ds => [d] ++ js "." ++ ds ++ etext
    | [] => etext
    end.

(** [Number::toString(x)] in radix 10. *)
Definition NumberToString (x : number) : jstring :=
  match x with
  | S754_nan => js "NaN"
  | S754_zero _ => js "0"
  | S754_infinity s => if s then js "-Infinity" else js "Infinity"
  | S754_finite s m e =>
      let '(num, den) :=
        match e with
        | Zneg k => (Zpos m, Z.pow_pos 2 k)
        | _ => ((Zpos m * 2 ^ e)%Z, 1%Z)
        end in
      let n0 := decimalExponent num den in
      let '(sN, k) := shortestDigits 17 (S754_finite false m e) num den n0 1 in
      let raw := N_to_jstring sN in
      (* [raw] has one digit more than [k] when rounding up reached a power
         of ten *)
      let n := (n0 + (Z.of_nat (List.length raw) - k))%Z in
      let digits := stripTrailingZeros raw in
      (if s then js "-" else []) ++ formatDigits digits n
  end.

(* ===================================================================== *)
(** * JavaScript values *)
(* ===================================================================== *)

(** The values the gateway handles: [undefined] and what [JSON.parse]
    returns. The properties of an object are kept in the order in which
    [Object.keys] and [JSON.stringify] enumerate them. *)
Inductive JSValue :=
| JUndefined
| JNull
| JBool (b : bool)
| JNum (x : number)
| JStr (s : jstring)
| JArr (items : list JSValue)
| JObj (props : list (jstring * JSValue)).

Definition properties := list (jstring * JSValue).

(** ToBoolean *)
Definition truthy (v : JSValue) : bool :=
  match v with
  | JUndefined | JNull => false
  | JBool b => b
  | JNum (S754_zero _) | JNum S754_nan => false
  | JNum _ => true
  | JStr [] => false
  | JStr _ => true
  | JArr _ | JObj _ => true
  end.

(** [a || b] *)
Definition orElse (a b : JSValue) : JSValue := if truthy a then a else b.

Declare Scope js_scope.
Delimit Scope js_scope with js.
Infix "<||>" := orElse (at level 61, left associativity) : js_scope.

(** [typeof v === 'string'] *)
Definition isString (v : JSValue) : bool :=
  match v with JStr _ => true | _ => false end.

Fixpoint lookup (k : jstring) (props : properties) : option JSValue :=
  match props with
  | [] => None
  | (k', v) :: rest => if jstr_eqb k k' then Some v else lookup k rest
  end.

(** [v[k]] for a value that is neither [undefined] nor [null]. The names the
    gateway reads are no members of the built-in prototypes, so a name that
    is not an own property reads as [undefined]. *)
Definition getValue (v : JSValue) (k : jstring) : JSValue :=
  match v with
  | JObj props =>
      match lookup k props with Some x => x | None => JUndefined end
  | JArr items =>
      match arrayIndex k with
      | Some i => nth (N.to_nat i) items JUndefined
      | None =>
          if jstr_eqb k (js "length")
          then JNum (decimalToNumber false (N.of_nat (List.length items)) 0)
          else JUndefined
      end
  | JStr s =>
      match arrayIndex k with
      | Some i =>
          match nth_error s (N.to_nat i) with
          | Some c => JStr [c]
          | None => JUndefined
          end
      | None =>
          if jstr_eqb k (js "length")
          then JNum (decimalToNumber false (N.of_nat (List.length s)) 0)
          else JUndefined
      end
  | _ => JUndefined
  end.

(** [v.k]: [None] is the TypeError of a property read on [undefined] or
    [null]. *)
Definition get (v : JSValue) (k : jstring) : option JSValue :=
  match v with
  | JUndefined | JNull => None
  | _ => Some (getValue v k)
  end.

(** [v?.k] *)
Definition optGet (v : JSValue) (k : jstring) : JSValue :=
  match v with
  | JUndefined | JNull => JUndefined
  | _ => getValue v k
  end.

Definition optGetLit (v : JSValue) (k : string) : JSValue := optGet v (js k).

Infix "?." := optGetLit (at level 40, left associativity) : js_scope.

Fixpoint joinWith (sep : jstring) (l : list jstring) : jstring :=
  match l with
  | [] => []
  | [x] => x
  | x :: rest => x ++ sep ++ joinWith sep rest
  end.

Fixpoint sequence {A : Type} (l : list (option A)) : option (list A) :=
  match l with
  | [] => Some []
  | Some x :: rest =>
      match sequence rest with Some r => Some (x :: r) | None => None end
  | None :: _ => None
  end.

(** ToString, as a template literal applies it; [None] is the TypeError of
    an object whose own [toString] property hides the built-in method (no
    value of [JSON.parse] is callable). *)
Fixpoint ToString (v : JSValue) : option jstring :=
  match v with
  | JUndefined => Some (js "undefined")
  | JNull => Some (js "null")
  | JBool b => Some (if b then js "true" else js "false")
  | JNum x => Some (NumberToString x)
  | JStr s => Some s
  | JArr items =>
      match sequence (map (fun e =>
                             match e with
                             | JUndefined | JNull => Some []
                             | _ => ToString e
                             end) items) with
      | Some parts => Some (joinWith (js ",") parts)
      | None => None
      end
  | JObj props =>
      match lookup (js "toString") props with
      | Some _ => None
      | None => Some (js "[object Object]")
      end
  end.

(** CreateDataProperty on an ordinary object: a key already there keeps its
    place, a new array index goes among the indices in ascending order, any
    other new key goes last. *)
Fixpoint insertIndex (i : N) (k : jstring) (v : JSValue) (props : properties)
    : properties :=
  match props with
  | [] => [(k, v)]
  | (k', v') :: rest =>
      match arrayIndex k' with
      | Some i' =>
          if (i' <? i)%N then (k', v') :: insertIndex i k v rest
          else (k, v) :: props
      | None => (k, v) :: props
      end
  end.

Fixpoint replaceProp (k : jstring) (v : JSValue) (props : properties)
    : properties :=
  match props with
  | [] => []
  | (k', v') :: rest =>
      if jstr_eqb k k' then (k', v) :: rest
      else (k', v') :: replaceProp k v rest
  end.

Definition defineProp (props : properties) (k : jstring) (v : JSValue)
    : properties :=
  match lookup k props with
  | Some _ => replaceProp k v props
  | None =>
      match arrayIndex k with
      | Some i => insertIndex i k v props
      | None => props ++ [(k, v)]
      end
  end.

(** An object literal [{k1: v1, k2: v2, ...}]. *)
Definition objectLiteral (l : properties) : JSValue :=
  JObj (fold_left (fun acc kv => defineProp acc (fst kv) (snd kv)) l []).

(** [Object.keys(v)]; [None] is the TypeError on [undefined] and [null]. *)
Definition indexKeys (n : nat) : list jstring :=
  map (fun i => N_to_jstring (N.of_nat i)) (seq 0 n).

Definition Object_keys (v : JSValue) : option (list jstring) :=
  match v with
  | JUndefined | JNull => None
  | JObj props => Some (map fst props)
  | JArr items => Some (indexKeys (List.length items))
  | JStr s => Some (indexKeys (List.length s))
  | JBool _ | JNum _ => Some []
  end.

(* ===================================================================== *)
(** * JSON.stringify *)
(* ===================================================================== *)

Definition hexDigit (d : N) : N := if (d <? 10)%N then (48 + d)%N else (87 + d)%N.

Definition unicodeEscape (c : N) : jstring :=
  js "\u" ++ [hexDigit (c / 4096 mod 16); hexDigit (c / 256 mod 16);
              hexDigit (c / 16 mod 16); hexDigit (c mod 16)]%N.

Definition isLeadSurrogate (c : N) : bool := ((55296 <=? c) && (c <=? 56319))%N.
Definition isTrailSurrogate (c : N) : bool := ((56320 <=? c) && (c <=? 57343))%N.

(** The escape of one code unit that is no part of a surrogate pair. *)
Definition quoteUnit (c : N) : jstring :=
  if N.eqb c 8 then js "\b"
  else if N.eqb c 9 then js "\t"
  else if N.eqb c 10 then js "\n"
  else if N.eqb c 12 then js "\f"
  else if N.eqb c 13 then js "\r"
  else if N.eqb c dquote then [backslash; dquote]
  else if N.eqb c backslash then [backslash; backslash]
  else if (c <? 32)%N || isLeadSurrogate c || isTrailSurrogate c
  then unicodeEscape c
  else [c].

(** [pending] is a leading surrogate read just before. *)
Fixpoint quoteBody (pending : option N) (s : jstring) : jstring :=
  match s with
  | [] => match pending with Some p => unicodeEscape p | None => [] end
  | c :: s' =>
      match pending with
      | Some p =>
          if isTrailSurrogate c then p :: c :: quoteBody None s'
          else if isLeadSurrogate c then unicodeEscape p ++ quoteBody (Some c) s'
          else unicodeEscape p ++ quoteUnit c ++ quoteBody None s'
      | None =>
          if isLeadSurrogate c then quoteBody (Some c) s'
          else quoteUnit c ++ quoteBody None s'
      end
  end.

(** QuoteJSONString *)
Definition QuoteJSONString (s : jstring) : jstring :=
  [dquote] ++ quoteBody None s ++ [dquote].

Definition isFinite (x : number) : bool :=
  match x with S754_finite _ _ _ | S754_zero _ => true | _ => false end.

(** [JSON.stringify(v)]; [None] is the result [undefined]. *)
Fixpoint JSON_stringify (v : JSValue) : option jstring :=
  match v with
  | JUndefined => None
  | JNull => Some (js "null")
  | JBool b => Some (if b then js "true" else js "false")
  | JNum x => Some (if isFinite x then NumberToString x else js "null")
  | JStr s => Some (QuoteJSONString s)
  | JArr items =>
      Some (js "[" ++
            joinWith (js ",")
              (map (fun e => match JSON_stringify e with
                             | Some t => t
                             | None => js "null"
                             end) items)
            ++ js "]")
  | JObj props =>
      Some (js "{" ++
            joinWith (js ",")
              (flat_map (fun kv => match JSON_stringify (snd kv) with
                                   | Some t => [QuoteJSONString (fst kv) ++ js ":" ++ t]
                                   | None => []
                                   end) props)
            ++ js "}")
  end.

(* ===================================================================== *)
(** * JSON.parse *)
(* ===================================================================== *)

Inductive token :=
| TLBrace | TRBrace | TLBracket | TRBracket | TColon | TComma
| TValue (v : JSValue)         (* a string, a number, true, false or null *)
| TBad.                        (* a run of characters that is no JSON token *)

(** What the scanner is inside of. Accumulated code units are reversed. *)
Inductive scanState :=
| ScIdle
| ScString (acc : jstring)
| ScEscape (acc : jstring)
| ScUnicode (acc : jstring) (todo : nat) (v : N)
| ScWord (acc : jstring).

(** Tab, line feed, carriage return and space. *)
Definition isJSONSpace (c : N) : bool :=
  (N.eqb c 9 || N.eqb c 10 || N.eqb c 13 || N.eqb c (ch " "))%bool.

(** The code units of numbers and of the three literal names. After a
    number or a name a JSON text goes on with white space, a comma or a
    closing bracket, so the longest run of these code units is one token or
    none. *)
Definition isWordChar (c : N) : bool :=
  (isDigit c || ((97 <=? c) && (c <=? 122))%N || ((65 <=? c) && (c <=? 90))%N
   || N.eqb c (ch "+") || N.eqb c (ch "-") || N.eqb c (ch "."))%bool.

Definition wordToken (w : jstring) : token :=
  if jstr_eqb w (js "true") then TValue (JBool true)
  else if jstr_eqb w (js "false") then TValue (JBool false)
  else if jstr_eqb w (js "null") then TValue JNull
  else
    let '(neg, u) :=
      match w with 45%N :: u => (true, u) | _ => (false, w) end in  (* - *)
    match scanDecimal u with
    | Some d => if isJSONDecimal d then TValue (JNum (decimalValue neg d)) else TBad
    | None => TBad
    end.

(** The code unit that a character after a backslash stands for. *)
Definition escapeChar (c : N) : option N :=
  if N.eqb c dquote then Some dquote
  else if N.eqb c backslash then Some backslash
  else if N.eqb c (ch "/") then Some (ch "/")
  else if N.eqb c (ch "b") then Some 8%N
  else if N.eqb c (ch "f") then Some 12%N
  else if N.eqb c (ch "n") then Some 10%N
  else if N.eqb c (ch "r") then Some 13%N
  else if N.eqb c (ch "t") then Some 9%N
  else None.

(** One code unit read outside of any token. *)
Definition scanIdle (c : N) : option (list token * scanState) :=
  if isJSONSpace c then Some ([], ScIdle)
  else if N.eqb c (ch "{") then Some ([TLBrace], ScIdle)
  else if N.eqb c (ch "}") then Some ([TRBrace], ScIdle)
  else if N.eqb c (ch "[") then Some ([TLBracket], ScIdle)
  else if N.eqb c (ch "]") then Some ([TRBracket], ScIdle)
  else if N.eqb c (ch ":") then Some ([TColon], ScIdle)
  else if N.eqb c (ch ",") then Some ([TComma], ScIdle)
  else if N.eqb c dquote then Some ([], ScString [])
  else if isWordChar c then Some ([], ScWord [c])
  else None.

Definition scanStep (st : scanState) (c : N) : option (list token * scanState) :=
  match st with
  | ScIdle => scanIdle c
  | ScString acc =>
      if N.eqb c dquote then Some ([TValue (JStr (rev acc))], ScIdle)
      else if N.eqb c backslash then Some ([], ScEscape acc)
      else if (c <? 32)%N then None
      else Some ([], ScString (c :: acc))
  | ScEscape acc =>
      if N.eqb c (ch "u") then Some ([], ScUnicode acc 3 0%N)
      else match escapeChar c with
           | Some e => Some ([], ScString (e :: acc))
           | None => None
           end
  | ScUnicode acc todo v =>
      match digitOfBase 16 c with
      | Some d =>
          let v' := (v * 16 + d)%N in
          match todo with
          | O => Some ([], ScString (v' :: acc))
          | S k => Some ([], ScUnicode acc k v')
          end
      | None => None
      end
  | ScWord acc =>
      if isWordChar c then Some ([], ScWord (c :: acc))
      else match scanIdle c with
           | Some (ts, st') => Some (wordToken (rev acc) :: ts, st')
           | None => None
           end
  end.

Fixpoint scan (st : scanState) (s : jstring) : option (list token) :=
  match s with
  | [] =>
      match st with
      | ScIdle => Some []
      | ScWord acc => Some [wordToken (rev acc)]
      | _ => None
      end
  | c :: s' =>
      match scanStep st c with
      | Some (ts, st') =>
          match scan st' s' with
          | Some rest => Some (ts ++ rest)
          | None => None
          end
      | None => None
      end
  end.

(** A container that is still open: an array with its elements so far
    (reversed), or an object with its properties so far and the key that
    waits for its value. *)
Inductive frame :=
| FArr (items : list JSValue)
| FObj (props : properties) (key : option jstring).

(** What the grammar allows next. *)
Inductive expect :=
| EValue            (* a value *)
| EValueOrClose     (* a value or the end of the array just opened *)
| EKey              (* a key *)
| EKeyOrClose       (* a key or the end of the object just opened *)
| EColon
| ENextItem         (* a comma or the end of the array *)
| ENextMember       (* a comma or the end of the object *)
| EEnd (v : JSValue).

(** A value is complete: it is the text's value, an element of the
    enclosing array or the value of the waiting key. *)
Definition complete (v : JSValue) (stack : list frame)
    : option (list frame * expect) :=
  match stack with
  | [] => Some ([], EEnd v)
  | FArr items :: st => Some (FArr (v :: items) :: st, ENextItem)
  | FObj props (Some k) :: st =>
      Some (FObj (defineProp props k v) None :: st, ENextMember)
  | FObj _ None :: _ => None
  end.

Definition startValue (t : token) (stack : list frame)
    : option (list frame * expect) :=
  match t with
  | TValue v => complete v stack
  | TLBracket => Some (FArr [] :: stack, EValueOrClose)
  | TLBrace => Some (FObj [] None :: stack, EKeyOrClose)
  | _ => None
  end.

Definition closeArray (stack : list frame) : option (list frame * expect) :=
  match stack with
  | FArr items :: st => complete (JArr (rev items)) st
  | _ => None
  end.

Definition closeObject (stack : list frame) : option (list frame * expect) :=
  match stack with
  | FObj props None :: st => complete (JObj props) st
  | _ => None
  end.

Definition readKey (t : token) (stack : list frame)
    : option (list frame * expect) :=
  match t, stack with
  | TValue (JStr k), FObj props None :: st => Some (FObj props (Some k) :: st, EColon)
  | _, _ => None
  end.

Definition parseStep (stack : list frame) (e : expect) (t : token)
    : option (list frame * expect) :=
  match e with
  | EValue => startValue t stack
  | EValueOrClose =>
      match t with TRBracket => closeArray stack | _ => startValue t stack end
  | EKey => readKey t stack
  | EKeyOrClose =>
      match t with TRBrace => closeObject stack | _ => readKey t stack end
  | EColon => match t with TColon => Some (stack, EValue) | _ => None end
  | ENextItem =>
      match t with
      | TComma => Some (stack, EValue)
      | TRBracket => closeArray stack
      | _ => None
      end
  | ENextMember =>
      match t with
      | TComma => Some (stack, EKey)
      | TRBrace => closeObject stack
      | _ => None
      end
  | EEnd _ => None
  end.

Fixpoint parseTokens (stack : list frame) (e : expect) (ts : list token)
    : option JSValue :=
  match ts with
  | [] => match e with EEnd v => Some v | _ => None end
  | t :: ts' =>
      match parseStep stack e t with
      | Some (stack', e') => parseTokens stack' e' ts'
      | None => None
      end
  end.

(** [JSON.parse(text)]; [None] is the SyntaxError. *)
Definition JSON_parse (text : jstring) : option JSValue :=
  match scan ScIdle text with
  | Some ts => parseTokens [] EValue ts
  | None => None
  end.

(* ===================================================================== *)
(** * Effects: exceptions over a state *)
(* ===================================================================== *)

Inductive exn :=
| SyntaxError                  (* JSON.parse *)
| TypeError                    (* a property of null, ToString of an object *)
| ERR_INVALID_ARG_TYPE         (* res.write of a value that is no string *)
| ERR_HTTP_HEADERS_SENT        (* res.writeHead after the head was sent *)
| FetchFailed (message : jstring).

Inductive outcome (A : Type) :=
| Normal (a : A)
| Thrown (e : exn).

Arguments Normal {A} a.
Arguments Thrown {A} e.

(** A computation over a state [S] that returns or throws. *)
Definition Eff (S A : Type) : Type := S -> outcome A * S.

Definition ret {S A} (a : A) : Eff S A := fun s => (Normal a, s).

Definition throw {S A} (e : exn) : Eff S A := fun s => (Thrown e, s).

Definition bind {S A B} (m : Eff S A) (k : A -> Eff S B) : Eff S B :=
  fun s =>
    match m s with
    | (Normal a, s') => k a s'
    | (Thrown e, s') => (Thrown e, s')
    end.

(** [try { m } catch (e) { h e }] *)
Definition tryCatch {S A} (m : Eff S A) (h : exn -> Eff S A) : Eff S A :=
  fun s =>
    match m s with
    | (Normal a, s') => (Normal a, s')
    | (Thrown e, s') => h e s'
    end.

(** [try { m } finally { f }]: [f] runs however [m] ends, also when [m]
    ends in a [return]. *)
Definition finally {S A} (m : Eff S A) (f : Eff S unit) : Eff S A :=
  fun s =>
    match m s with
    | (o, s') =>
        match f s' with
        | (Normal _, s'') => (o, s'')
        | (Thrown e, s'') => (Thrown e, s'')
        end
    end.

Definition orThrow {S A} (e : exn) (o : option A) : Eff S A :=
  match o with Some a => ret a | None => throw e end.

Declare Scope eff_scope.
Delimit Scope eff_scope with eff.
Notation "x <- m ;; k" := (bind m (fun x => k))
  (at level 100, m at next level, right associativity) : eff_scope.
Notation "m ;; k" := (bind m (fun _ => k))
  (at level 100, right associativity) : eff_scope.
Notation "'try' m 'catch' h" := (tryCatch m h)
  (at level 99, m at level 200, h at level 0) : eff_scope.

(** How a function body goes on after a statement of a loop. *)
Inductive control := Continue | Return.

(** [for (const x of l) { body x }] with a body that may [return]. *)
Fixpoint forOf {S A} (body : A -> Eff S control) (l : list A) : Eff S control :=
  match l with
  | [] => ret Continue
  | x :: rest =>
      bind (body x) (fun c =>
        match c with
        | Return => ret Return
        | Continue => forOf body rest
        end)
  end.

(* ===================================================================== *)
(** * Ordinary objects under assignment *)
(* ===================================================================== *)

(** An object built by the gateway and then assigned to: its own properties
    and its prototype ([None] is [Object.prototype]). *)
Record object := {
  own : properties;
  proto : option JSValue
}.

Definition newObject (l : properties) : object :=
  {| own := match objectLiteral l with JObj p => p | _ => [] end;
     proto := None |}.

(** [o[k] = v]. The name [__proto__] is the accessor of [Object.prototype]:
    its setter replaces the prototype when [v] is an object or [null] and
    does nothing otherwise; no own property appears. *)
Definition assign (o : object) (k : jstring) (v : JSValue) : object :=
  if jstr_eqb k (js "__proto__") then
    match v with
    | JNull | JObj _ | JArr _ => {| own := own o; proto := Some v |}
    | _ => o
    end
  else {| own := defineProp (own o) k v; proto := proto o |}.

(** The own property [k] of [o], which is what [o.k] reads when there is
    one. *)
Definition ownProp (o : object) (k : string) : option JSValue :=
  lookup (js k) (own o).

(** [Array.prototype.includes] on an array of strings *)
Definition includes (l : list jstring) (k : jstring) : bool :=
  existsb (jstr_eqb k) l.

(* ===================================================================== *)
(** * src/proxy/request-transformers.js *)
(* ===================================================================== *)

Module RequestTransformers.

(** The value a [key=value] pair is given: the first of boolean, number and
    string that fits. *)
Definition coerceValue (value : jstring) : JSValue :=
  if jstr_eqb value (js "true") then JBool true
  else if jstr_eqb value (js "false") then JBool false
  else if negb (isNaN (StringToNumber value)) then JNum (StringToNumber value)
  else JStr value.

(** The body of the loop over the pairs. The value assigned is a boolean, a
    number or a string, so [params[key] = ...] goes through [assign]. *)
Definition addPair (params : object) (pair : jstring) : object :=
  let parts := map trim (split (ch "=") pair) in
  let key := nth 0 parts [] in
  match nth_error parts 1 with
  | Some value =>
      match key, value with
      | _ :: _, _ :: _ => assign params key (coerceValue value)
      | _, _ => params
      end
  | None => params
  end.

Definition parseKeyValueList (paramsString : jstring) : JSValue :=
  JObj (own (fold_left addPair (split (ch ",") paramsString) (newObject []))).

Definition parseOptionalParams (paramsString : jstring) : JSValue :=
  match paramsString, trim paramsString with
  | [], _ | _, [] => JObj []
  | _, _ =>
      match JSON_parse paramsString with
      | Some v => v
      | None => parseKeyValueList paramsString
      end
  end.

Definition buildGenerateStreamPayload (message : jstring) : JSValue :=
  objectLiteral [(js "input_message", JStr message)].

Definition buildGeneratePayload (message : jstring) : JSValue :=
  objectLiteral [(js "input_message", JStr message)].

Definition RESERVED_FIELDS : list jstring := [js "messages"; js "stream"].

Definition temperatureDefault : number :=
  Eval vm_compute in StringToNumber (js "0.7").

(** [useChatHistory ? messages : [messages[messages.length - 1]]] *)
Definition selectMessages (messages : list JSValue) (useChatHistory : bool)
    : JSValue :=
  if useChatHistory then JArr messages
  else JArr [last messages JUndefined].

Definition basePayload (messages : list JSValue) (useChatHistory : bool)
    (stream : bool) : object :=
  newObject [(js "messages", selectMessages messages useChatHistory);
             (js "model", JStr (js "nvidia/nemotron"));
             (js "stream", JBool stream);
             (js "temperature", JNum temperatureDefault)].

(** The callback of [Object.keys(parsedParams).forEach]. *)
Definition mergeKey (parsedParams : JSValue) (payload : object)
    (key : jstring) : object :=
  if negb (includes RESERVED_FIELDS key)
  then assign payload key (getValue parsedParams key)
  else payload.

(** The [try] block of the builders. The one exception it can raise is the
    TypeError of [Object.keys] on [null], before anything is assigned. *)
Definition mergeOptionalParams (payload : object) (optionalParams : jstring)
    : outcome object :=
  let parsedParams := parseOptionalParams optionalParams in
  match Object_keys parsedParams with
  | Some keys => Normal (fold_left (mergeKey parsedParams) keys payload)
  | None => Thrown TypeError
  end.

(** The two chat builders differ in the [stream] flag only. [optionalParams]
    is [None] when the argument is [undefined]. The result is what the
    caller gets: a payload, or an exception. *)
Definition buildChat (stream : bool) (messages : list JSValue)
    (useChatHistory : bool) (optionalParams : option jstring)
    : outcome object :=
  let payload := basePayload messages useChatHistory stream in
  match optionalParams with
  | Some s =>
      match s, trim s with
      | _ :: _, _ :: _ =>
          match mergeOptionalParams payload s with
          | Normal merged => Normal merged
          | Thrown _ => Normal payload      (* catch (error) { } *)
          end
      | _, _ => Normal payload
      end
  | None => Normal payload
  end.

Definition buildChatPayload := buildChat false.

Definition buildChatStreamPayload := buildChat true.

Definition buildCaRagPayload (message : jstring) : JSValue :=
  objectLiteral
    [(js "state",
      objectLiteral
        [(js "chat", objectLiteral [(js "question", JStr message)])])].

End RequestTransformers.

(* ===================================================================== *)
(** * The response to the client: http.ServerResponse *)
(* ===================================================================== *)

Definition headers := list (jstring * jstring).

(** What goes out on the client connection, in order. *)
Inductive event :=
| EvHead (status : Z) (hs : headers)
| EvWrite (chunk : jstring)
| EvEnd.

Record Response := {
  pending : headers;           (* set by setHeader, not yet sent *)
  sent : list event
}.

Definition freshResponse : Response := {| pending := []; sent := [] |}.

Definition headersSent (r : Response) : bool :=
  match sent r with [] => false | _ => true end.

Definition isEnd (e : event) : bool :=
  match e with EvEnd => true | _ => false end.

Definition writableEnded (r : Response) : bool := existsb isEnd (sent r).

Definition emit (es : list event) (r : Response) : Response :=
  {| pending := pending r; sent := sent r ++ es |}.

(** The head that goes out by itself with the first write when [writeHead]
    was not called. *)
Definition implicitHead (r : Response) : Response :=
  if headersSent r then r else emit [EvHead 200 (pending r)] r.

Definition chunkEvents (chunk : jstring) : list event :=
  match chunk with [] => [] | _ => [EvWrite chunk] end.

Module res.

Definition setHeader (name value : jstring) : Eff Response unit :=
  fun r =>
    if headersSent r then (Thrown ERR_HTTP_HEADERS_SENT, r)
    else (Normal tt, {| pending := pending r ++ [(name, value)];
                        sent := sent r |}).

Definition writeHead (status : Z) (hs : headers) : Eff Response unit :=
  fun r =>
    if headersSent r then (Thrown ERR_HTTP_HEADERS_SENT, r)
    else (Normal tt, emit [EvHead status (pending r ++ hs)] r).

(** [res.write(chunk)] for a string. After the end nothing goes out (the
    error is reported by an event, not thrown). *)
Definition write (chunk : jstring) : Eff Response unit :=
  fun r =>
    if writableEnded r then (Normal tt, r)
    else (Normal tt, emit (chunkEvents chunk) (implicitHead r)).

(** [res.write(v)] for any value: only a string is accepted. *)
Definition writeValue (v : JSValue) : Eff Response unit :=
  match v with
  | JStr s => write s
  | _ => throw ERR_INVALID_ARG_TYPE
  end.

(** [res.end(data)], with [None] for no argument and for [undefined]. A
    second [end] changes nothing. *)
Definition end_ (data : option jstring) : Eff Response unit :=
  fun r =>
    if writableEnded r then (Normal tt, r)
    else
      let body := match data with Some d => chunkEvents d | None => [] end in
      (Normal tt, emit (body ++ [EvEnd]) (implicitHead r)).

End res.

(** The body the client has received: the chunks written, in order. *)
Definition bodyOf (r : Response) : jstring :=
  flat_map (fun e => match e with EvWrite c => c | _ => [] end) (sent r).

Definition statusOf (r : Response) : option Z :=
  match sent r with
  | EvHead st _ :: _ => Some st
  | _ => None
  end.

Definition headersOf (r : Response) : headers :=
  match sent r with
  | EvHead _ hs :: _ => hs
  | _ => []
  end.

(** The number of times the response was ended on the connection. *)
Definition terminations (r : Response) : nat :=
  List.length (filter isEnd (sent r)).

(* ===================================================================== *)
(** * The response of the backend: the Response of fetch *)
(* ===================================================================== *)

(** The body arrives whole, in the chunks the reader yields, already
    decoded; it is [None] when the response has no body ([backendRes.body]
    is [null]). Header names are in lower case, as [Headers] keeps them. *)
Record BackendResponse := {
  status : Z;
  backendHeaders : headers;
  body : option (list jstring)
}.

(** [backendRes.ok] *)
Definition ok (b : BackendResponse) : bool :=
  ((200 <=? status b) && (status b <=? 299))%Z.

(** [await backendRes.text()] *)
Definition text (b : BackendResponse) : jstring :=
  match body b with
  | Some chunks => List.concat chunks
  | None => []
  end.

(** [backendRes.headers.get(name)] *)
Fixpoint headersGet (name : jstring) (hs : headers) : option jstring :=
  match hs with
  | [] => None
  | (n, v) :: rest => if jstr_eqb n name then Some v else headersGet name rest
  end.

(* ===================================================================== *)
(** * src/proxy/response-processors.js *)
(* ===================================================================== *)

Module ResponseProcessors.

Section Processors.

(** [constants.CORS_ORIGIN] *)
Variable CORS_ORIGIN : jstring.

Local Open Scope eff_scope.
Local Open Scope js_scope.

Definition jsonContentType : headers :=
  [(js "Content-Type", js "application/json")].

(** The common failure rule at the head of every processor. *)
Definition mirrorFailure (backendRes : BackendResponse) : Eff Response unit :=
  res.writeHead (status backendRes) jsonContentType ;;
  res.end_ (Some (text backendRes)).

Definition processIntermediateData (line : jstring) : Eff Response unit :=
  try (
    data <- orThrow SyntaxError
              (nth_error (splitOn (js "intermediate_data: ") line) 1) ;;
    payload <- orThrow SyntaxError (JSON_parse data) ;;
    let intermediateMessage := objectLiteral
      [(js "id", payload ?. "id" <||> JStr (js ""));
       (js "status", payload ?. "status" <||> JStr (js "in_progress"));
       (js "error", payload ?. "error" <||> JStr (js ""));
       (js "type", JStr (js "system_intermediate"));
       (js "parent_id", payload ?. "parent_id" <||> JStr (js "default"));
       (js "intermediate_parent_id",
          payload ?. "intermediate_parent_id" <||> JStr (js "default"));
       (js "content", objectLiteral
          [(js "name", payload ?. "name" <||> JStr (js "Step"));
           (js "payload", payload ?. "payload" <||> JStr (js "No details"))]);
       (js "time_stamp", payload ?. "time_stamp" <||> JStr (js "default"))] in
    body <- orThrow TypeError (JSON_stringify intermediateMessage) ;;
    res.write (js "<intermediatestep>" ++ body ++ js "</intermediatestep>")
  ) catch (fun _ => ret tt).

Definition processObservabilityTrace (line : jstring) : Eff Response unit :=
  try (
    data <- orThrow SyntaxError
              (nth_error (splitOn (js "observability_trace: ") line) 1) ;;
    payload <- orThrow SyntaxError (JSON_parse data) ;;
    if truthy (payload ?. "observability_trace_id") then
      id <- orThrow TypeError (ToString (payload ?. "observability_trace_id")) ;;
      res.write (js "<observabilitytraceid>" ++ id ++ js "</observabilitytraceid>")
    else ret tt
  ) catch (fun _ => ret tt).

(** Returns [true] when the line was handled. *)
Definition processCommonLineTypes (line : jstring) : Eff Response bool :=
  if startsWith line (js "intermediate_data: ") then
    processIntermediateData line ;; ret true
  else if startsWith line (js "observability_trace: ") then
    processObservabilityTrace line ;; ret true
  else if startsWith (trim line) (js "{") then
    res.write (trim line) ;; ret true
  else ret false.

Definition processRemainingBuffer (buffer : jstring) : Eff Response unit :=
  let remaining := trim buffer in
  if startsWith remaining (js "{") then res.write remaining else ret tt.

Definition isDoneSentinel (data : jstring) : bool :=
  jstr_eqb data (js "[DONE]") || jstr_eqb data (js "DONE").

(** The body of [for (const line of lines)] in [processChatStream]. *)
Definition chatStreamLine (line : jstring) : Eff Response control :=
  if startsWith line (js "data: ") then
    let data := trim (slice 6 line) in
    if isDoneSentinel data then
      res.end_ None ;; ret Return
    else
      (try (
         parsed <- orThrow SyntaxError (JSON_parse data) ;;
         choices <- orThrow TypeError (get parsed (js "choices")) ;;
         let content :=
           choices ?. "0" ?. "message" ?. "content"
           <||> choices ?. "0" ?. "delta" ?. "content" in
         if truthy content then res.writeValue content else ret tt
       ) catch (fun _ => ret tt)) ;;
      ret Continue
  else
    processCommonLineTypes line ;; ret Continue.

(** The body of [for (const line of lines)] in [processGenerateStream]. *)
Definition generateStreamLine (line : jstring) : Eff Response control :=
  if startsWith line (js "data: ") then
    let data := trim (slice 6 line) in
    if isDoneSentinel data then
      res.end_ None ;; ret Return
    else
      (try (
         parsed <- orThrow SyntaxError (JSON_parse data) ;;
         if truthy (parsed ?. "value") && isString (parsed ?. "value")
         then res.write data
         else ret tt
       ) catch (fun _ => ret tt)) ;;
      ret Continue
  else
    processCommonLineTypes line ;; ret Continue.

(** [while (true)] over the chunks [reader.read()] yields: the chunk is
    appended to the buffer, the buffer is split at the newlines, the last
    piece stays in the buffer and the others are handled as lines. The
    result is how the loop was left, with the buffer. *)
Fixpoint readLoop (lineBody : jstring -> Eff Response control)
    (chunks : list jstring) (buffer : jstring)
    : Eff Response (control * jstring) :=
  match chunks with
  | [] => ret (Continue, buffer)
  | chunk :: rest =>
      let lines := split newline (buffer ++ chunk) in
      let buffer' := last lines [] in
      c <- forOf lineBody (removelast lines) ;;
      match c with
      | Return => ret (Return, buffer')
      | Continue => readLoop lineBody rest buffer'
      end
  end.

Definition streamHeaders : headers :=
  [(js "Content-Type", js "text/event-stream; charset=utf-8");
   (js "Transfer-Encoding", js "chunked");
   (js "Access-Control-Allow-Origin", CORS_ORIGIN);
   (js "Access-Control-Allow-Credentials", js "true")].

(** What the two streaming processors share: everything but the handling of
    a line. *)
Definition processStream (lineBody : jstring -> Eff Response control)
    (backendRes : BackendResponse) : Eff Response unit :=
  if negb (ok backendRes) then mirrorFailure backendRes
  else
    res.writeHead 200 streamHeaders ;;
    chunks <- orThrow TypeError (body backendRes) ;;
    finally
      (try (
         r <- readLoop lineBody chunks [] ;;
         match fst r with
         | Return => ret tt
         | Continue => processRemainingBuffer (snd r)
         end
       ) catch (fun _ => ret tt))
      (res.end_ None).

Definition processChatStream : BackendResponse -> Eff Response unit :=
  processStream chatStreamLine.

Definition processGenerateStream : BackendResponse -> Eff Response unit :=
  processStream generateStreamLine.

Definition traceIdHeader (backendRes : BackendResponse) : headers :=
  match headersGet (js "observability-trace-id") (backendHeaders backendRes) with
  | Some ((_ :: _) as id) => [(js "Observability-Trace-Id", id)]
  | _ => []
  end.

Definition textHeaders (contentType : string) (backendRes : BackendResponse)
    : headers :=
  [(js "Content-Type", js contentType);
   (js "Access-Control-Allow-Origin", CORS_ORIGIN);
   (js "Access-Control-Allow-Credentials", js "true")]
  ++ traceIdHeader backendRes.

(** [typeof v === 'string' ? v : JSON.stringify(v)], as [res.end] takes
    it. *)
Definition stringOrJSON (v : JSValue) : option jstring :=
  match v with
  | JStr s => Some s
  | _ => JSON_stringify v
  end.

Definition processChat (backendRes : BackendResponse) : Eff Response unit :=
  if negb (ok backendRes) then mirrorFailure backendRes
  else
    let data := text backendRes in
    let responseHeaders := textHeaders "text/plain; charset=utf-8" backendRes in
    try (
      parsed <- orThrow SyntaxError (JSON_parse data) ;;
      let content :=
        parsed ?. "choices" ?. "0" ?. "message" ?. "content"
        <||> parsed ?. "message"
        <||> parsed ?. "answer"
        <||> parsed ?. "value" in
      res.writeHead 200 responseHeaders ;;
      res.end_ (stringOrJSON content)
    ) catch (fun _ =>
      res.writeHead 200 responseHeaders ;;
      res.end_ (Some data)).

Definition processGenerate (backendRes : BackendResponse) : Eff Response unit :=
  if negb (ok backendRes) then mirrorFailure backendRes
  else
    let data := text backendRes in
    res.writeHead 200 (textHeaders "application/json; charset=utf-8" backendRes) ;;
    res.end_ (Some data).

Definition plainHeaders : headers :=
  [(js "Content-Type", js "text/plain; charset=utf-8");
   (js "Access-Control-Allow-Origin", CORS_ORIGIN);
   (js "Access-Control-Allow-Credentials", js "true")].

Definition processCaRag (backendRes : BackendResponse) : Eff Response unit :=
  if negb (ok backendRes) then mirrorFailure backendRes
  else
    let data := text backendRes in
    try (
      parsed <- orThrow SyntaxError (JSON_parse data) ;;
      let answer :=
        parsed ?. "state" ?. "chat" ?. "answer"
        <||> parsed ?. "answer"
        <||> JStr data in
      res.writeHead 200 plainHeaders ;;
      res.end_ (stringOrJSON answer)
    ) catch (fun _ =>
      res.writeHead 200 plainHeaders ;;
      res.end_ (Some data)).

End Processors.

End ResponseProcessors.

(* ===================================================================== *)
(** * src/constants/index.js *)
(* ===================================================================== *)

Module constants.

Definition WEBSOCKET_BACKEND_PATH := js "/websocket".

Definition CHAT_STREAM := js "/chat/stream".
Definition CHAT := js "/chat".
Definition GENERATE_STREAM := js "/generate/stream".
Definition GENERATE := js "/generate".
Definition CA_RAG_INIT := js "/init".
Definition CHAT_CA_RAG := js "/call".
Definition UPDATE_DATA_STREAM := js "/update-data-stream".
Definition MCP_CLIENT_TOOL_LIST := js "/mcp/client/tool/list".
Definition FEEDBACK := js "/feedback".

Inductive target := NAT_BACKEND | NEXTJS.

(** [EXTENDED_BACKEND_TARGETS[path]]; [None] is [undefined]. *)
Definition EXTENDED_BACKEND_TARGETS (path : jstring) : option target :=
  if jstr_eqb path CA_RAG_INIT then Some NAT_BACKEND
  else if jstr_eqb path CHAT_CA_RAG then Some NAT_BACKEND
  else if jstr_eqb path UPDATE_DATA_STREAM then Some NEXTJS
  else if jstr_eqb path FEEDBACK then Some NAT_BACKEND
  else None.

Definition ALLOWED_PATHS : list jstring :=
  [CHAT_STREAM; CHAT; GENERATE_STREAM; GENERATE; MCP_CLIENT_TOOL_LIST;
   CA_RAG_INIT; CHAT_CA_RAG; UPDATE_DATA_STREAM; FEEDBACK].

Definition HTTP_METHOD_OPTIONS := js "OPTIONS".

Definition CORS_METHODS := js "GET, POST, PUT, DELETE, OPTIONS".

Definition CORS_HEADERS :=
  js "Content-Type, Authorization, Conversation-Id, X-Timezone, User-Message-ID".

End constants.

(* ===================================================================== *)
(** * src/proxy/server.js *)
(* ===================================================================== *)

Module Server.

(** The result of the two validators of [utils/security/url-validation]. *)
Record Validation := {
  isValid : bool;
  error : jstring
}.

(** What the process reads from its environment when it starts, and the two
    validators, whose module is not part of the sources at hand. *)
Record Config := {
  HTTP_PROXY_PATH : jstring;
  WEBSOCKET_PROXY_PATH : jstring;
  CORS_ORIGIN : jstring;
  RAG_UUID : jstring;
  UPSTREAM_HTTP_ORIGIN : jstring;
  UPSTREAM_WS_ORIGIN : jstring;
  NEXT_DEV_TARGET : jstring;
  validateProxyHttpPath : jstring -> Validation;
  validateProxyWebSocketPath : jstring -> Validation
}.

(** An inbound request, with its URL already taken apart by [url.parse]:
    [pathname] is [parsedUrl.pathname || '/'], [search] is
    [parsedUrl.search] ([None] for [null]). Header names are in lower
    case. *)
Record Request := {
  method : jstring;
  pathname : jstring;
  search : option jstring;
  reqHeaders : headers;
  reqBody : jstring
}.

(** What [fetch] is called with. *)
Record FetchCall := {
  fetchUrl : jstring;
  fetchMethod : jstring;
  fetchHeaders : headers;
  fetchBody : option jstring
}.

Inductive FetchResult :=
| Answered (r : BackendResponse)
| Rejected (reason : jstring).

Inductive validator := HttpPath | WebSocketPath.

(** What a listener does besides writing the response, in order: the calls
    of the validators with what they returned, the calls of [fetch] with
    how they were settled, the requests handed to the two proxies, and the
    writes on the socket of an upgrade. *)
Inductive action :=
| Validated (which : validator) (path : jstring) (v : Validation)
| Fetched (c : FetchCall) (r : FetchResult)
| NextProxyWeb (r : Request)
| BackendProxyWeb (url : jstring) (proxyTarget : jstring) (r : Request)
| NextProxyWs (r : Request)
| BackendProxyWs (url : jstring) (proxyTarget : jstring) (r : Request)
| SocketWrite (data : jstring)
| SocketDestroy.

Section Gateway.

(** The backend: a state of its own and the answer it gives to a call. *)
Variable Backend : Type.
Variable answer : Backend -> FetchCall -> FetchResult * Backend.

Variable cfg : Config.

(** The state a handler runs in: the response of the request at hand, the
    process-wide set of initialized conversations (a [Set] keeps its
    elements in the order they were added), what went out so far, and the
    backend. *)
Record World := {
  response : Response;
  initializedCaRagConversations : list jstring;
  out : list action;
  backend : Backend
}.

Local Open Scope eff_scope.

(** A computation on the response, run on the response of the world. *)
Definition onResponse {A} (m : Eff Response A) : Eff World A :=
  fun w =>
    let '(o, r) := m (response w) in
    (o, {| response := r;
           initializedCaRagConversations := initializedCaRagConversations w;
           out := out w;
           backend := backend w |}).

Definition act (o : action) : Eff World unit :=
  fun w =>
    (Normal tt, {| response := response w;
                   initializedCaRagConversations := initializedCaRagConversations w;
                   out := out w ++ [o];
                   backend := backend w |}).

(** [await fetch(url, init)] *)
Definition fetch (c : FetchCall) : Eff World BackendResponse :=
  fun w =>
    let '(r, b) := answer (backend w) c in
    let w' := {| response := response w;
                 initializedCaRagConversations := initializedCaRagConversations w;
                 out := out w ++ [Fetched c r];
                 backend := b |} in
    match r with
    | Answered br => (Normal br, w')
    | Rejected m => (Thrown (FetchFailed m), w')
    end.

(** [initializedCaRagConversations.has(key)] *)
Definition has (key : jstring) : Eff World bool :=
  fun w => (Normal (includes (initializedCaRagConversations w) key), w).

(** [initializedCaRagConversations.add(key)] *)
Definition add (key : jstring) : Eff World unit :=
  fun w =>
    let s := initializedCaRagConversations w in
    (Normal tt, {| response := response w;
                   initializedCaRagConversations :=
                     if includes s key then s else s ++ [key];
                   out := out w;
                   backend := backend w |}).

Definition headersSentNow : Eff World bool :=
  fun w => (Normal (headersSent (response w)), w).

(** [err.message], with the texts of V8 and Node.js for the errors that are
    not the rejection of a fetch. *)
Definition message (e : exn) : jstring :=
  match e with
  | FetchFailed m => m
  | SyntaxError => js "Unexpected token in JSON"
  | TypeError => js "Cannot read properties of null (reading 'getReader')"
  | ERR_INVALID_ARG_TYPE => js "The chunk argument must be of type string"
  | ERR_HTTP_HEADERS_SENT =>
      js "Cannot write headers after they are sent to the client"
  end.

Definition jsonBody (l : properties) : option jstring :=
  JSON_stringify (objectLiteral l).

Definition jsonContentType := ResponseProcessors.jsonContentType.

(** The call that forwards the request: [fetch(targetUrl, { method:
    req.method, headers: req.headers, body })], with the body read from the
    request unless the method is GET or HEAD. *)
Definition forwardCall (req : Request) (targetUrl : jstring) : FetchCall :=
  {| fetchUrl := targetUrl;
     fetchMethod := method req;
     fetchHeaders := reqHeaders req;
     fetchBody :=
       if negb (jstr_eqb (method req) (js "GET"))
          && negb (jstr_eqb (method req) (js "HEAD"))
       then Some (reqBody req) else None |}.

(** [const doFetchAndProcess = async (processor) => ...] *)
Definition doFetchAndProcess (req : Request) (targetUrl : jstring)
    (processor : BackendResponse -> Eff Response unit) : Eff World unit :=
  try (
    backendRes <- fetch (forwardCall req targetUrl) ;;
    onResponse (processor backendRes)
  ) catch (fun err =>
    sent <- headersSentNow ;;
    (if negb sent then onResponse (res.writeHead 502 jsonContentType)
     else ret tt) ;;
    onResponse (res.end_ (jsonBody [(js "error", JStr (js "Bad Gateway"));
                                    (js "message", JStr (message err))]))).

(** [req.headers['conversation-id'] || 'default'] *)
Definition conversationIdOf (req : Request) : jstring :=
  match headersGet (js "conversation-id") (reqHeaders req) with
  | Some ((_ :: _) as id) => id
  | _ => js "default"
  end.

(** [`${RAG_UUID}-${conversationId}`] *)
Definition initKeyOf (req : Request) : jstring :=
  RAG_UUID cfg ++ js "-" ++ conversationIdOf req.

(** [new URL(EXTENDED_ROUTES.CA_RAG_INIT, UPSTREAM_HTTP_ORIGIN).toString()] *)
Definition initUrl : jstring := UPSTREAM_HTTP_ORIGIN cfg ++ constants.CA_RAG_INIT.

Definition initCall : FetchCall :=
  {| fetchUrl := initUrl;
     fetchMethod := js "POST";
     fetchHeaders := jsonContentType;
     fetchBody := jsonBody [(js "uuid", JStr (RAG_UUID cfg))] |}.

(** [const doCaRagWithInit = async () => ...] *)
Definition doCaRagWithInit (req : Request) (targetUrl : jstring)
    : Eff World unit :=
  try (
    let initKey := initKeyOf req in
    known <- has initKey ;;
    c <- (if negb known then
            initRes <- fetch initCall ;;
            if negb (ok initRes) then
              let detail := text initRes in
              sent <- headersSentNow ;;
              (if negb sent
               then onResponse (res.writeHead (status initRes) jsonContentType)
               else ret tt) ;;
              onResponse
                (res.end_ (jsonBody
                   [(js "error", JStr (js "CA RAG initialization failed"));
                    (js "detail", JStr detail)])) ;;
              ret Return
            else
              add initKey ;; ret Continue
          else ret Continue) ;;
    match c with
    | Return => ret tt
    | Continue =>
        doFetchAndProcess req targetUrl
          (ResponseProcessors.processCaRag (CORS_ORIGIN cfg))
    end
  ) catch (fun err =>
    sent <- headersSentNow ;;
    (if negb sent then onResponse (res.writeHead 502 jsonContentType)
     else ret tt) ;;
    onResponse (res.end_ (jsonBody [(js "error", JStr (js "CA RAG request failed"));
                                    (js "message", JStr (message err))]))).

Definition searchOf (req : Request) : jstring :=
  match search req with Some s => s | None => [] end.

(** [pathname.substring(HTTP_PROXY_PATH.length) || '/'] *)
Definition backendPathOf (req : Request) : jstring :=
  match skipn (List.length (HTTP_PROXY_PATH cfg)) (pathname req) with
  | [] => js "/"
  | p => p
  end.

(** [`${UPSTREAM_HTTP_ORIGIN}${backendPath}${parsedUrl.search || ''}`] *)
Definition targetUrlOf (req : Request) : jstring :=
  UPSTREAM_HTTP_ORIGIN cfg ++ backendPathOf req ++ searchOf req.

Definition preflight : Eff World unit :=
  onResponse (
    res.setHeader (js "Access-Control-Allow-Origin") (CORS_ORIGIN cfg) ;;
    res.setHeader (js "Access-Control-Allow-Methods") constants.CORS_METHODS ;;
    res.setHeader (js "Access-Control-Allow-Headers") constants.CORS_HEADERS ;;
    res.setHeader (js "Access-Control-Allow-Credentials") (js "true") ;;
    res.writeHead 204 [] ;;
    res.end_ None).

Definition forbidden (v : Validation) : Eff World unit :=
  onResponse (
    res.writeHead 403 jsonContentType ;;
    res.end_ (jsonBody [(js "error", JStr (js "Forbidden"));
                        (js "message", JStr (error v))])).

(** The routing of a request under the API-proxy prefix whose path was
    accepted: from [const backendPath = ...] to the transparent proxy. *)
Definition dispatch (req : Request) : Eff World unit :=
  let backendPath := backendPathOf req in
  let targetUrl := targetUrlOf req in
  let process p := doFetchAndProcess req targetUrl (p (CORS_ORIGIN cfg)) in
  if jstr_eqb backendPath constants.CHAT_STREAM
  then process ResponseProcessors.processChatStream
  else if jstr_eqb backendPath constants.CHAT
  then process ResponseProcessors.processChat
  else if jstr_eqb backendPath constants.GENERATE_STREAM
  then process ResponseProcessors.processGenerateStream
  else if jstr_eqb backendPath constants.GENERATE
  then process ResponseProcessors.processGenerate
  else if jstr_eqb backendPath constants.CHAT_CA_RAG
  then doCaRagWithInit req targetUrl
  else
    match constants.EXTENDED_BACKEND_TARGETS backendPath with
    | Some constants.NEXTJS => act (NextProxyWeb req)
    | _ =>
        act (BackendProxyWeb (backendPath ++ searchOf req)
               (UPSTREAM_HTTP_ORIGIN cfg) req)
    end.

(** The listener of [http.createServer]; each asynchronous helper is run
    to its end. *)
Definition requestListener (req : Request) : Eff World unit :=
  if startsWith (pathname req) (HTTP_PROXY_PATH cfg ++ js "/") then
    if jstr_eqb (method req) constants.HTTP_METHOD_OPTIONS then preflight
    else
      let pathValidation := validateProxyHttpPath cfg (pathname req) in
      act (Validated HttpPath (pathname req) pathValidation) ;;
      if negb (isValid pathValidation) then forbidden pathValidation
      else dispatch req
  else act (NextProxyWeb req).

(** The listener of [server.on('upgrade')]. *)
Definition upgradeListener (req : Request) : Eff World unit :=
  if jstr_eqb (pathname req) (WEBSOCKET_PROXY_PATH cfg)
     || startsWith (pathname req) (WEBSOCKET_PROXY_PATH cfg ++ js "?")
  then
    let wsValidation := validateProxyWebSocketPath cfg (pathname req) in
    act (Validated WebSocketPath (pathname req) wsValidation) ;;
    if negb (isValid wsValidation) then
      act (SocketWrite (js "HTTP/1.1 403 Forbidden" ++ crlf ++ crlf)) ;;
      act SocketDestroy
    else
      act (BackendProxyWs (constants.WEBSOCKET_BACKEND_PATH ++ searchOf req)
              (UPSTREAM_WS_ORIGIN cfg) req)
  else act (NextProxyWs req).

(** What persists from one request to the next. *)
Record ServerState := {
  initialized : list jstring;
  backendState : Backend
}.

(** What one request brought about. *)
Record Handled := {
  result : outcome unit;
  reply : Response;
  actions : list action
}.

(** The world a listener starts in, and what is kept of the world it ends
    in. *)
Definition arrive (st : ServerState) : World :=
  {| response := freshResponse;
     initializedCaRagConversations := initialized st;
     out := [];
     backend := backendState st |}.

Definition settle (run : outcome unit * World) : Handled * ServerState :=
  ({| result := fst run; reply := response (snd run); actions := out (snd run) |},
   {| initialized := initializedCaRagConversations (snd run);
      backendState := backend (snd run) |}).

Definition runListener (listener : Request -> Eff World unit)
    (st : ServerState) (req : Request) : Handled * ServerState :=
  settle (listener req (arrive st)).

Definition handle := runListener requestListener.

Definition upgrade := runListener upgradeListener.

(** Requests handled one after the other, each to its end before the next
    begins. *)
Fixpoint serve (st : ServerState) (reqs : list Request)
    : list Handled * ServerState :=
  match reqs with
  | [] => ([], st)
  | req :: rest =>
      let '(h, st') := handle st req in
      let '(hs, st'') := serve st' rest in
      (h :: hs, st'')
  end.

End Gateway.

End Server.

(* ===================================================================== *)
(** * utils/security/url-validation *)
(* ===================================================================== *)

Module UrlValidation.

(** [s.includes(sub)] *)
Fixpoint contains (sub s : jstring) : bool :=
  startsWith s sub || match s with [] => false | _ :: s' => contains sub s' end.

(** Modelled from the spec: the module [utils/security/url-validation] is
    not among the sources. A path is accepted when it is "a syntactically
    well-formed relative path with no scheme, no embedded host, no
    parent-directory traversal segments"; an input "containing [..], an
    absolute URL, or an embedded scheme" fails. *)
Definition wellFormedRelativePath (path : jstring) : bool :=
  startsWith path (js "/")
  && negb (startsWith path (js "//"))
  && negb (contains (js "..") path)
  && negb (contains (js "://") path).

(** Modelled from the spec: the HTTP validator, for which the
    "backend-relative portion matches one of the declared allow-listed
    routes exactly". The spec fixes no wording for the error. *)
Definition validateProxyHttpPath (prefix path : jstring) : Server.Validation :=
  if wellFormedRelativePath path
     && startsWith path prefix
     && includes constants.ALLOWED_PATHS (skipn (List.length prefix) path)
  then {| Server.isValid := true; Server.error := [] |}
  else {| Server.isValid := false; Server.error := js "Path not allowed" |}.

(** Modelled from the spec: the WebSocket validator, the structural
    conditions alone. *)
Definition validateProxyWebSocketPath (path : jstring) : Server.Validation :=
  if wellFormedRelativePath path
  then {| Server.isValid := true; Server.error := [] |}
  else {| Server.isValid := false; Server.error := js "Path not allowed" |}.

End UrlValidation.

(* ===================================================================== *)
(** * A deployment *)
(* ===================================================================== *)

(** The gateway with the defaults of its environment variables, in front of
    a backend at [localhost:8000]. *)
Module Deployment.

Import Server.

Definition config (wsPath : string) : Config :=
  {| HTTP_PROXY_PATH := js "/api";
     WEBSOCKET_PROXY_PATH := js wsPath;
     CORS_ORIGIN := js "http://localhost:3000";
     RAG_UUID := js "123456";
     UPSTREAM_HTTP_ORIGIN := js "http://localhost:8000";
     UPSTREAM_WS_ORIGIN := js "ws://localhost:8000";
     NEXT_DEV_TARGET := js "http://localhost:3099";
     validateProxyHttpPath := UrlValidation.validateProxyHttpPath (js "/api");
     validateProxyWebSocketPath := UrlValidation.validateProxyWebSocketPath |}.

Definition cfg : Config := config "/ws".

(** A backend that counts the calls it has answered. Its [/init] fails
    with 503 for the first [failures] calls it gets and succeeds from then
    on; [/call] answers the question. *)
Definition backendResponse (st : Z) (text : string) : BackendResponse :=
  {| status := st; backendHeaders := []; body := Some [jsq text] |}.

Definition answer (failures : nat) (calls : nat) (c : FetchCall)
    : FetchResult * nat :=
  (if jstr_eqb (fetchUrl c) (js "http://localhost:8000/init") then
     if Nat.ltb calls failures
     then Answered (backendResponse 503 "{'detail':'warming up'}")
     else Answered (backendResponse 200 "{'status':'ok'}")
   else Answered (backendResponse 200 "{'state':{'chat':{'answer':'42'}}}"),
   S calls).

Definition start : ServerState nat := {| initialized := []; backendState := O |}.

Definition post (path : string) (hs : headers) (text : string) : Request :=
  {| method := js "POST"; pathname := js path; search := None;
     reqHeaders := hs; reqBody := jsq text |}.

Definition callRequest : Request :=
  post "/api/call" [(js "conversation-id", js "c1")]
       "{'state':{'chat':{'question':'6 x 7'}}}".

End Deployment.

(* ===================================================================== *)
(** * What the client receives *)
(* ===================================================================== *)

(** A processor run ended without an exception, and the client received the
    status [st], the body [content] and one end of the response. *)
Definition answers (st : Z) (content : jstring)
    (run : outcome unit * Response) : Prop :=
  fst run = Normal tt
  /\ statusOf (snd run) = Some st
  /\ bodyOf (snd run) = content
  /\ terminations (snd run) = 1.

(** What [res.end(typeof v === 'string' ? v : JSON.stringify(v))] sends. *)
Definition textOf (v : JSValue) : jstring :=
  match ResponseProcessors.stringOrJSON v with
  | Some t => t
  | None => []
  end.

(** The value the caller's optional parameters give to [key] when the
    builder merges them: [None] when there are no parameters, when they
    have no such key, or when their keys cannot be listed. *)
Definition callerValue (optionalParams : option jstring) (key : string)
    : option JSValue :=
  match optionalParams with
  | Some s =>
      match s, trim s with
      | _ :: _, _ :: _ =>
          let parsed := RequestTransformers.parseOptionalParams s in
          match Object_keys parsed with
          | Some keys =>
              if includes keys (js key) then Some (getValue parsed (js key))
              else None
          | None => None
          end
      | _, _ => None
      end
  | None => None
  end.

(** The keys the merge loop of a builder goes through. *)
Definition keysOf (v : JSValue) : list jstring :=
  match Object_keys v with Some keys => keys | None => [] end.

(* ===================================================================== *)
(** * A stream, line by line *)
(* ===================================================================== *)

(** The complete lines of a text: the pieces that a newline ends. *)
Definition linesOf (content : jstring) : list jstring :=
  removelast (split newline content).

(** What follows the last newline of a text. *)
Definition restOf (content : jstring) : jstring := last (split newline content) [].

(** The [try] block of the streaming processors on a body that arrives in
    one piece. *)
Definition handleText (lineBody : jstring -> Eff Response control)
    (content : jstring) : Eff Response unit :=
  bind (forOf lineBody (linesOf content)) (fun c =>
    match c with
    | Return => ret tt
    | Continue => ResponseProcessors.processRemainingBuffer (restOf content)
    end).

(** A response that has begun and has not ended. *)
Definition live (r : Response) : Prop :=
  headersSent r = true /\ writableEnded r = false.

Definition isDataLine (line : jstring) : bool := startsWith line (js "data: ").

(** What a data line carries after its prefix. *)
Definition payloadOf (line : jstring) : jstring := trim (slice 6 line).

Definition isDoneLine (line : jstring) : bool :=
  ResponseProcessors.isDoneSentinel (payloadOf line).

(** The payload is JSON with a [value] that is a string and not empty. *)
Definition carriesText (payload : jstring) : bool :=
  match JSON_parse payload with
  | Some v =>
      match optGetLit v "value" with
      | JStr (_ :: _) => true
      | _ => false
      end
  | None => false
  end.

(* ===================================================================== *)
(** * What a listener did *)
(* ===================================================================== *)

Section Traces.

Import Server.

Variable cfg : Config.

(** Handing the request on: a call of [fetch] or of one of the proxies. *)
Definition isForwarding (a : action) : bool :=
  match a with
  | Fetched _ _ | NextProxyWeb _ | BackendProxyWeb _ _ _
  | NextProxyWs _ | BackendProxyWs _ _ _ => true
  | Validated _ _ _ | SocketWrite _ | SocketDestroy => false
  end.

(** A call of the init route of the stateful workflow. *)
Definition isInitCall (a : action) : bool :=
  match a with
  | Fetched c _ => jstr_eqb (fetchUrl c) (initUrl cfg)
  | _ => false
  end.

(** An init call that the backend answered with a success. *)
Definition initSucceeded (a : action) : bool :=
  match a with
  | Fetched c (Answered r) => jstr_eqb (fetchUrl c) (initUrl cfg) && ok r
  | _ => false
  end.

(** The request is one the listener takes to the stateful-workflow-call
    route: under the API-proxy prefix, no preflight, accepted by the
    validator, with [/call] as its backend path. *)
Definition reachesCaRag (req : Request) : Prop :=
  startsWith (pathname req) (HTTP_PROXY_PATH cfg ++ js "/") = true
  /\ jstr_eqb (method req) constants.HTTP_METHOD_OPTIONS = false
  /\ isValid (validateProxyHttpPath cfg (pathname req)) = true
  /\ backendPathOf cfg req = constants.CHAT_CA_RAG.

(** The body of the response to a failed init call, around the body text
    of that call. *)
Definition initFailureBody (detail : jstring) : jstring :=
  jsq "{'error':'CA RAG initialization failed','detail':"
  ++ QuoteJSONString detail ++ js "}".

(** The upgrade is on the WebSocket-proxy path. *)
Definition onWebSocketPath (req : Request) : bool :=
  jstr_eqb (pathname req) (WEBSOCKET_PROXY_PATH cfg)
  || startsWith (pathname req) (WEBSOCKET_PROXY_PATH cfg ++ js "?").

End Traces.

(** Everything the listeners did for a run of requests, in order. *)
Definition traceOf (hs : list Server.Handled) : list Server.action :=
  flat_map Server.actions hs.

(** A computation of a listener that leaves the actions done so far as they
    are and adds only actions that satisfy [P]. *)
Definition appends {Backend A : Type} (P : Server.action -> Prop)
    (m : Eff (Server.World Backend) A) : Prop :=
  forall w, exists es,
    Server.out (snd (m w)) = Server.out w ++ es /\ Forall P es.

(** The body of the 403 response, around the validator's error. *)
Definition forbiddenBody (reason : jstring) : jstring :=
  jsq "{'error':'Forbidden','message':" ++ QuoteJSONString reason ++ js "}".

(** The raw response written on the socket of a refused upgrade. *)
Definition rawForbidden : jstring :=
  js "HTTP/1.1 403 Forbidden" ++ crlf ++ crlf.

(** The world with another response. *)
Definition withResponse {Backend : Type} (w : Server.World Backend)
    (rp : Response) : Server.World Backend :=
  {| Server.response := rp;
     Server.initializedCaRagConversations :=
       Server.initializedCaRagConversations w;
     Server.out := Server.out w;
     Server.backend := Server.backend w |}.

(** The validation of the path of a request by the HTTP validator, as the
    listener records it. *)
Definition validationOf (cfg : Server.Config) (req : Server.Request)
    : Server.action :=
  Server.Validated Server.HttpPath (Server.pathname req)
    (Server.validateProxyHttpPath cfg (Server.pathname req)).

(** The call that forwards a request to the backend. *)
Definition forwardOf (cfg : Server.Config) (req : Server.Request)
    : Server.FetchCall :=
  Server.forwardCall req (Server.targetUrlOf cfg req).

(** No init call comes after an init call that succeeded. *)
Fixpoint settledTrace (cfg : Server.Config) (tr : list Server.action) : bool :=
  match tr with
  | [] => true
  | a :: rest =>
      (negb (initSucceeded cfg a) || negb (existsb (isInitCall cfg) rest))
      && settledTrace cfg rest
  end.

(* ===================================================================== *)
(** * src/utils/app/settingsValidation.ts *)
(* ===================================================================== *)

Module SettingsValidation.

Definition CHAT_OPTIONAL_GENERATION_RESERVED_FIELDS : list jstring :=
  [js "messages"; js "stream"].

Definition WEBSOCKET_CUSTOM_PARAMS_TOP_KEYS : list jstring :=
  [js "query"; js "headers"; js "payload"].

Definition WEBSOCKET_QUERY_RESERVED_KEYS : list jstring :=
  [js "session"; js "conversation_id"].

Definition WEBSOCKET_PAYLOAD_RESERVED_KEYS : list jstring :=
  [js "type"; js "id"; js "conversation_id"; js "content"; js "schema_type";
   js "thread_id"; js "parent_id"; js "timestamp"].

(** What the two validators return: [{ isValid, error }]. *)
Record Result := {
  isValid : bool;
  error : jstring
}.

Definition accepted : Result := {| isValid := true; error := [] |}.

Definition rejected (why : jstring) : Result :=
  {| isValid := false; error := why |}.

(** [typeof v !== 'object' || v === null || Array.isArray(v)] *)
Definition notPlainObject (v : JSValue) : bool :=
  match v with JObj _ => false | _ => true end.

(** [v != null] *)
Definition notNullish (v : JSValue) : bool :=
  match v with JUndefined | JNull => false | _ => true end.

(** [typeof v !== 'string' && typeof v !== 'number'] *)
Definition notStringOrNumber (v : JSValue) : bool :=
  match v with JStr _ | JNum _ => false | _ => true end.

(** [Object.entries(v)] for an object, an array or a string; the entries of
    any other value are none. *)
Definition Object_entries (v : JSValue) : properties :=
  match v with
  | JObj props => props
  | _ =>
      match Object_keys v with
      | Some keys => map (fun k => (k, getValue v k)) keys
      | None => []
      end
  end.

(** The body of a [try] whose [catch] returns [onError]: [None] is an
    exception. *)
Definition orCatch (onError : Result) (attempt : option Result) : Result :=
  match attempt with Some r => r | None => onError end.

Definition validateOptionalGenerationJson (jsonString : jstring) : Result :=
  match trim jsonString with
  | [] => accepted
  | _ :: _ =>
      orCatch (rejected (js "Invalid JSON format"))
        match JSON_parse jsonString with
        | None => None
        | Some parsed =>
            if notPlainObject parsed then
              Some (rejected
                      (js "JSON must be a valid object (not array or null)"))
            else
              match Object_keys parsed with
              | None => None
              | Some keys =>
                  let conflictingFields :=
                    filter (includes CHAT_OPTIONAL_GENERATION_RESERVED_FIELDS)
                           keys in
                  match conflictingFields with
                  | _ :: _ =>
                      Some (rejected
                              (js "Cannot override reserved fields: "
                               ++ joinWith (js ", ") conflictingFields))
                  | [] => Some accepted
                  end
              end
        end
  end.

(** The block [if (parsed.query != null) { ... }] and the like block for
    [payload]: the result it returns, if it returns. *)
Definition reservedKeysCheck (name : string) (reserved : list jstring)
    (section : JSValue) : option Result :=
  if notNullish section then
    if notPlainObject section then
      Some (rejected (js name ++ js " must be an object"))
    else
      let used := filter (includes reserved)
                         (match Object_keys section with
                          | Some keys => keys
                          | None => []
                          end) in
      match used with
      | _ :: _ =>
          Some (rejected (js name ++ js ": reserved keys ("
                          ++ joinWith (js ", ") used
                          ++ js ") cannot be used."))
      | [] => None
      end
  else None.

(** The block [if (parsed.headers != null) { ... }]. *)
Definition headersCheck (section : JSValue) : option Result :=
  if notNullish section then
    if notPlainObject section then
      Some (rejected (js "headers must be an object"))
    else
      match find (fun kv => notStringOrNumber (snd kv))
                 (Object_entries section) with
      | Some _ =>
          Some (rejected (js "headers values must be strings or numbers."))
      | None => None
      end
  else None.

Definition validateWebSocketCustomParams (jsonString : jstring) : Result :=
  match trim jsonString with
  | [] => accepted
  | _ :: _ =>
      orCatch (rejected (js "Invalid JSON"))
        match JSON_parse jsonString with
        | None => None
        | Some parsed =>
            if notPlainObject parsed then
              Some (rejected (js "Must be a JSON object"))
            else
              match Object_keys parsed with
              | None => None
              | Some keys =>
                  let extraKeys :=
                    filter (fun k =>
                              negb (includes WEBSOCKET_CUSTOM_PARAMS_TOP_KEYS k))
                           keys in
                  match extraKeys with
                  | _ :: _ =>
                      Some (rejected
                              (js "Top-level keys must be one of: query, headers, payload. Found: "
                               ++ joinWith (js ", ") extraKeys))
                  | [] =>
                      match reservedKeysCheck "query"
                              WEBSOCKET_QUERY_RESERVED_KEYS
                              (getValue parsed (js "query")) with
                      | Some r => Some r
                      | None =>
                      match headersCheck (getValue parsed (js "headers")) with
                      | Some r => Some r
                      | None =>
                      match reservedKeysCheck "payload"
                              WEBSOCKET_PAYLOAD_RESERVED_KEYS
                              (getValue parsed (js "payload")) with
                      | Some r => Some r
                      | None => Some accepted
                      end end end
                  end
              end
        end
  end.

End SettingsValidation.

(* ===================================================================== *)
(** * Definitions for the further properties *)
(* ===================================================================== *)

(** A string of UTF-16 code units: each is below 2^16. *)
Definition wellFormed (s : jstring) : Prop :=
  Forall (fun c => (c < 65536)%N) s.


(** The scanner run over a part of a text: the tokens it gives and the
    state it is left in. *)
Fixpoint scanRun (st : scanState) (s : jstring)
    : option (list token * scanState) :=
  match s with
  | [] => Some ([], st)
  | c :: s' =>
      match scanStep st c with
      | Some (ts, st') =>
          match scanRun st' s' with
          | Some (rest, st'') => Some (ts ++ rest, st'')
          | None => None
          end
      | None => None
      end
  end.

Definition settled (st : Z) (r : Response) : Prop :=
  exists hs ws, sent r = EvHead st hs :: map EvWrite ws ++ [EvEnd].

Definition settles (st : Z) (run : outcome unit * Response) : Prop :=
  fst run = Normal tt /\ settled st (snd run).

(** A computation that, on a response that has begun and not ended, returns
    and sends chunks of the body, nothing else. *)
Definition says {A : Type} (m : Eff Response A) : Prop :=
  forall r, live r ->
    exists a ws, m r = (Normal a, emit (map EvWrite ws) r).

(** The same for a computation that may also throw. *)
Definition saysOrThrows {A : Type} (m : Eff Response A) : Prop :=
  forall r, live r ->
    exists o ws, m r = (o, emit (map EvWrite ws) r).

(** The body of a loop over lines: it sends chunks and goes on, or ends
    the response and leaves. *)
Definition saysOrEnds (m : Eff Response control) : Prop :=
  forall r, live r ->
    exists ws,
      m r = (Normal Continue, emit (map EvWrite ws) r)
      \/ m r = (Normal Return, emit (map EvWrite ws ++ [EvEnd]) r).

(** What the chat processor takes for the content of a parsed body. *)
Definition chatContent (parsed : JSValue) : JSValue :=
  orElse (orElse (orElse
    (optGetLit (optGetLit (optGetLit (optGetLit parsed "choices") "0")
                  "message") "content")
    (optGetLit parsed "message"))
    (optGetLit parsed "answer"))
    (optGetLit parsed "value").

(** What the stateful-workflow processor takes for the answer of a parsed
    body whose text is [data]. *)
Definition caRagAnswer (parsed : JSValue) (data : jstring) : JSValue :=
  orElse (orElse
    (optGetLit (optGetLit (optGetLit parsed "state") "chat") "answer")
    (optGetLit parsed "answer"))
    (JStr data).

(** The text of a list of lines, each ended by a newline. *)
Definition unlines (lines : list jstring) : jstring :=
  flat_map (fun l => l ++ [newline]) lines.

(** The chunk of a streamed chat completion whose delta is [content]. *)
Definition deltaChunk (content : jstring) : JSValue :=
  objectLiteral
    [(js "choices",
      JArr [objectLiteral
              [(js "delta", objectLiteral [(js "content", JStr content)])]])].

(** The line of an event stream that carries the JSON text of [v]. *)
Definition dataLine (v : JSValue) : jstring :=
  js "data: " ++ match JSON_stringify v with Some t => t | None => [] end.

Definition nonEmpty (s : jstring) : bool :=
  match s with [] => false | _ :: _ => true end.

(** A key or a value as the [key=value] fallback takes it from a pair:
    trimmed, not empty, and free of the two separators. *)
Definition cleanText (t : jstring) : Prop :=
  t <> [] /\ trim t = t /\ ~ In (ch ",") t /\ ~ In (ch "=") t.

(** The values the fallback gives: a boolean, a number that is not NaN, or
    a text that reads as neither. *)
Definition coerced (v : JSValue) : Prop :=
  match v with
  | JBool _ => True
  | JNum x => isNaN x = false
  | JStr t =>
      cleanText t /\ isNaN (StringToNumber t) = true
      /\ t <> js "true" /\ t <> js "false"
  | _ => False
  end.

(** A section of the WebSocket parameters that is absent, [null], or an
    object with none of the [reserved] keys. *)
Definition freeOf (reserved : list jstring) (section : JSValue) : Prop :=
  match section with
  | JUndefined | JNull => True
  | JObj props => forall k, In k (map fst props) -> ~ In k reserved
  | _ => False
  end.

(** A [headers] section that is absent, [null], or an object whose values
    are strings and numbers. *)
Definition plainHeaderValues (section : JSValue) : Prop :=
  match section with
  | JUndefined | JNull => True
  | JObj props =>
      forall k v, In (k, v) props ->
        match v with JStr _ | JNum _ => True | _ => False end
  | _ => False
  end.

(** A property as the fallback adds it. *)
Definition pairOk (kv : jstring * JSValue) : Prop :=
  cleanText (fst kv) /\ fst kv <> js "__proto__" /\ coerced (snd kv).

(* ===================================================================== *)
(** * src/proxy/server.js: the error listeners of the two proxies *)
(* ===================================================================== *)

Module ProxyEvents.

Local Open Scope eff_scope.

(** [res.headersSent] and [res.writableEnded] *)
Definition getHeadersSent : Eff Response bool :=
  fun r => (Normal (headersSent r), r).

Definition getWritableEnded : Eff Response bool :=
  fun r => (Normal (writableEnded r), r).

(** The listener for ['error'] that each proxy is given, with the text of
    its error. The calls of [web] pass no callback, so an error of such a
    call comes to the listener with the response of the request; the calls
    of [ws] pass a callback of their own. [None] is a call without a
    response. *)
Definition onError (what : string) (target : option Response)
    : outcome unit * option Response :=
  match target with
  | None => (Normal tt, None)
  | Some r =>
      let '(o, r') :=
        (sent <- getHeadersSent ;;
         (if negb sent
          then res.writeHead 502 ResponseProcessors.jsonContentType
          else ret tt) ;;
         ended <- getWritableEnded ;;
         if negb ended
         then res.end_ (JSON_stringify (objectLiteral [(js "error", JStr (js what))]))
         else ret tt) r in
      (o, Some r')
  end.

(** [nextProxy.on('error', ...)] *)
Definition nextProxyOnError := onError "Next.js dev server unavailable".

(** [backendProxy.on('error', ...)] *)
Definition backendProxyOnError := onError "Backend unavailable".

End ProxyEvents.

(* ===================================================================== *)
(** * What a listener left behind *)
(* ===================================================================== *)

(** A response that has begun and not ended: a head and chunks of the
    body. *)
Definition started (r : Response) : Prop :=
  exists st hs ws, sent r = EvHead st hs :: map EvWrite ws.

(** A processor as the forwarding helper needs it: on a fresh response it
    returns with the response answered, or throws with the response fresh
    or begun. *)
Definition behaves (processor : BackendResponse -> Eff Response unit) : Prop :=
  forall b,
    (exists st, settles st (processor b freshResponse))
    \/ (exists e, fst (processor b freshResponse) = Thrown e
                  /\ (sent (snd (processor b freshResponse)) = []
                      \/ started (snd (processor b freshResponse)))).

(** Handing the request to one of the two proxies. *)
Definition handsOn (a : Server.action) : bool :=
  match a with
  | Server.NextProxyWeb _ | Server.BackendProxyWeb _ _ _ => true
  | _ => false
  end.

(** A call of [fetch]. *)
Definition isFetch (a : Server.action) : bool :=
  match a with Server.Fetched _ _ => true | _ => false end.

(** Where an action is addressed. A call of [fetch] is made with a URL that
    is the origin of the backend and a path; a request handed to the
    backend proxy is given the origin of the backend for target and a path
    for URL; an upgrade handed to the backend proxy is given the WebSocket
    origin of the backend for target and the backend's WebSocket path, with
    the query of the request, for URL. What [fetch] asks for by itself when
    it is answered with a redirect is not an action of the gateway. *)
Definition addressedUpstream (cfg : Server.Config) (a : Server.action) : Prop :=
  match a with
  | Server.Fetched c _ =>
      exists path,
        Server.fetchUrl c = Server.UPSTREAM_HTTP_ORIGIN cfg ++ ch "/" :: path
  | Server.BackendProxyWeb url proxyTarget _ =>
      proxyTarget = Server.UPSTREAM_HTTP_ORIGIN cfg
      /\ exists path, url = ch "/" :: path
  | Server.BackendProxyWs url proxyTarget r =>
      proxyTarget = Server.UPSTREAM_WS_ORIGIN cfg
      /\ url = constants.WEBSOCKET_BACKEND_PATH ++ Server.searchOf r
  | _ => True
  end.

(** The body of the 502 response to a forward that was rejected. *)
Definition badGatewayBody (reason : jstring) : jstring :=
  jsq "{'error':'Bad Gateway','message':" ++ QuoteJSONString reason ++ js "}".

(** The routes whose requests are forwarded by [fetch] and answered by a
    processor, the call route apart. *)
Definition processedRoutes : list jstring :=
  [constants.CHAT_STREAM; constants.CHAT; constants.GENERATE_STREAM;
   constants.GENERATE].

(** What reads a JSON text back: [JSON.parse(JSON.stringify(v))]. *)
Definition readBack (v : JSValue) : option JSValue :=
  match JSON_stringify v with
  | Some text => JSON_parse text
  | None => None
  end.

(** The body the error listeners of the proxies send. *)
Definition proxyErrorBody (what : string) : jstring :=
  jsq "{'error':" ++ QuoteJSONString (js what) ++ js "}".

(** What an error listener leaves of the response it is called with. *)
Definition afterProxyError (what : string) (r : Response) : Response :=
  if writableEnded r then r
  else if headersSent r then emit [EvWrite (proxyErrorBody what); EvEnd] r
  else emit [EvHead 502 (pending r ++ ResponseProcessors.jsonContentType);
             EvWrite (proxyErrorBody what); EvEnd] r.

(* ===================================================================== *)
(** * src/proxy/server.js: the listeners on a request as it comes in *)
(* ===================================================================== *)

Module Incoming.

Import Server.

(** [req] as the listeners get it: [req.url] is the request target as the
    client sent it. *)
Record Message := {
  messageMethod : jstring;
  url : jstring;
  messageHeaders : headers;
  messageBody : jstring
}.

(** [url.parse] of Node.js is not part of the sources. The listeners use
    [pathname] and [search] of what it returns ([None] for [null]); for
    some targets it throws. *)
Definition UrlParse : Type :=
  jstring -> exn + (option jstring * option jstring).

(** The request with [pathname = parsedUrl.pathname || '/'] and
    [parsedUrl.search]. *)
Definition parsed (req : Message) (parts : option jstring * option jstring)
    : Request :=
  {| method := messageMethod req;
     pathname := match fst parts with
                 | Some ((_ :: _) as path) => path
                 | _ => js "/"
                 end;
     search := snd parts;
     reqHeaders := messageHeaders req;
     reqBody := messageBody req |}.

Section Listeners.

Variable Backend : Type.
Variable answer : Backend -> FetchCall -> FetchResult * Backend.
Variable cfg : Config.
Variable urlParse : UrlParse.

(** The listener of [http.createServer] from [url.parse(req.url)] on,
    which is outside every [try]. *)
Definition onRequest (req : Message) : Eff (World Backend) unit :=
  match urlParse (url req) with
  | inl err => throw err
  | inr parts => requestListener answer cfg (parsed req parts)
  end.

Definition receive (st : ServerState Backend) (req : Message)
    : Handled * ServerState Backend :=
  settle (onRequest req (arrive st)).

End Listeners.

End Incoming.

(* ===================================================================== *)
(** * src/proxy/server.js: requests of the call route handled side by side *)
(* ===================================================================== *)

(** The handlers are [async] functions: one runs alone from one [await] to
    the next, and at an [await] any other handler may have its turn. The
    set of initialized conversations and the backend are shared; each
    handler has the response of its own request. A call of [fetch] is
    settled, and written down with its result, in the turn that follows
    its [await]. *)

Module Concurrent.

Import Server.

(** Where the handler of a request of the call route stands: the listener
    has not been called yet, the handler is at [await fetch(initUrl, ...)],
    it is at the [await]s of the forwarding helper, or it has returned. *)
Inductive stage := Arrived | AwaitsInit | AwaitsForward | Returned.

Section Stages.

Variable Backend : Type.
Variable answer : Backend -> FetchCall -> FetchResult * Backend.
Variable cfg : Config.

Local Open Scope eff_scope.

(** The [catch] of [doCaRagWithInit]; it is around every part of the
    function. *)
Definition caRagCatch (err : exn) : Eff (World Backend) stage :=
  sent <- headersSentNow (Backend := Backend) ;;
  (if negb sent then onResponse (res.writeHead 502 jsonContentType)
   else ret tt) ;;
  onResponse (res.end_ (jsonBody [(js "error", JStr (js "CA RAG request failed"));
                                  (js "message", JStr (message err))])) ;;
  ret Returned.

(** From the call of the listener to the first [await] of
    [doCaRagWithInit]: the path is validated and the set is looked into.
    The init call of a key that is not there is on its way when the
    handler waits. *)
Definition caRagArrives (req : Request) : Eff (World Backend) stage :=
  act (Validated HttpPath (pathname req)
         (validateProxyHttpPath cfg (pathname req))) ;;
  try (
    known <- has (initKeyOf cfg req) ;;
    ret (if negb known then AwaitsInit else AwaitsForward)
  ) catch caRagCatch.

(** From the settling of the init call to the next [await]: the key is
    added when the call succeeded. *)
Definition caRagInitSettles (req : Request) : Eff (World Backend) stage :=
  try (
    initRes <- fetch answer (initCall cfg) ;;
    if negb (ok initRes) then
      let detail := text initRes in
      sent <- headersSentNow (Backend := Backend) ;;
      (if negb sent
       then onResponse (res.writeHead (status initRes) jsonContentType)
       else ret tt) ;;
      onResponse
        (res.end_ (jsonBody
           [(js "error", JStr (js "CA RAG initialization failed"));
            (js "detail", JStr detail)])) ;;
      ret Returned
    else
      add (initKeyOf cfg req) ;; ret AwaitsForward
  ) catch caRagCatch.

(** [await doFetchAndProcess(processCaRag)], to the end of the handler. *)
Definition caRagForwards (req : Request) : Eff (World Backend) stage :=
  try (
    doFetchAndProcess answer req (targetUrlOf cfg req)
      (ResponseProcessors.processCaRag (CORS_ORIGIN cfg)) ;;
    ret Returned
  ) catch caRagCatch.

(** A request in the hands of its handler: where the handler stands, the
    response of the request, and what the handler has done so far. *)
Record Handler := {
  request : Request;
  standsAt : stage;
  answerSoFar : Response;
  log : list action
}.

Definition newHandler (req : Request) : Handler :=
  {| request := req; standsAt := Arrived; answerSoFar := freshResponse;
     log := [] |}.

(** What a handler does when it is its turn, up to its next
    [await]. *)
Definition resume (t : Handler) : Eff (World Backend) stage :=
  match standsAt t with
  | Arrived => caRagArrives (request t)
  | AwaitsInit => caRagInitSettles (request t)
  | AwaitsForward => caRagForwards (request t)
  | Returned => ret Returned
  end.

(** The process: the handlers under way, the set of initialized
    conversations they share, everything done so far, in order, and the
    backend. *)
Record Process := {
  handlers : list Handler;
  initializedNow : list jstring;
  doneSoFar : list action;
  backendNow : Backend
}.

Fixpoint setHandler (i : nat) (t : Handler) (l : list Handler) : list Handler :=
  match l, i with
  | [], _ => []
  | _ :: rest, O => t :: rest
  | x :: rest, S j => x :: setHandler j t rest
  end.

(** The event loop gives the turn to handler [i]. *)
Definition turn (p : Process) (i : nat) : Process :=
  match nth_error (handlers p) i with
  | None => p
  | Some t =>
      let '(o, w) :=
        resume t {| response := answerSoFar t;
                    initializedCaRagConversations := initializedNow p;
                    out := doneSoFar p;
                    backend := backendNow p |} in
      {| handlers :=
           setHandler i
             {| request := request t;
                standsAt := match o with Normal s => s | Thrown _ => Returned end;
                answerSoFar := response w;
                log := log t ++ skipn (List.length (doneSoFar p)) (out w) |}
             (handlers p);
         initializedNow := initializedCaRagConversations w;
         doneSoFar := out w;
         backendNow := backend w |}
  end.

(** The turns are taken in the order of a schedule. *)
Definition run (schedule : list nat) (p : Process) : Process :=
  fold_left turn schedule p.

(** The process when the requests [reqs] have come in and no listener has
    been called yet. *)
Definition incoming (st : ServerState Backend) (reqs : list Request)
    : Process :=
  {| handlers := map newHandler reqs;
     initializedNow := initialized st;
     doneSoFar := [];
     backendNow := backendState st |}.

End Stages.

End Concurrent.

(* ===================================================================== *)
(** * Definitions for the statements on streams, pairs and handlers *)
(* ===================================================================== *)

(** What a handler that found the key in the set has done since: nothing
    yet, the validation, or the validation and the forwarding of the
    request; an init call is not among it. *)
Definition skipsInit (cfg : Server.Config) (before now : Concurrent.Handler)
    : Prop :=
  Concurrent.request now = Concurrent.request before
  /\ (Concurrent.standsAt now = Concurrent.Arrived
      /\ Concurrent.log now = Concurrent.log before
      \/ Concurrent.standsAt now = Concurrent.AwaitsForward
         /\ Concurrent.log now
            = Concurrent.log before
              ++ [validationOf cfg (Concurrent.request before)]
      \/ Concurrent.standsAt now = Concurrent.Returned
         /\ exists r,
              Concurrent.log now
              = Concurrent.log before
                ++ [validationOf cfg (Concurrent.request before);
                    Server.Fetched (forwardOf cfg (Concurrent.request before))
                      r]).

(** A response whose head has gone out and nothing else. *)
Definition begun : Response := {| pending := []; sent := [EvHead 200 []] |}.

(** The chunks a response was given, one by one. *)
Definition chunksOf (r : Response) : list jstring :=
  flat_map (fun e => match e with EvWrite c => [c] | _ => [] end) (sent r).

(** The chunks a computation writes on a response that has begun. *)
Definition writesOf {A : Type} (m : Eff Response A) : list jstring :=
  chunksOf (snd (m begun)).

(** A computation that does the same on every response that has begun and
    not ended: it ends in [o] and writes the chunks [ws]. *)
Definition plays {A : Type} (m : Eff Response A) (o : outcome A)
    (ws : list jstring) : Prop :=
  forall r, live r -> m r = (o, emit (map EvWrite ws) r).

(** A computation that does the same on every such response, whatever it
    ends in. *)
Definition steady {A : Type} (m : Eff Response A) : Prop :=
  exists o ws, plays m o ws.

(** The line ends the stream: a data line with the DONE sentinel. *)
Definition endsStream (line : jstring) : bool :=
  isDataLine line && isDoneLine line.

(** The lines that come before the first line that ends the stream. *)
Fixpoint untilDone (lines : list jstring) : list jstring :=
  match lines with
  | [] => []
  | l :: rest => if endsStream l then [] else l :: untilDone rest
  end.

(** What the generate-stream processor writes for one line: for a data
    line its payload when that carries a text, for any other line what the
    handling of the common line types writes. *)
Definition generateLineWrites (line : jstring) : list jstring :=
  if isDataLine line
  then if carriesText (payloadOf line) then [payloadOf line] else []
  else writesOf (ResponseProcessors.processCommonLineTypes line).

(** What is written for the text after the last newline, which is read
    only when no line ended the stream: the text, trimmed, when it begins
    with a brace. *)
Definition tailWrites (content : jstring) : list jstring :=
  if existsb endsStream (linesOf content) then []
  else if startsWith (trim (restOf content)) (js "{")
       then [trim (restOf content)]
       else [].

(** Everything the generate-stream processor writes for a stream with the
    text [content]. *)
Definition generateWrites (content : jstring) : list jstring :=
  flat_map generateLineWrites (untilDone (linesOf content))
  ++ tailWrites content.

(** The key and the value the fallback reads in a pair:
    [pair.split('=').map((s) => s.trim())], when the first two pieces are
    there and not empty. *)
Definition keyAndValue (pair : jstring) : option (jstring * jstring) :=
  match map trim (split (ch "=") pair) with
  | (_ :: _) as key :: ((_ :: _) as value) :: _ => Some (key, value)
  | _ => None
  end.

(** [String.prototype.isWellFormed]: no surrogate stands without its
    pair. *)
Fixpoint isWellFormed (s : jstring) : bool :=
  match s with
  | [] => true
  | c :: rest =>
      if isLeadSurrogate c then
        match rest with
        | d :: rest' => isTrailSurrogate d && isWellFormed rest'
        | [] => false
        end
      else negb (isTrailSurrogate c) && isWellFormed rest
  end.

(** The UTF-8 bytes of a code point. *)
Definition utf8CodePoint (cp : N) : list N :=
  if (cp <? 128)%N then [cp]
  else if (cp <? 2048)%N then
    [(192 + cp / 64)%N; (128 + cp mod 64)%N]
  else if (cp <? 65536)%N then
    [(224 + cp / 4096)%N; (128 + (cp / 64) mod 64)%N; (128 + cp mod 64)%N]
  else
    [(240 + cp / 262144)%N; (128 + (cp / 4096) mod 64)%N;
     (128 + (cp / 64) mod 64)%N; (128 + cp mod 64)%N].

(** The bytes of U+FFFD, which stands for a surrogate without its pair. *)
Definition utf8Replacement : list N := [239; 191; 189]%N.

(** The bytes Node.js sends for a string given to [res.write] or [res.end]:
    its UTF-8 encoding, a surrogate pair as one code point. *)
Fixpoint utf8Encode (s : jstring) : list N :=
  match s with
  | [] => []
  | c :: rest =>
      if isLeadSurrogate c then
        match rest with
        | d :: rest' =>
            if isTrailSurrogate d
            then utf8CodePoint (65536 + (c - 55296) * 1024 + (d - 56320))%N
                 ++ utf8Encode rest'
            else utf8Replacement ++ utf8Encode rest
        | [] => utf8Replacement
        end
      else if isTrailSurrogate c then utf8Replacement ++ utf8Encode rest
      else utf8CodePoint c ++ utf8Encode rest
  end.

(** The bytes of the body the client receives: each chunk is encoded by
    itself. *)
Definition wireOf (r : Response) : list N :=
  flat_map (fun e => match e with EvWrite c => utf8Encode c | _ => [] end)
           (sent r).

(* ===================================================================== *)
(** * The JavaScript layer on examples *)
(* ===================================================================== *)

Example trim_line : trim (js "  data: x ") = js "data: x".
Proof. reflexivity. Qed.

Example split_pairs :
  split (ch ",") (js "a=1,,b") = [js "a=1"; []; js "b"].
Proof. reflexivity. Qed.

Example splitOn_prefix :
  splitOn (js "ab") (js "abxabyab") = [[]; js "x"; js "y"; []].
Proof. reflexivity. Qed.

Example number_of_hex : StringToNumber (js " 0x1F ") = StringToNumber (js "31").
Proof. vm_compute. reflexivity. Qed.

Example number_of_text : isNaN (StringToNumber (js "12px")) = true.
Proof. vm_compute. reflexivity. Qed.

Example number_rounds_to_nearest :
  StringToNumber (js "9007199254740993") = StringToNumber (js "9007199254740992").
Proof. vm_compute. reflexivity. Qed.

Example number_underflows : truthy (JNum (StringToNumber (js "1e-400"))) = false.
Proof. vm_compute. reflexivity. Qed.

Example number_text_shortest :
  NumberToString (StringToNumber (js "0.1000000000000000055")) = js "0.1".
Proof. vm_compute. reflexivity. Qed.

Example number_text_exponent :
  NumberToString (StringToNumber (js "1000000000000000000000")) = js "1e+21"
  /\ NumberToString (StringToNumber (js "123456789012345680000"))
     = js "123456789012345680000"
  /\ NumberToString (StringToNumber (js "0.0000001")) = js "1e-7"
  /\ NumberToString (StringToNumber (js "5e-324")) = js "5e-324".
Proof. repeat split; vm_compute; reflexivity. Qed.

Example parse_orders_keys :
  option_map Object_keys
    (JSON_parse (jsq "{'b':1,'10':2,'a':3,'9':4,'b':5,'__proto__':null}"))
  = Some (Some [js "9"; js "10"; js "b"; js "a"; js "__proto__"]).
Proof. vm_compute. reflexivity. Qed.

Example parse_rejects :
  map JSON_parse [jsq "[1,]"; jsq "{'a':01}"; jsq "'a"; js "NaN"; js ""; jsq "{'a' 1}"]
  = [None; None; None; None; None; None].
Proof. vm_compute. reflexivity. Qed.

Example stringify_skips_undefined :
  JSON_stringify (JObj [(js "a", JUndefined); (js "b", JArr [JUndefined; JNull])])
  = Some (jsq "{'b':[null,null]}").
Proof. vm_compute. reflexivity. Qed.

Example stringify_escapes :
  JSON_stringify (JStr [newline; dquote; 55357%N; 56832%N; 55357%N; 7%N])
  = Some ([dquote] ++ js "\n\" ++ [dquote; 55357%N; 56832%N]
          ++ js "\ud83d\u0007" ++ [dquote]).
Proof. vm_compute. reflexivity. Qed.

Example template_of_array :
  ToString (JArr [JNum (StringToNumber (js "1")); JNull; JArr [JBool true]])
  = Some (js "1,,true").
Proof. vm_compute. reflexivity. Qed.

Example payload_defaults :
  option_map (fun p => JSON_stringify (JObj (own p)))
    (match RequestTransformers.buildChatStreamPayload
             [objectLiteral [(js "role", JStr (js "user"));
                             (js "content", JStr (js "hi"))]]
             false (Some (js "top_p=0.9, seed = 7")) with
     | Normal p => Some p
     | Thrown _ => None
     end)
  = Some (Some (jsq "{'messages':[{'role':'user','content':'hi'}],'model':'nvidia/nemotron','stream':true,'temperature':0.7,'top_p':0.9,'seed':7}")).
Proof. vm_compute. reflexivity. Qed.

Example intermediate_step :
  bodyOf (snd (ResponseProcessors.processChatStream (js "*")
                 {| status := 200; backendHeaders := [];
                    body := Some [jsq "intermediate_data: {'id':'s1','status':'in_progress','name':'Step1'}"
                                    ++ [newline]] |}
                 freshResponse))
  = jsq "<intermediatestep>{'id':'s1','status':'in_progress','error':'','type':'system_intermediate','parent_id':'default','intermediate_parent_id':'default','content':{'name':'Step1','payload':'No details'},'time_stamp':'default'}</intermediatestep>".
Proof. vm_compute. reflexivity. Qed.

Example chat_extracts_content :
  answers 200 (js "hello")
    (ResponseProcessors.processChat (js "*")
       {| status := 200; backendHeaders := [];
          body := Some [jsq "{'choices':[{'message':{'content':'hello'}}]}"] |}
       freshResponse).
Proof. repeat split; vm_compute; reflexivity. Qed.

(* ===================================================================== *)
(** * Properties of strings and of own properties *)
(* ===================================================================== *)

Lemma jstr_eqb_spec (a b : jstring) : reflect (a = b) (jstr_eqb a b).
Proof.
  revert b; induction a as [|x a IH]; intros [|y b]; simpl;
    try (constructor; congruence).
  destruct (N.eqb_spec x y) as [->|Hxy]; simpl.
  - destruct (IH b) as [->|Hab]; constructor; congruence.
  - constructor; congruence.
Qed.

Lemma jstr_eqb_refl (a : jstring) : jstr_eqb a a = true.
Proof. destruct (jstr_eqb_spec a a); congruence. Qed.

Lemma jstr_eqb_neq (a b : jstring) : a <> b -> jstr_eqb a b = false.
Proof. destruct (jstr_eqb_spec a b); congruence. Qed.

Lemma jstr_eqb_sym (a b : jstring) : jstr_eqb a b = jstr_eqb b a.
Proof.
  destruct (jstr_eqb_spec a b), (jstr_eqb_spec b a); congruence.
Qed.

Lemma lookup_replaceProp k k' v props :
  lookup k' props <> None ->
  lookup k (replaceProp k' v props)
  = if jstr_eqb k k' then Some v else lookup k props.
Proof.
  induction props as [|[k0 v0] rest IH]; simpl; [congruence|]; intros Hin.
  destruct (jstr_eqb_spec k' k0) as [->|Hne]; simpl.
  - destruct (jstr_eqb_spec k k0); reflexivity.
  - destruct (jstr_eqb_spec k k0) as [->|Hk].
    + rewrite jstr_eqb_neq by congruence. reflexivity.
    + apply IH, Hin.
Qed.

Lemma lookup_insertIndex k i k' v props :
  lookup k' props = None ->
  lookup k (insertIndex i k' v props)
  = if jstr_eqb k k' then Some v else lookup k props.
Proof.
  induction props as [|[k0 v0] rest IH]; simpl; intros Hout.
  - reflexivity.
  - destruct (jstr_eqb_spec k' k0) as [->|Hne]; [discriminate|].
    destruct (arrayIndex k0) as [i0|]; [destruct (i0 <? i)%N|]; simpl;
      try reflexivity.
    destruct (jstr_eqb_spec k k0) as [->|Hk].
    + rewrite jstr_eqb_neq by congruence. reflexivity.
    + apply IH, Hout.
Qed.

Lemma lookup_app_last k k' v props :
  lookup k' props = None ->
  lookup k (props ++ [(k', v)])
  = if jstr_eqb k k' then Some v else lookup k props.
Proof.
  induction props as [|[k0 v0] rest IH]; simpl; intros Hout.
  - reflexivity.
  - destruct (jstr_eqb_spec k' k0) as [->|Hne]; [discriminate|].
    destruct (jstr_eqb_spec k k0) as [->|Hk].
    + rewrite jstr_eqb_neq by congruence. reflexivity.
    + apply IH, Hout.
Qed.

(** Reading a property after a definition: the key defined holds the new
    value, every other key holds what it held. *)
Lemma lookup_defineProp k k' v props :
  lookup k (defineProp props k' v)
  = if jstr_eqb k k' then Some v else lookup k props.
Proof.
  unfold defineProp. destruct (lookup k' props) eqn:Hk'.
  - apply lookup_replaceProp. congruence.
  - destruct (arrayIndex k').
    + apply lookup_insertIndex, Hk'.
    + apply lookup_app_last, Hk'.
Qed.

Lemma lookup_assign k k' v o :
  lookup k (own (assign o k' v))
  = if jstr_eqb k' (js "__proto__") then lookup k (own o)
    else if jstr_eqb k k' then Some v else lookup k (own o).
Proof.
  unfold assign. destruct (jstr_eqb k' (js "__proto__")).
  - destruct v; reflexivity.
  - simpl. apply lookup_defineProp.
Qed.

Lemma includes_In (l : list jstring) (k : jstring) :
  includes l k = true <-> In k l.
Proof.
  unfold includes. rewrite existsb_exists. split.
  - intros (x & Hx & Heq). destruct (jstr_eqb_spec k x); congruence.
  - intros Hin. exists k. split; [assumption | apply jstr_eqb_refl].
Qed.

(* ===================================================================== *)
(** * Properties of the payload builders *)
(* ===================================================================== *)

Section BuilderFacts.

Import RequestTransformers.

(** A reserved key keeps its value through the merge. *)
Lemma merge_keeps_reserved parsed keys payload k :
  includes RESERVED_FIELDS k = true ->
  lookup k (own (fold_left (mergeKey parsed) keys payload))
  = lookup k (own payload).
Proof.
  intros Hres. revert payload.
  induction keys as [|key keys IH]; intros payload; simpl; [reflexivity|].
  rewrite IH. unfold mergeKey.
  destruct (includes RESERVED_FIELDS key) eqn:Hkey; simpl; [reflexivity|].
  rewrite lookup_assign.
  destruct (jstr_eqb key (js "__proto__")); [reflexivity|].
  destruct (jstr_eqb_spec k key) as [->|]; [congruence | reflexivity].
Qed.

(** A key that is not reserved holds, after the merge, the value the
    parameters give it when they have it, and its former value otherwise. *)
Lemma merge_sets_others parsed keys payload k :
  includes RESERVED_FIELDS k = false ->
  jstr_eqb k (js "__proto__") = false ->
  lookup k (own (fold_left (mergeKey parsed) keys payload))
  = if includes keys k then Some (getValue parsed k)
    else lookup k (own payload).
Proof.
  intros Hres Hproto. revert payload.
  induction keys as [|key keys IH]; intros payload; simpl; [reflexivity|].
  rewrite IH. destruct (includes keys k) eqn:Hrest.
  - rewrite orb_true_r. reflexivity.
  - rewrite orb_false_r. unfold mergeKey.
    destruct (jstr_eqb_spec k key) as [<-|Hne].
    + rewrite Hres. simpl. rewrite lookup_assign, Hproto, jstr_eqb_refl.
      reflexivity.
    + destruct (includes RESERVED_FIELDS key); simpl; [reflexivity|].
      rewrite lookup_assign. destruct (jstr_eqb key (js "__proto__"));
        [reflexivity|].
      rewrite jstr_eqb_neq by assumption. reflexivity.
Qed.

End BuilderFacts.

(** C1, as the code has it. Whatever the messages and the optional
    parameters, both chat builders return a payload whose [messages] and
    [stream] are the builder's own ([stream] false for chat, true for
    chat-stream): these two keys are reserved and a caller's values for
    them are never merged. [model] is not reserved: it is the fixed
    identifier unless the optional parameters have a [model] key, and then
    it is the caller's value. *)
Theorem C1_reserved_keys_keep_defaults :
  forall (stream : bool) (messages : list JSValue) (useChatHistory : bool)
         (optionalParams : option jstring),
    let build := if stream then RequestTransformers.buildChatStreamPayload
                 else RequestTransformers.buildChatPayload in
    exists payload,
      build messages useChatHistory optionalParams = Normal payload
      /\ ownProp payload "messages"
         = Some (RequestTransformers.selectMessages messages useChatHistory)
      /\ ownProp payload "stream" = Some (JBool stream)
      /\ ownProp payload "model"
         = Some (match callerValue optionalParams "model" with
                 | Some v => v
                 | None => JStr (js "nvidia/nemotron")
                 end).
Proof.
  intros stream messages useChatHistory optionalParams build.
  assert (Hbuild : build = RequestTransformers.buildChat stream)
    by (subst build; destruct stream; reflexivity).
  rewrite Hbuild; clear Hbuild build.
  unfold RequestTransformers.buildChat, callerValue.
  set (base := RequestTransformers.basePayload messages useChatHistory stream).
  assert (Hbase :
    ownProp base "messages"
      = Some (RequestTransformers.selectMessages messages useChatHistory)
    /\ ownProp base "stream" = Some (JBool stream)
    /\ ownProp base "model" = Some (JStr (js "nvidia/nemotron")))
    by (repeat split; reflexivity).
  destruct Hbase as (Hm & Hs & Hmod).
  destruct optionalParams as [s|]; [|exists base; auto].
  destruct s as [|c s]; [exists base; auto|].
  destruct (trim (c :: s)) as [|t ts]; [exists base; auto|].
  unfold RequestTransformers.mergeOptionalParams.
  destruct (Object_keys (RequestTransformers.parseOptionalParams (c :: s)))
    as [keys|]; [|exists base; auto].
  eexists; split; [reflexivity|]. unfold ownProp in *.
  rewrite !merge_keeps_reserved by reflexivity.
  rewrite merge_sets_others by reflexivity.
  repeat split; try assumption.
  destruct (includes keys (js "model")); [reflexivity | assumption].
Qed.

(** C1 as stated fails for [model]: a [model] key of the optional
    parameters replaces the fixed identifier. *)
Lemma C1_model_is_overridden :
  exists payload,
    RequestTransformers.buildChatPayload [] true
      (Some (jsq "{'model':'evil','stream':true}")) = Normal payload
    /\ ownProp payload "stream" = Some (JBool false)
    /\ ownProp payload "model" = Some (JStr (js "evil"))
    /\ ownProp payload "model" <> Some (JStr (js "nvidia/nemotron")).
Proof.
  eexists. split; [vm_compute; reflexivity|].
  repeat split; try (vm_compute; reflexivity).
  vm_compute. discriminate.
Qed.

(** ** Splitting *)

Lemma split_no_sep (sep : N) (s : jstring) :
  ~ In sep s -> split sep s = [s].
Proof.
  induction s as [|c s IH]; simpl; intros Hnot; [reflexivity|].
  destruct (N.eqb_spec c sep) as [->|Hne]; [tauto|].
  rewrite IH by tauto. reflexivity.
Qed.

Lemma split_not_nil (sep : N) (s : jstring) : split sep s <> [].
Proof.
  destruct s as [|c s]; simpl; [discriminate|].
  destruct (N.eqb c sep); [discriminate|].
  destruct (split sep s); discriminate.
Qed.

(** The pieces of a split are made of code units of the string. *)
Lemma split_pieces (sep : N) (s piece : jstring) (c : N) :
  In piece (split sep s) -> In c piece -> In c s.
Proof.
  revert piece; induction s as [|x s IH]; simpl; intros piece Hp Hc.
  - destruct Hp as [<-|[]]. assumption.
  - destruct (N.eqb x sep).
    + destruct Hp as [<-|Hp]; [destruct Hc | right; eapply IH; eassumption].
    + destruct (split sep s) as [|l ls] eqn:Hs.
      * destruct Hp as [<-|[]]. destruct Hc as [<-|[]]. now left.
      * destruct Hp as [<-|Hp].
        -- destruct Hc as [<-|Hc]; [now left|].
           right. apply (IH l); [now left | assumption].
        -- right. apply (IH piece); [now right | assumption].
Qed.

Section KeyValueFacts.

Import RequestTransformers.

(** A pair without [=] adds nothing. *)
Lemma addPair_no_equals params pair :
  ~ In (ch "=") pair -> addPair params pair = params.
Proof.
  intros Hno. unfold addPair. rewrite split_no_sep by assumption.
  reflexivity.
Qed.

Lemma parseKeyValueList_no_equals s :
  ~ In (ch "=") s -> parseKeyValueList s = JObj [].
Proof.
  intros Hno. unfold parseKeyValueList.
  assert (Hfold : forall pieces o,
             (forall p, In p pieces -> ~ In (ch "=") p) ->
             fold_left addPair pieces o = o).
  { induction pieces as [|p ps IH]; intros o Hall; simpl; [reflexivity|].
    rewrite addPair_no_equals by (apply Hall; now left).
    apply IH. intros q Hq. apply Hall. now right. }
  rewrite Hfold; [reflexivity|].
  intros p Hp Hin. apply Hno. eapply split_pieces; eassumption.
Qed.

End KeyValueFacts.

(** ** Trimming *)

Lemma trimEnd_nil_blank (s : jstring) :
  trimEnd s = [] -> Forall (fun c => isWhiteSpace c = true) s.
Proof.
  induction s as [|c s IH]; simpl; intros H; [constructor|].
  destruct (trimEnd s) eqn:Ht; [|discriminate].
  destruct (isWhiteSpace c) eqn:Hc; [|discriminate].
  constructor; auto.
Qed.

Lemma trim_nil_blank (s : jstring) :
  trim s = [] -> Forall (fun c => isWhiteSpace c = true) s.
Proof.
  unfold trim. induction s as [|c s IH]; simpl; intros H; [constructor|].
  destruct (isWhiteSpace c) eqn:Hc.
  - constructor; auto.
  - apply trimEnd_nil_blank in H. inversion H; subst. congruence.
Qed.

Lemma blank_no_equals (s : jstring) : trim s = [] -> ~ In (ch "=") s.
Proof.
  intros Hblank Hin. apply trim_nil_blank in Hblank.
  rewrite Forall_forall in Hblank. specialize (Hblank _ Hin). discriminate.
Qed.

(** Merging reserved keys only changes nothing. *)
Lemma merge_reserved_only parsed keys payload :
  (forall key, In key keys ->
     includes RequestTransformers.RESERVED_FIELDS key = true) ->
  fold_left (RequestTransformers.mergeKey parsed) keys payload = payload.
Proof.
  revert payload. induction keys as [|key keys IH]; intros payload Hall;
    simpl; [reflexivity|].
  unfold RequestTransformers.mergeKey at 2.
  rewrite (Hall key) by now left. simpl.
  apply IH. intros k Hk. apply Hall. now right.
Qed.

(** C9, as the code has it. For an optional-parameters string that is
    malformed JSON neither chat builder raises; the string is read as a
    comma-separated list of [key=value] pairs, and the payload is the one
    built with no optional parameters, with the pairs whose key is not
    reserved merged in. It is the payload built with no optional
    parameters when every key of the pairs is reserved, and so when the
    string has no [=] at all. *)
Theorem C9_malformed_json_falls_back_to_pairs :
  forall (stream : bool) (messages : list JSValue) (useChatHistory : bool)
         (s : jstring),
    JSON_parse s = None ->
    let build := if stream then RequestTransformers.buildChatStreamPayload
                 else RequestTransformers.buildChatPayload in
    let pairs := RequestTransformers.parseKeyValueList s in
    let defaults :=
      RequestTransformers.basePayload messages useChatHistory stream in
    build messages useChatHistory None = Normal defaults
    /\ build messages useChatHistory (Some s)
       = Normal (fold_left (RequestTransformers.mergeKey pairs)
                           (keysOf pairs) defaults)
    /\ ((forall key, In key (keysOf pairs) ->
           includes RequestTransformers.RESERVED_FIELDS key = true) ->
        build messages useChatHistory (Some s)
        = build messages useChatHistory None)
    /\ (~ In (ch "=") s ->
        build messages useChatHistory (Some s)
        = build messages useChatHistory None).
Proof.
  intros stream messages useChatHistory s Hbad build pairs defaults.
  assert (Hbuild : build = RequestTransformers.buildChat stream)
    by (subst build; destruct stream; reflexivity).
  rewrite Hbuild; clear Hbuild build.
  assert (Hsome :
    RequestTransformers.buildChat stream messages useChatHistory (Some s)
    = Normal (fold_left (RequestTransformers.mergeKey pairs)
                        (keysOf pairs) defaults)).
  { unfold RequestTransformers.buildChat. fold defaults.
    destruct s as [|c s].
    - reflexivity.
    - destruct (trim (c :: s)) as [|t ts] eqn:Htrim.
      + subst pairs.
        rewrite parseKeyValueList_no_equals
          by (apply blank_no_equals, Htrim).
        reflexivity.
      + unfold RequestTransformers.mergeOptionalParams,
          RequestTransformers.parseOptionalParams.
        rewrite Htrim, Hbad. fold pairs. reflexivity. }
  split; [reflexivity|]. split; [exact Hsome|]. split.
  - intros Hreserved. rewrite Hsome, merge_reserved_only by assumption.
    reflexivity.
  - intros Hno. rewrite Hsome. subst pairs.
    rewrite parseKeyValueList_no_equals by assumption.
    reflexivity.
Qed.

Lemma C9_witness :
  RequestTransformers.buildChatStreamPayload [] false
    (Some (js "stream=false, messages=none"))
  = RequestTransformers.buildChatStreamPayload [] false None.
Proof.
  refine (proj1 (proj2 (proj2 (@C9_malformed_json_falls_back_to_pairs
                          true [] false (js "stream=false, messages=none") _)))
            _).
  - vm_compute. reflexivity.
  - vm_compute. intros key [<-|[<-|[]]]; reflexivity.
Defined.

(** C9 as stated fails: [top_p=0.9] is malformed JSON, and the payload
    built from it is not the one built with no optional parameters. *)
Lemma C9_pairs_change_the_payload :
  JSON_parse (js "top_p=0.9") = None
  /\ RequestTransformers.buildChatPayload [] false (Some (js "top_p=0.9"))
     <> RequestTransformers.buildChatPayload [] false None.
Proof.
  split; [vm_compute; reflexivity|]. vm_compute. discriminate.
Qed.

(* ===================================================================== *)
(** * Properties of the response processors *)
(* ===================================================================== *)

Lemma JSON_parse_nil : JSON_parse [] = None.
Proof. reflexivity. Qed.

Lemma bodyOf_chunkEvents (st : Z) (hs : headers) (content : jstring) :
  bodyOf {| pending := []; sent := EvHead st hs :: chunkEvents content ++ [EvEnd] |}
  = content.
Proof.
  unfold bodyOf. destruct content as [|c content]; simpl; [reflexivity|].
  now rewrite app_nil_r.
Qed.

Lemma terminations_chunkEvents (st : Z) (hs : headers) (content : jstring) :
  terminations
    {| pending := []; sent := EvHead st hs :: chunkEvents content ++ [EvEnd] |}
  = 1.
Proof. destruct content; reflexivity. Qed.

(** A head and one body, then the end. *)
Lemma answers_head_body (st : Z) (hs : headers) (content : jstring) :
  answers st content
    (Normal tt,
     {| pending := [];
        sent := EvHead st hs :: chunkEvents content ++ [EvEnd] |}).
Proof.
  repeat split.
  - apply bodyOf_chunkEvents.
  - apply terminations_chunkEvents.
Qed.

Section ProcessorFacts.

Import ResponseProcessors.

Variable CORS_ORIGIN : jstring.

Lemma mirrorFailure_fresh (b : BackendResponse) :
  mirrorFailure b freshResponse
  = (Normal tt,
     {| pending := [];
        sent := EvHead (status b) jsonContentType
                  :: chunkEvents (text b) ++ [EvEnd] |}).
Proof. reflexivity. Qed.

(** A head with status 200 and one body on a fresh response. *)
Lemma head_then_end (hs : headers) (data : option jstring) :
  bind (res.writeHead 200 hs) (fun _ => res.end_ data) freshResponse
  = (Normal tt,
     {| pending := [];
        sent := EvHead 200 hs
                  :: chunkEvents (match data with Some d => d | None => [] end)
                  ++ [EvEnd] |}).
Proof. destruct data as [d|]; reflexivity. Qed.

End ProcessorFacts.

(** C7. Whatever the processor, a backend response whose status is not a
    success is mirrored: the client receives the backend's status code and
    the backend's body text as it is, and the processor ends normally. *)
Theorem C7_backend_failure_is_mirrored :
  forall (CORS_ORIGIN : jstring) (b : BackendResponse),
    ok b = false ->
    answers (status b) (text b)
      (ResponseProcessors.processChat CORS_ORIGIN b freshResponse)
    /\ answers (status b) (text b)
         (ResponseProcessors.processChatStream CORS_ORIGIN b freshResponse)
    /\ answers (status b) (text b)
         (ResponseProcessors.processGenerate CORS_ORIGIN b freshResponse)
    /\ answers (status b) (text b)
         (ResponseProcessors.processGenerateStream CORS_ORIGIN b freshResponse)
    /\ answers (status b) (text b)
         (ResponseProcessors.processCaRag CORS_ORIGIN b freshResponse).
Proof.
  intros cors b Hok.
  unfold ResponseProcessors.processChat, ResponseProcessors.processChatStream,
    ResponseProcessors.processGenerate,
    ResponseProcessors.processGenerateStream,
    ResponseProcessors.processStream, ResponseProcessors.processCaRag.
  rewrite Hok. cbn [negb].
  rewrite mirrorFailure_fresh.
  repeat split; try apply bodyOf_chunkEvents; apply terminations_chunkEvents.
Qed.

Lemma C7_witness :
  answers 503 (js "upstream down")
    (ResponseProcessors.processChat (js "http://localhost:3000")
       {| status := 503; backendHeaders := [];
          body := Some [js "upstream "; js "down"] |}
       freshResponse).
Proof.
  exact (proj1 (@C7_backend_failure_is_mirrored (js "http://localhost:3000")
                  {| status := 503; backendHeaders := [];
                     body := Some [js "upstream "; js "down"] |}
                  eq_refl)).
Defined.

(** C8. A successful backend response whose body is not valid JSON goes
    through each non-streaming processor as it is: status 200, the raw
    body text, no exception. *)
Theorem C8_invalid_json_passes_through :
  forall (CORS_ORIGIN : jstring) (b : BackendResponse),
    ok b = true ->
    JSON_parse (text b) = None ->
    answers 200 (text b)
      (ResponseProcessors.processChat CORS_ORIGIN b freshResponse)
    /\ answers 200 (text b)
         (ResponseProcessors.processGenerate CORS_ORIGIN b freshResponse)
    /\ answers 200 (text b)
         (ResponseProcessors.processCaRag CORS_ORIGIN b freshResponse).
Proof.
  intros cors b Hok Hbad.
  unfold ResponseProcessors.processChat, ResponseProcessors.processGenerate,
    ResponseProcessors.processCaRag.
  rewrite Hok. cbn [negb].
  unfold tryCatch, bind at 1 3, orThrow. rewrite Hbad.
  unfold throw. cbv beta iota.
  rewrite !head_then_end.
  repeat split; try apply bodyOf_chunkEvents; apply terminations_chunkEvents.
Qed.

Lemma C8_witness :
  answers 200 (js "upstream says hi")
    (ResponseProcessors.processCaRag (js "http://localhost:3000")
       {| status := 200; backendHeaders := [];
          body := Some [js "upstream says hi"] |}
       freshResponse).
Proof.
  exact (proj2 (proj2 (@C8_invalid_json_passes_through
                         (js "http://localhost:3000")
                         {| status := 200; backendHeaders := [];
                            body := Some [js "upstream says hi"] |}
                         eq_refl eq_refl))).
Defined.

Lemma orElse_empty_string (v : JSValue) : orElse (JStr []) v = v.
Proof. reflexivity. Qed.

(** C10, as the code has it. In both processors the fallback between the
    extraction fields goes by truthiness. When the preferred field of a
    successful JSON body is the empty string, the chat processor answers
    with the first truthy one of the top-level [message], [answer] and
    [value], and the stateful-workflow-call processor answers with the
    top-level [answer] when it is truthy and with the raw body text
    otherwise. (What the chat processor sends when none of its fallback
    fields is truthy is not part of this statement.) *)
Theorem C10_fallback_goes_by_truthiness :
  forall (CORS_ORIGIN : jstring) (b : BackendResponse) (parsed : JSValue),
    ok b = true ->
    JSON_parse (text b) = Some parsed ->
    (optGetLit (optGetLit (optGetLit (optGetLit parsed "choices") "0")
                  "message") "content" = JStr [] ->
     let fallback :=
       orElse (orElse (optGetLit parsed "message") (optGetLit parsed "answer"))
              (optGetLit parsed "value") in
     truthy fallback = true ->
     answers 200 (textOf fallback)
       (ResponseProcessors.processChat CORS_ORIGIN b freshResponse))
    /\ (optGetLit (optGetLit (optGetLit parsed "state") "chat") "answer"
        = JStr [] ->
        answers 200
          (if truthy (optGetLit parsed "answer")
           then textOf (optGetLit parsed "answer")
           else text b)
          (ResponseProcessors.processCaRag CORS_ORIGIN b freshResponse)).
Proof.
  intros cors b parsed Hok Hparse. split.
  - intros Hempty fallback Htruthy.
    unfold ResponseProcessors.processChat.
    rewrite Hok. cbn [negb].
    unfold tryCatch, bind at 1, orThrow. rewrite Hparse.
    unfold ret at 1. cbv beta iota.
    rewrite Hempty, orElse_empty_string. fold fallback.
    rewrite head_then_end. unfold textOf. apply answers_head_body.
  - intros Hempty.
    unfold ResponseProcessors.processCaRag.
    rewrite Hok. cbn [negb].
    unfold tryCatch, bind at 1, orThrow. rewrite Hparse.
    unfold ret at 1. cbv beta iota.
    rewrite Hempty, orElse_empty_string.
    rewrite head_then_end. unfold orElse, textOf.
    destruct (truthy (optGetLit parsed "answer")); apply answers_head_body.
Qed.

Lemma C10_witness :
  let b := {| status := 200; backendHeaders := [];
              body := Some [jsq "{'choices':[{'message':{'content':''}}],'state':{'chat':{'answer':''}},'value':'v'}"] |} in
  answers 200 (js "v")
    (ResponseProcessors.processChat (js "http://localhost:3000") b
       freshResponse)
  /\ answers 200 (text b)
       (ResponseProcessors.processCaRag (js "http://localhost:3000") b
          freshResponse).
Proof.
  intros b.
  pose proof (@C10_fallback_goes_by_truthiness (js "http://localhost:3000") b
                (objectLiteral
                   [(js "choices",
                     JArr [objectLiteral
                             [(js "message",
                               objectLiteral [(js "content", JStr [])])]]);
                    (js "state",
                     objectLiteral
                       [(js "chat", objectLiteral [(js "answer", JStr [])])]);
                    (js "value", JStr (js "v"))])
                eq_refl eq_refl) as [Hchat Hrag].
  split.
  - exact (Hchat eq_refl eq_refl).
  - exact (Hrag eq_refl).
Defined.

(** C10 as stated fails for the chat processor: with an empty first-choice
    content and no other field, the client receives an empty body, not the
    raw JSON text. *)
Lemma C10_chat_has_no_raw_fallback :
  let b := {| status := 200; backendHeaders := [];
              body := Some [jsq "{'choices':[{'message':{'content':''}}]}"] |} in
  ok b = true
  /\ (exists parsed,
        JSON_parse (text b) = Some parsed
        /\ optGetLit (optGetLit (optGetLit (optGetLit parsed "choices") "0")
                        "message") "content" = JStr [])
  /\ answers 200 []
       (ResponseProcessors.processChat (js "http://localhost:3000") b
          freshResponse)
  /\ bodyOf (snd (ResponseProcessors.processChat (js "http://localhost:3000")
                    b freshResponse)) <> text b.
Proof.
  intros b. split; [reflexivity|]. split.
  - eexists. split; vm_compute; reflexivity.
  - split; [repeat split; vm_compute; reflexivity|].
    vm_compute. discriminate.
Qed.

(* ===================================================================== *)
(** * Properties of the streaming processors *)
(* ===================================================================== *)

Lemma removelast_app_split {A} (l1 l2 : list A) :
  l2 <> [] -> removelast (l1 ++ l2) = l1 ++ removelast l2.
Proof. intros H. now apply removelast_app. Qed.

Lemma last_app_nonempty {A} (l1 l2 : list A) (d : A) :
  l2 <> [] -> last (l1 ++ l2) d = last l2 d.
Proof.
  intros H. induction l1 as [|x l1 IH]; simpl; [reflexivity|].
  destruct (l1 ++ l2) eqn:Happ; [|exact IH].
  apply app_eq_nil in Happ. tauto.
Qed.

(** Splitting a text that grows: the complete pieces stay, the last piece
    goes on. *)
Lemma split_app (sep : N) (a b : jstring) :
  split sep (a ++ b)
  = removelast (split sep a) ++ split sep (last (split sep a) [] ++ b).
Proof.
  induction a as [|c a IH]; simpl; [reflexivity|].
  destruct (N.eqb c sep) eqn:Hc.
  - rewrite IH. pose proof (split_not_nil sep a) as Hne.
    destruct (split sep a) as [|l ls]; [congruence|]. reflexivity.
  - rewrite IH. pose proof (split_not_nil sep a) as Hne.
    destruct (split sep a) as [|l ls]; [congruence|].
    destruct ls as [|x ls2].
    + simpl. rewrite Hc.
      pose proof (split_not_nil sep (l ++ b)) as Hne'.
      destruct (split sep (l ++ b)); [congruence | reflexivity].
    + reflexivity.
Qed.

Lemma split_pieces_no_sep (sep : N) (s : jstring) :
  Forall (fun piece => ~ In sep piece) (split sep s).
Proof.
  induction s as [|c s IH]; simpl.
  - constructor; [tauto | constructor].
  - destruct (N.eqb_spec c sep) as [->|Hne].
    + constructor; [tauto | exact IH].
    + destruct (split sep s) as [|l ls]; inversion IH; subst.
      * constructor; [|constructor]. simpl. intuition congruence.
      * constructor; [|assumption]. simpl. intuition congruence.
Qed.

Lemma restOf_no_newline (content : jstring) : ~ In newline (restOf content).
Proof.
  unfold restOf. pose proof (split_pieces_no_sep newline content) as Hall.
  pose proof (split_not_nil newline content) as Hne.
  induction (split newline content) as [|l ls IH]; [congruence|].
  inversion Hall; subst. destruct ls as [|x ls2]; [assumption|].
  apply IH; [assumption | discriminate].
Qed.

(** A line and its newline at the head of a text. *)
Lemma split_line (sep : N) (line rest : jstring) :
  ~ In sep line ->
  split sep (line ++ sep :: rest) = line :: split sep rest.
Proof.
  induction line as [|c line IH]; simpl; intros Hno.
  - rewrite N.eqb_refl. reflexivity.
  - destruct (N.eqb_spec c sep) as [->|Hne]; [tauto|].
    rewrite IH by tauto. reflexivity.
Qed.

Lemma linesOf_line (line rest : jstring) :
  ~ In newline line ->
  linesOf (line ++ newline :: rest) = line :: linesOf rest.
Proof.
  intros Hno. unfold linesOf. rewrite split_line by assumption.
  pose proof (split_not_nil newline rest).
  simpl. destruct (split newline rest); [congruence | reflexivity].
Qed.

Lemma restOf_line (line rest : jstring) :
  ~ In newline line -> restOf (line ++ newline :: rest) = restOf rest.
Proof.
  intros Hno. unfold restOf. rewrite split_line by assumption.
  pose proof (split_not_nil newline rest).
  simpl. destruct (split newline rest); [congruence | reflexivity].
Qed.

Section LoopFacts.

Context {S A : Type}.

Lemma forOf_app (body : A -> Eff S control) (l1 l2 : list A) (s : S) :
  forOf body (l1 ++ l2) s
  = match forOf body l1 s with
    | (Normal Continue, s') => forOf body l2 s'
    | other => other
    end.
Proof.
  revert s; induction l1 as [|x l1 IH]; intros s; simpl; [reflexivity|].
  unfold bind. destruct (body x s) as [[[|]|e] s']; try reflexivity.
  apply IH.
Qed.

End LoopFacts.

Section StreamFacts.

Import ResponseProcessors.

Variable lineBody : jstring -> Eff Response control.

(** The read loop does to the response what handling the lines of the whole
    text does, however the text is cut into chunks; when it goes on to the
    end, the buffer holds what follows the last newline. *)
Lemma readLoop_text {B : Type} (kc : jstring -> Eff Response B)
    (kr : Eff Response B) (chunks : list jstring) :
  forall (buffer : jstring) (r : Response),
    ~ In newline buffer ->
    bind (readLoop lineBody chunks buffer)
         (fun x => match fst x with
                   | Continue => kc (snd x)
                   | Return => kr
                   end) r
    = bind (forOf lineBody (linesOf (buffer ++ List.concat chunks)))
           (fun c => match c with
                     | Continue => kc (restOf (buffer ++ List.concat chunks))
                     | Return => kr
                     end) r.
Proof.
  induction chunks as [|chunk rest IH]; intros buffer r Hbuf.
  - simpl. rewrite app_nil_r. unfold linesOf, restOf.
    rewrite split_no_sep by assumption. reflexivity.
  - simpl readLoop. simpl List.concat. rewrite app_assoc.
    unfold linesOf at 1, restOf at 1.
    rewrite (split_app newline (buffer ++ chunk) (List.concat rest)).
    fold (restOf (buffer ++ chunk)). fold (linesOf (buffer ++ chunk)).
    rewrite removelast_app_split, last_app_nonempty by apply split_not_nil.
    fold (linesOf (restOf (buffer ++ chunk) ++ List.concat rest)).
    fold (restOf (restOf (buffer ++ chunk) ++ List.concat rest)).
    unfold bind at 1 2 3. rewrite forOf_app.
    destruct (forOf lineBody (linesOf (buffer ++ chunk)) r)
      as [[[|]|e] r']; try reflexivity.
    specialize (IH (restOf (buffer ++ chunk)) r' (restOf_no_newline _)).
    unfold bind in IH. exact IH.
Qed.

End StreamFacts.

Section StreamSemantics.

Import ResponseProcessors.

Variable CORS_ORIGIN : jstring.
Variable lineBody : jstring -> Eff Response control.

(** A successful stream is handled as its whole text is, line by line,
    however it is cut into chunks. *)
Lemma processStream_text (b : BackendResponse) (chunks : list jstring)
    (r : Response) :
  ok b = true ->
  body b = Some chunks ->
  processStream CORS_ORIGIN lineBody b r
  = bind (res.writeHead 200 (streamHeaders CORS_ORIGIN)) (fun _ =>
      finally
        (tryCatch (handleText lineBody (List.concat chunks))
                  (fun _ => ret tt))
        (res.end_ None)) r.
Proof.
  intros Hok Hbody. unfold processStream. rewrite Hok, Hbody. cbn [negb].
  unfold bind at 1 4.
  destruct (res.writeHead 200 (streamHeaders CORS_ORIGIN) r) as [[[]|e] r1];
    [|reflexivity].
  unfold orThrow, bind at 1, ret at 1. cbv beta iota.
  unfold finally, tryCatch, handleText.
  rewrite (readLoop_text lineBody processRemainingBuffer (ret tt) chunks
             [] r1 (fun H => H)).
  reflexivity.
Qed.

(** The first write of a processor on a fresh response. *)
Lemma writeHead_fresh (st : Z) (hs : headers) :
  res.writeHead st hs freshResponse
  = (Normal tt, {| pending := []; sent := [EvHead st hs] |}).
Proof. reflexivity. Qed.

End StreamSemantics.

(** C5. A successful stream made of the line
    [data: {"choices":[{"delta":{"content":"a"}}]}] and the line
    [data: [DONE]] gives the client the status 200, the text [a] and the end
    of the response, once. This holds however the stream is cut into
    chunks, whether or not a newline ends the DONE line, and whatever
    follows that newline, none of which is written. *)
Theorem C5_chat_stream_round_trip :
  forall (CORS_ORIGIN : jstring) (b : BackendResponse)
         (chunks : list jstring) (after : jstring),
    ok b = true ->
    body b = Some chunks ->
    List.concat chunks
    = jsq "data: {'choices':[{'delta':{'content':'a'}}]}" ++ newline
        :: js "data: [DONE]" ++ newline :: after
    \/ List.concat chunks
       = jsq "data: {'choices':[{'delta':{'content':'a'}}]}" ++ newline
           :: js "data: [DONE]" ->
    let run := ResponseProcessors.processChatStream CORS_ORIGIN b freshResponse in
    run = (Normal tt,
           {| pending := [];
              sent := [EvHead 200 (ResponseProcessors.streamHeaders CORS_ORIGIN);
                       EvWrite (js "a");
                       EvEnd] |})
    /\ answers 200 (js "a") run.
Proof.
  intros cors b chunks after Hok Hbody Htext run.
  assert (Hrun : run = (Normal tt,
           {| pending := [];
              sent := [EvHead 200 (ResponseProcessors.streamHeaders cors);
                       EvWrite (js "a");
                       EvEnd] |})).
  { subst run. unfold ResponseProcessors.processChatStream.
    rewrite (processStream_text cors _ b freshResponse Hok Hbody).
    destruct Htext as [Htext|Htext]; rewrite Htext.
    - unfold bind at 1. rewrite writeHead_fresh.
      unfold finally, tryCatch, handleText.
      rewrite !linesOf_line by (vm_compute; intuition discriminate).
      unfold bind at 1. cbn [forOf].
      unfold bind at 1.
      match goal with
      | |- context [ResponseProcessors.chatStreamLine ?l ?r] =>
          let v := eval vm_compute in (ResponseProcessors.chatStreamLine l r) in
          change (ResponseProcessors.chatStreamLine l r) with v
      end.
      cbv beta iota. unfold bind at 1.
      match goal with
      | |- context [ResponseProcessors.chatStreamLine ?l ?r] =>
          let v := eval vm_compute in (ResponseProcessors.chatStreamLine l r) in
          change (ResponseProcessors.chatStreamLine l r) with v
      end.
      reflexivity.
    - vm_compute. reflexivity. }
  split; [exact Hrun|]. rewrite Hrun. repeat split.
Qed.

Lemma C5_witness :
  answers 200 (js "a")
    (ResponseProcessors.processChatStream (js "http://localhost:3000")
       {| status := 200; backendHeaders := [];
          body := Some [jsq "data: {'choices':[{'del";
                        jsq "ta':{'content':'a'}}]}" ++ [newline] ++ js "data: [DO";
                        js "NE]" ++ [newline]] |}
       freshResponse).
Proof.
  exact (proj2 (@C5_chat_stream_round_trip (js "http://localhost:3000")
                  {| status := 200; backendHeaders := [];
                     body := Some [jsq "data: {'choices':[{'del";
                                   jsq "ta':{'content':'a'}}]}" ++ [newline]
                                     ++ js "data: [DO";
                                   js "NE]" ++ [newline]] |}
                  _ [] eq_refl eq_refl (or_introl eq_refl))).
Defined.

(** ** Writing on a response that has begun *)

Lemma emit_nil (r : Response) : emit [] r = r.
Proof. destruct r as [p s]. unfold emit. simpl. now rewrite app_nil_r. Qed.

Lemma emit_emit (es1 es2 : list event) (r : Response) :
  emit es2 (emit es1 r) = emit (es1 ++ es2) r.
Proof. unfold emit. simpl. now rewrite app_assoc. Qed.

Lemma live_emit (es : list event) (r : Response) :
  live r -> existsb isEnd es = false -> live (emit es r).
Proof.
  intros [Hhead Hend] Hes. unfold live, headersSent, writableEnded in *.
  simpl. split.
  - destruct (sent r); [discriminate | reflexivity].
  - rewrite existsb_app, Hend, Hes. reflexivity.
Qed.

Lemma write_live (chunk : jstring) (r : Response) :
  live r -> res.write chunk r = (Normal tt, emit (chunkEvents chunk) r).
Proof.
  intros [Hhead Hend]. unfold res.write, implicitHead.
  now rewrite Hend, Hhead.
Qed.

Lemma end_live (r : Response) :
  live r -> res.end_ None r = (Normal tt, emit [EvEnd] r).
Proof.
  intros [Hhead Hend]. unfold res.end_, implicitHead.
  now rewrite Hend, Hhead.
Qed.

Lemma end_again (data : option jstring) (r : Response) :
  writableEnded r = true -> res.end_ data r = (Normal tt, r).
Proof. intros Hend. unfold res.end_. now rewrite Hend. Qed.

Lemma existsb_isEnd_writes (ws : list jstring) :
  existsb isEnd (map EvWrite ws) = false.
Proof. induction ws; simpl; auto. Qed.

Section GenerateStreamFacts.

Import ResponseProcessors.

(** What the generate-stream processor does with one data line. *)
Lemma generateStreamLine_data (line : jstring) (r : Response) :
  isDataLine line = true ->
  live r ->
  generateStreamLine line r
  = if isDoneLine line then (Normal Return, emit [EvEnd] r)
    else (Normal Continue,
          if carriesText (payloadOf line)
          then emit [EvWrite (payloadOf line)] r
          else r).
Proof.
  intros Hdata Hlive. unfold generateStreamLine, isDataLine in *.
  rewrite Hdata. unfold isDoneLine. fold (payloadOf line).
  destruct (isDoneSentinel (payloadOf line)).
  - unfold bind. rewrite end_live by assumption. reflexivity.
  - unfold carriesText, bind at 1, tryCatch, bind at 1, orThrow.
    destruct (JSON_parse (payloadOf line)) as [v|] eqn:Hparse;
      [|reflexivity].
    unfold ret at 1. cbv beta iota.
    destruct (optGetLit v "value") as [| |flag|x|[|c s]|items|props];
      try reflexivity.
    + destruct flag; reflexivity.
    + destruct x; reflexivity.
    + cbn [truthy isString andb]. rewrite write_live by assumption.
      destruct (payloadOf line); [discriminate Hparse | reflexivity].
Qed.

End GenerateStreamFacts.

(* ===================================================================== *)
(** * Computations that do the same on every response *)
(* ===================================================================== *)

Section Playing.

Lemma chunksOf_begun (ws : list jstring) :
  chunksOf (emit (map EvWrite ws) begun) = ws.
Proof.
  unfold chunksOf, emit, begun. cbn [sent app flat_map].
  induction ws as [|w ws IH]; [reflexivity|]. cbn [map flat_map app].
  now rewrite IH.
Qed.

Lemma live_begun : live begun.
Proof. split; reflexivity. Qed.

(** What a computation that does the same everywhere writes. *)
Lemma plays_writesOf {A} (m : Eff Response A) o ws :
  plays m o ws -> writesOf m = ws.
Proof.
  intros H. unfold writesOf. rewrite (H begun live_begun). apply chunksOf_begun.
Qed.

Lemma steady_ret {A} (a : A) : steady (ret (S := Response) a).
Proof. exists (Normal a), []. intros r _. cbn. now rewrite emit_nil. Qed.

Lemma steady_throw {A} (e : exn) : steady (throw (S := Response) (A := A) e).
Proof. exists (Thrown e), []. intros r _. cbn. now rewrite emit_nil. Qed.

Lemma steady_orThrow {A} (e : exn) (o : option A) :
  steady (orThrow (S := Response) e o).
Proof. destruct o; [apply steady_ret | apply steady_throw]. Qed.

Lemma steady_write (chunk : jstring) : steady (res.write chunk).
Proof.
  exists (Normal tt).
  destruct chunk as [|c chunk]; [exists [] | exists [c :: chunk]];
    intros r Hlive; rewrite write_live by assumption; reflexivity.
Qed.

Lemma steady_writeValue (v : JSValue) : steady (res.writeValue v).
Proof. destruct v; try apply steady_throw. apply steady_write. Qed.

Lemma live_after (ws : list jstring) (r : Response) :
  live r -> live (emit (map EvWrite ws) r).
Proof. intros H. apply live_emit; [assumption | apply existsb_isEnd_writes]. Qed.

Lemma steady_bind {A B} (m : Eff Response A) (k : A -> Eff Response B) :
  steady m -> (forall a, steady (k a)) -> steady (bind m k).
Proof.
  intros ([a|e] & ws & Hm) Hk.
  - destruct (Hk a) as (o & ws' & Hka). exists o, (ws ++ ws').
    intros r Hlive. unfold bind.
    rewrite (Hm r Hlive), (Hka _ (live_after ws Hlive)), emit_emit, map_app.
    reflexivity.
  - exists (Thrown e), ws. intros r Hlive. unfold bind.
    rewrite (Hm r Hlive). reflexivity.
Qed.

Lemma steady_tryCatch {A} (m : Eff Response A) (h : exn -> Eff Response A) :
  steady m -> (forall e, steady (h e)) -> steady (tryCatch m h).
Proof.
  intros ([a|e] & ws & Hm) Hh.
  - exists (Normal a), ws. intros r Hlive. unfold tryCatch.
    rewrite (Hm r Hlive). reflexivity.
  - destruct (Hh e) as (o & ws' & Hhe). exists o, (ws ++ ws').
    intros r Hlive. unfold tryCatch.
    rewrite (Hm r Hlive), (Hhe _ (live_after ws Hlive)), emit_emit, map_app.
    reflexivity.
Qed.

End Playing.

Create HintDb steadily.

#[local] Hint Resolve steady_ret steady_throw steady_orThrow steady_write
  steady_writeValue : steadily.

Section CommonLines.

Import ResponseProcessors.

(** [try { m } catch { }] returns, whatever [m] does. *)
Lemma returns_ignoring (m : Eff Response unit) :
  steady m -> exists ws, plays (tryCatch m (fun _ => ret tt)) (Normal tt) ws.
Proof.
  intros ([[]|e] & ws & Hm); exists ws; intros r Hlive; unfold tryCatch;
    rewrite (Hm r Hlive); reflexivity.
Qed.

Lemma returns_then {A} (m : Eff Response unit) (a : A) ws :
  plays m (Normal tt) ws -> plays (bind m (fun _ => ret a)) (Normal a) ws.
Proof.
  intros Hm r Hlive. unfold bind. rewrite (Hm r Hlive). reflexivity.
Qed.

Lemma processIntermediateData_returns line :
  exists ws, plays (processIntermediateData line) (Normal tt) ws.
Proof.
  unfold processIntermediateData. apply returns_ignoring.
  repeat (apply steady_bind; [auto with steadily | intros ?]).
  apply steady_write.
Qed.

Lemma processObservabilityTrace_returns line :
  exists ws, plays (processObservabilityTrace line) (Normal tt) ws.
Proof.
  unfold processObservabilityTrace. apply returns_ignoring.
  repeat (apply steady_bind; [auto with steadily | intros ?]).
  match goal with |- steady (if ?c then _ else _) => destruct c end;
    [|auto with steadily].
  apply steady_bind; [auto with steadily | intros ?]. apply steady_write.
Qed.

(** The handling of the common line types returns and does the same on
    every response, whatever the line. *)
Lemma processCommonLineTypes_returns line :
  exists handled,
    plays (processCommonLineTypes line) (Normal handled)
      (writesOf (processCommonLineTypes line)).
Proof.
  assert (H : exists handled ws,
                plays (processCommonLineTypes line) (Normal handled) ws).
  { unfold processCommonLineTypes.
    destruct (startsWith line (js "intermediate_data: ")).
    { destruct (processIntermediateData_returns line) as (ws & Hws).
      exists true, ws. apply returns_then, Hws. }
    destruct (startsWith line (js "observability_trace: ")).
    { destruct (processObservabilityTrace_returns line) as (ws & Hws).
      exists true, ws. apply returns_then, Hws. }
    destruct (startsWith (trim line) (js "{")).
    - destruct (steady_write (trim line)) as ([[]|e] & ws & Hws).
      + exists true, ws. apply returns_then, Hws.
      + exfalso. specialize (Hws begun live_begun).
        rewrite write_live in Hws by apply live_begun. discriminate Hws.
    - exists false, []. intros r _. cbn. now rewrite emit_nil. }
  destruct H as (handled & ws & Hplays). exists handled.
  rewrite (plays_writesOf Hplays). exact Hplays.
Qed.

(** What the generate-stream processor does with one line. *)
Lemma generateStreamLine_run (line : jstring) (r : Response) :
  live r ->
  generateStreamLine line r
  = if endsStream line then (Normal Return, emit [EvEnd] r)
    else (Normal Continue, emit (map EvWrite (generateLineWrites line)) r).
Proof.
  intros Hlive. unfold endsStream, generateLineWrites.
  destruct (isDataLine line) eqn:Hdata; cbn [andb].
  - rewrite generateStreamLine_data by assumption.
    destruct (isDoneLine line); [reflexivity|].
    destruct (carriesText (payloadOf line)); [reflexivity|].
    cbn [map]. now rewrite emit_nil.
  - unfold generateStreamLine. unfold isDataLine in Hdata. rewrite Hdata.
    unfold bind.
    destruct (processCommonLineTypes_returns line) as (handled & Hplays).
    rewrite (Hplays r Hlive). reflexivity.
Qed.

(** What it does with the lines of a stream. *)
Lemma forOf_generate_lines (lines : list jstring) :
  forall r : Response,
    live r ->
    forOf generateStreamLine lines r
    = (Normal (if existsb endsStream lines then Return else Continue),
       emit (map EvWrite (flat_map generateLineWrites (untilDone lines))
             ++ (if existsb endsStream lines then [EvEnd] else [])) r).
Proof.
  induction lines as [|l rest IH]; intros r Hlive.
  - cbn. rewrite emit_nil. reflexivity.
  - cbn [forOf]. unfold bind at 1.
    rewrite generateStreamLine_run by assumption.
    cbn [existsb untilDone].
    destruct (endsStream l) eqn:Hends; [reflexivity|].
    cbn [orb flat_map]. rewrite IH by (apply live_after, Hlive).
    rewrite emit_emit, map_app, app_assoc. reflexivity.
Qed.

End CommonLines.

Section TailFacts.

(** A data line that no newline ends is not written. *)
Lemma data_tail_is_dropped (buffer : jstring) :
  isDataLine buffer = true -> startsWith (trim buffer) (js "{") = false.
Proof.
  unfold isDataLine. intros Hdata.
  destruct buffer as [|c rest]; [discriminate Hdata|].
  change (js "data: ") with (N_of_ascii "d" :: js "ata: ") in Hdata.
  cbn [startsWith] in Hdata. apply andb_prop in Hdata.
  destruct Hdata as [Hc _]. apply N.eqb_eq in Hc. subst c.
  unfold trim. cbn [trimStart].
  change (isWhiteSpace (N_of_ascii "d")) with false. cbv iota.
  cbn [trimEnd].
  destruct (trimEnd rest); reflexivity.
Qed.

End TailFacts.

(** C6, as the code has it. On a successful stream of the generate-stream
    route the client receives the status 200, what the lines that come
    before the first data line with the DONE sentinel give, in their
    order, what the text after the last newline gives when no line ended
    the stream, and the end, however the stream is cut into chunks. A data
    line gives its payload, the text after the [data: ] prefix, trimmed,
    when that is JSON with a [value] that is a string and not empty: the
    payload, not the extracted value and not the line with its prefix. A
    data line whose JSON has no such [value] and a data line that is not
    JSON give nothing. A line that is no data line is handled as a common
    line and does not end the stream. The text after the last newline is
    written, trimmed, only when it begins with a brace: a data line that
    no newline ends gives nothing. *)
Theorem C6_generate_stream_forwards_payloads :
  forall (CORS_ORIGIN : jstring) (b : BackendResponse) (chunks : list jstring),
    ok b = true ->
    body b = Some chunks ->
    (forall (line : jstring) (r : Response),
        isDataLine line = true -> isDoneLine line = false -> live r ->
        ResponseProcessors.generateStreamLine line r
        = (Normal Continue,
           if carriesText (payloadOf line)
           then emit [EvWrite (payloadOf line)] r
           else r))
    /\ (forall (line : jstring) (r : Response),
          isDataLine line = false -> live r ->
          exists handled,
            ResponseProcessors.processCommonLineTypes line r
            = (Normal handled, emit (map EvWrite (generateLineWrites line)) r)
            /\ ResponseProcessors.generateStreamLine line r
               = (Normal Continue,
                  emit (map EvWrite (generateLineWrites line)) r))
    /\ ResponseProcessors.processGenerateStream CORS_ORIGIN b freshResponse
       = (Normal tt,
          {| pending := [];
             sent := EvHead 200 (ResponseProcessors.streamHeaders CORS_ORIGIN)
                       :: map EvWrite (generateWrites (List.concat chunks))
                       ++ [EvEnd] |})
    /\ (isDataLine (restOf (List.concat chunks)) = true ->
        tailWrites (List.concat chunks) = []).
Proof.
  intros cors b chunks Hok Hbody. split; [|split; [|split]].
  - intros line r Hdata Hdone Hlive.
    rewrite generateStreamLine_data, Hdone by assumption. reflexivity.
  - intros line r Hdata Hlive.
    destruct (processCommonLineTypes_returns line) as (handled & Hplays).
    exists handled. unfold generateLineWrites. rewrite Hdata. split.
    + apply Hplays, Hlive.
    + unfold ResponseProcessors.generateStreamLine.
      unfold isDataLine in Hdata. rewrite Hdata. unfold bind.
      rewrite (Hplays r Hlive). reflexivity.
  - unfold ResponseProcessors.processGenerateStream.
    rewrite (processStream_text cors _ b freshResponse Hok Hbody).
    unfold bind at 1. rewrite writeHead_fresh.
    set (r1 := {| pending := [];
                  sent := [EvHead 200 (ResponseProcessors.streamHeaders cors)] |}).
    assert (Hlive : live r1) by (split; reflexivity).
    unfold finally, tryCatch, handleText, bind at 1.
    rewrite forOf_generate_lines by assumption.
    unfold generateWrites, tailWrites.
    set (ws := flat_map generateLineWrites
                 (untilDone (linesOf (List.concat chunks)))).
    destruct (existsb endsStream (linesOf (List.concat chunks))).
    + unfold ret at 1. rewrite end_again.
      * rewrite app_nil_r. reflexivity.
      * unfold writableEnded. simpl.
        rewrite existsb_app. simpl. apply orb_true_r.
    + unfold ResponseProcessors.processRemainingBuffer.
      rewrite app_nil_r.
      assert (Hws : live (emit (map EvWrite ws) r1))
        by (apply live_emit; [assumption | apply existsb_isEnd_writes]).
      destruct (startsWith (trim (restOf (List.concat chunks))) (js "{"))
        eqn:Hbrace.
      * rewrite write_live by assumption.
        destruct (trim (restOf (List.concat chunks))) as [|c rest] eqn:Hrest;
          [discriminate Hbrace|].
        cbn [chunkEvents]. rewrite emit_emit, end_live.
        -- rewrite emit_emit, map_app. cbn [map]. rewrite <- !app_assoc.
           reflexivity.
        -- apply live_emit; [assumption|].
           rewrite existsb_app, existsb_isEnd_writes. reflexivity.
      * unfold ret at 1. rewrite end_live by assumption.
        rewrite emit_emit, app_nil_r. reflexivity.
  - intros Hdata. unfold tailWrites.
    rewrite (data_tail_is_dropped _ Hdata).
    destruct (existsb endsStream (linesOf (List.concat chunks))); reflexivity.
Qed.

Lemma C6_witness :
  ResponseProcessors.processGenerateStream (js "http://localhost:3000")
    {| status := 200; backendHeaders := [];
       body := Some [jsq "data: {'value':'x'} " ++ [newline] ++ [newline]
                       ++ jsq " {'note':1} " ++ [newline] ++ jsq "data: {'val";
                     jsq "ue':''}" ++ [newline] ++ jsq "data: {'other':1}" ++ [newline];
                     js "data: oops" ++ [newline] ++ jsq "data: {'value':'y'}"
                       ++ [newline] ++ js "data: [DONE]" ++ [newline]
                       ++ jsq "data: {'value':'z'}" ++ [newline]] |}
    freshResponse
  = (Normal tt,
     {| pending := [];
        sent := [EvHead 200
                   (ResponseProcessors.streamHeaders (js "http://localhost:3000"));
                 EvWrite (jsq "{'value':'x'}");
                 EvWrite (jsq "{'note':1}");
                 EvWrite (jsq "{'value':'y'}");
                 EvEnd] |}).
Proof.
  refine (eq_trans
            (proj1 (proj2 (proj2 (@C6_generate_stream_forwards_payloads
               (js "http://localhost:3000")
               {| status := 200; backendHeaders := []; body := Some _ |} _
               eq_refl eq_refl))))
            _).
  vm_compute. reflexivity.
Defined.

(** C6 as stated fails. A data line whose JSON has a string-typed [value]
    that is empty is not forwarded; for a line that is forwarded the
    client receives the payload, not the entire original line; and a data
    line with a string-typed [value] is not forwarded when it comes after
    the DONE sentinel or when no newline ends it. *)
Lemma C6_payload_not_line :
  let origin := js "http://localhost:3000" in
  let stream (text : jstring) :=
    {| status := 200; backendHeaders := []; body := Some [text] |} in
  let received (text : jstring) :=
    bodyOf (snd (ResponseProcessors.processGenerateStream origin
                   (stream text) freshResponse)) in
  (exists parsed,
      JSON_parse (payloadOf (jsq "data: {'value':''}")) = Some parsed
      /\ isString (optGetLit parsed "value") = true)
  /\ received (jsq "data: {'value':''}" ++ [newline]) = []
  /\ received (jsq "data: {'value':'x'}" ++ [newline]) = jsq "{'value':'x'}"
  /\ jsq "{'value':'x'}" <> jsq "data: {'value':'x'}"
  /\ received (js "data: [DONE]" ++ [newline]
               ++ jsq "data: {'value':'x'}" ++ [newline]) = []
  /\ received (jsq "data: {'value':'x'}") = [].
Proof.
  intros origin stream received. subst received stream origin.
  split; [eexists; split; vm_compute; reflexivity|].
  split; [vm_compute; reflexivity|].
  split; [vm_compute; reflexivity|].
  split; [vm_compute; discriminate|].
  split; vm_compute; reflexivity.
Qed.

(* ===================================================================== *)
(** * Properties of the gateway server *)
(* ===================================================================== *)

Section ActionFacts.

Import Server.

Context {Backend : Type}.
Variable answer : Backend -> FetchCall -> FetchResult * Backend.
Variable P : action -> Prop.

Lemma appends_ret {A} (a : A) : appends P (ret (S := World Backend) a).
Proof. intros w. exists []. simpl. rewrite app_nil_r. auto. Qed.

Lemma appends_throw {A} (e : exn) :
  appends P (throw (S := World Backend) (A := A) e).
Proof. intros w. exists []. simpl. rewrite app_nil_r. auto. Qed.

Lemma appends_bind {A B} (m : Eff (World Backend) A)
    (k : A -> Eff (World Backend) B) :
  appends P m -> (forall a, appends P (k a)) -> appends P (bind m k).
Proof.
  intros Hm Hk w. unfold bind. destruct (Hm w) as (es1 & H1 & HP1).
  destruct (m w) as [[a|e] w1]; simpl in *.
  - destruct (Hk a w1) as (es2 & H2 & HP2). exists (es1 ++ es2).
    rewrite H2, H1, app_assoc. split; [reflexivity|].
    apply Forall_app; auto.
  - exists es1. auto.
Qed.

Lemma appends_tryCatch {A} (m : Eff (World Backend) A)
    (h : exn -> Eff (World Backend) A) :
  appends P m -> (forall e, appends P (h e)) -> appends P (tryCatch m h).
Proof.
  intros Hm Hh w. unfold tryCatch. destruct (Hm w) as (es1 & H1 & HP1).
  destruct (m w) as [[a|e] w1]; simpl in *.
  - exists es1. auto.
  - destruct (Hh e w1) as (es2 & H2 & HP2). exists (es1 ++ es2).
    rewrite H2, H1, app_assoc. split; [reflexivity|].
    apply Forall_app; auto.
Qed.

Lemma appends_onResponse {A} (m : Eff Response A) :
  appends P (onResponse (Backend := Backend) m).
Proof.
  intros w. exists []. unfold onResponse.
  destruct (m (response w)) as [o r]. simpl. rewrite app_nil_r. auto.
Qed.

Lemma appends_act (a : action) : P a -> appends P (act (Backend := Backend) a).
Proof. intros Ha w. exists [a]. simpl. auto. Qed.

Lemma appends_fetch (c : FetchCall) :
  (forall r, P (Fetched c r)) -> appends P (fetch answer c).
Proof.
  intros Hc w. unfold fetch.
  destruct (answer (backend w) c) as [r b] eqn:Hans.
  exists [Fetched c r]. destruct r; simpl; auto.
Qed.

Lemma appends_has (key : jstring) : appends P (has (Backend := Backend) key).
Proof. intros w. exists []. simpl. rewrite app_nil_r. auto. Qed.

Lemma appends_add (key : jstring) : appends P (add (Backend := Backend) key).
Proof. intros w. exists []. simpl. rewrite app_nil_r. auto. Qed.

Lemma appends_headersSentNow : appends P (headersSentNow (Backend := Backend)).
Proof. intros w. exists []. simpl. rewrite app_nil_r. auto. Qed.

End ActionFacts.

Create HintDb gateway.

#[local] Hint Resolve appends_ret appends_throw appends_onResponse
  appends_has appends_add appends_headersSentNow : gateway.

Section ListenerFacts.

Import Server.

Context {Backend : Type}.
Variable answer : Backend -> FetchCall -> FetchResult * Backend.
Variable cfg : Config.

Let forwards (a : action) : Prop := isForwarding a = true.

(** The helpers behind the enhanced routes only hand the request on. *)
Lemma doFetchAndProcess_appends req targetUrl processor :
  appends forwards (doFetchAndProcess answer req targetUrl processor).
Proof.
  unfold doFetchAndProcess. apply appends_tryCatch.
  - apply appends_bind; [apply appends_fetch; reflexivity|].
    auto with gateway.
  - intros e. apply appends_bind; [auto with gateway|]. intros s.
    apply appends_bind; [destruct (negb s); auto with gateway|].
    auto with gateway.
Qed.

Lemma doCaRagWithInit_appends req targetUrl :
  appends forwards (doCaRagWithInit answer cfg req targetUrl).
Proof.
  unfold doCaRagWithInit. apply appends_tryCatch.
  - apply appends_bind; [auto with gateway|]. intros known.
    apply appends_bind.
    + destruct (negb known); [|auto with gateway].
      apply appends_bind; [apply appends_fetch; reflexivity|].
      intros initRes. destruct (negb (ok initRes)).
      * apply appends_bind; [auto with gateway|]. intros s.
        apply appends_bind; [destruct (negb s); auto with gateway|].
        intros _. apply appends_bind; auto with gateway.
      * apply appends_bind; auto with gateway.
    + intros [|]; [apply doFetchAndProcess_appends | auto with gateway].
  - intros e. apply appends_bind; [auto with gateway|]. intros s.
    apply appends_bind; [destruct (negb s); auto with gateway|].
    auto with gateway.
Qed.

End ListenerFacts.

Section RequestFacts.

Import Server.

Context {Backend : Type}.
Variable answer : Backend -> FetchCall -> FetchResult * Backend.
Variable cfg : Config.

Lemma dispatch_appends req :
  appends (fun a => isForwarding a = true) (dispatch answer cfg req).
Proof.
  unfold dispatch.
  repeat match goal with
         | |- appends _ (if ?c then _ else _) => destruct c
         end;
    try apply doFetchAndProcess_appends;
    try apply doCaRagWithInit_appends.
  destruct (constants.EXTENDED_BACKEND_TARGETS (backendPathOf cfg req))
    as [[|]|]; apply appends_act; reflexivity.
Qed.

(** The three ways of a request under the API-proxy prefix: answered as a
    preflight, refused, or validated and handed on. *)
Lemma handle_under_prefix (st : ServerState Backend) (req : Request) :
  startsWith (pathname req) (HTTP_PROXY_PATH cfg ++ js "/") = true ->
  let v := validateProxyHttpPath cfg (pathname req) in
  (jstr_eqb (method req) constants.HTTP_METHOD_OPTIONS = true
   /\ actions (fst (handle answer cfg st req)) = [])
  \/ (jstr_eqb (method req) constants.HTTP_METHOD_OPTIONS = false
      /\ isValid v = false
      /\ handle answer cfg st req
         = ({| result := Normal tt;
               reply := {| pending := [];
                           sent := [EvHead 403 ResponseProcessors.jsonContentType;
                                    EvWrite (forbiddenBody (error v));
                                    EvEnd] |};
               actions := [Validated HttpPath (pathname req) v] |},
            st))
  \/ (jstr_eqb (method req) constants.HTTP_METHOD_OPTIONS = false
      /\ isValid v = true
      /\ exists es,
           actions (fst (handle answer cfg st req))
           = Validated HttpPath (pathname req) v :: es
           /\ Forall (fun a => isForwarding a = true) es).
Proof.
  intros Hprefix v. unfold handle, runListener, requestListener.
  rewrite Hprefix.
  destruct (jstr_eqb (method req) constants.HTTP_METHOD_OPTIONS) eqn:Hm.
  - left. split; reflexivity.
  - right. fold v. destruct (isValid v) eqn:Hv; cbn [negb].
    + right. split; [reflexivity|]. split; [reflexivity|].
      unfold bind. cbn [act].
      match goal with
      | |- context [dispatch answer cfg req ?w] =>
          destruct (dispatch_appends req w) as (es & Hout & Hes);
          destruct (dispatch answer cfg req w) as [o w'] eqn:Hd
      end.
      simpl in Hout. exists es. split; [exact Hout | exact Hes].
    + left. split; [reflexivity|]. split; [reflexivity|].
      destruct st as [ini bs]. vm_compute. reflexivity.
Qed.

End RequestFacts.

(** C2. A request under the API-proxy prefix that is not a preflight has
    its path validated first. When the validation of a request returns
    invalid, the client receives the status 403, once, the listener does
    nothing else (no fetch, no proxy), and the state of the server is as
    before; whatever is handed on comes after a validation that returned
    valid, so a request whose path the validator rejects is never handed
    on. An upgrade on the WebSocket-proxy path has its path validated
    first; when that validation returns invalid the listener writes the
    raw 403 on the socket, destroys it and does nothing else, so the
    upgrade is not relayed and the state of the server is as before; an
    upgrade that is relayed was validated before. *)
Theorem C2_invalid_path_is_refused :
  forall (Backend : Type)
         (answer : Backend -> Server.FetchCall -> Server.FetchResult * Backend)
         (cfg : Server.Config) (st : Server.ServerState Backend)
         (req : Server.Request),
    (startsWith (Server.pathname req) (Server.HTTP_PROXY_PATH cfg ++ js "/")
     = true ->
     let run := Server.handle answer cfg st req in
     let done := Server.actions (fst run) in
     (jstr_eqb (Server.method req) constants.HTTP_METHOD_OPTIONS = false ->
      exists rest,
        done = Server.Validated Server.HttpPath (Server.pathname req)
                 (Server.validateProxyHttpPath cfg (Server.pathname req))
               :: rest)
     /\ (forall path v,
            In (Server.Validated Server.HttpPath path v) done ->
            Server.isValid v = false ->
            Server.result (fst run) = Normal tt
            /\ statusOf (Server.reply (fst run)) = Some 403%Z
            /\ terminations (Server.reply (fst run)) = 1
            /\ done = [Server.Validated Server.HttpPath path v]
            /\ snd run = st)
     /\ (forall pre a post,
            done = pre ++ a :: post ->
            isForwarding a = true ->
            exists v,
              In (Server.Validated Server.HttpPath (Server.pathname req) v) pre
              /\ Server.isValid v = true)
     /\ (Server.isValid
           (Server.validateProxyHttpPath cfg (Server.pathname req)) = false ->
         Forall (fun a => isForwarding a = false) done))
    /\ (onWebSocketPath cfg req = true ->
        let run := Server.upgrade cfg st req in
        let done := Server.actions (fst run) in
        let v := Server.validateProxyWebSocketPath cfg (Server.pathname req) in
        (exists rest,
            done = Server.Validated Server.WebSocketPath (Server.pathname req) v
                   :: rest)
        /\ (Server.isValid v = false ->
            Server.result (fst run) = Normal tt
            /\ done = [Server.Validated Server.WebSocketPath
                         (Server.pathname req) v;
                       Server.SocketWrite rawForbidden;
                       Server.SocketDestroy]
            /\ Forall (fun a => isForwarding a = false) done
            /\ snd run = st)
        /\ (forall path v',
               In (Server.Validated Server.WebSocketPath path v') done ->
               Server.isValid v' = false ->
               done = [Server.Validated Server.WebSocketPath path v';
                       Server.SocketWrite rawForbidden;
                       Server.SocketDestroy]
               /\ snd run = st)
        /\ (forall pre a post,
               done = pre ++ a :: post ->
               isForwarding a = true ->
               exists v',
                 In (Server.Validated Server.WebSocketPath
                       (Server.pathname req) v') pre
                 /\ Server.isValid v' = true)).
Proof.
  intros Backend answer cfg st req. split.
  - intros Hprefix run done.
    destruct (handle_under_prefix answer cfg st req Hprefix)
      as [[Hm Hnone] | [(Hm & Hv & Hrun) | (Hm & Hv & es & Hacts & Hes)]];
      subst done run.
    + rewrite Hnone. split; [congruence|]. split; [intros path v []|].
      split; [|constructor].
      intros [|? ?] ? ? Heq; discriminate Heq.
    + rewrite Hrun. cbn [fst snd Server.actions Server.result Server.reply].
      split; [intros _; eexists; reflexivity|]. split; [|split].
      * intros path v [Heq|[]] Hinv. inversion Heq; subst.
        repeat split.
      * intros [|p [|q pre]] ? ? Heq; inversion Heq; subst.
        discriminate.
      * intros _. repeat constructor.
    + rewrite Hacts.
      split; [intros _; eexists; reflexivity|]. split; [|split].
      * intros path v [Heq|Hin] Hinv.
        -- inversion Heq; subst. congruence.
        -- rewrite Forall_forall in Hes. specialize (Hes _ Hin).
           discriminate.
      * intros [|p pre] ? ? Heq; inversion Heq; subst.
        -- discriminate.
        -- intros _. eexists. split; [left; reflexivity | exact Hv].
      * congruence.
  - intros Hws run done v. subst done run v.
    unfold Server.upgrade, Server.runListener, Server.upgradeListener.
    unfold onWebSocketPath in Hws. rewrite Hws.
    destruct (Server.isValid
                (Server.validateProxyWebSocketPath cfg (Server.pathname req)))
      eqn:Hv; cbn [negb]; destruct st as [ini bs]; cbn.
    + split; [eexists; reflexivity|]. split; [discriminate|]. split.
      * intros path v [Heq|[Heq|[]]] Hinv; inversion Heq; subst. congruence.
      * intros [|p [|q pre]] ? ? Heq; inversion Heq; subst.
        -- discriminate.
        -- intros _. eexists. split; [left; reflexivity | exact Hv].
        -- destruct pre; discriminate.
    + split; [eexists; reflexivity|]. split; [|split].
      * intros _. repeat split. repeat constructor.
      * intros path v [Heq|[Heq|[Heq|[]]]] Hinv; inversion Heq; subst.
        split; reflexivity.
      * intros [|p [|q [|q2 pre]]] ? ? Heq; inversion Heq; subst;
          try discriminate.
        destruct pre; discriminate.
Qed.

Lemma C2_witness :
  let run := Server.handle (Deployment.answer 0) Deployment.cfg Deployment.start
               (Deployment.post "/api/../etc/passwd" [] "") in
  let up := Server.upgrade (Deployment.config "/ws/../admin") Deployment.start
              {| Server.method := js "GET";
                 Server.pathname := js "/ws/../admin";
                 Server.search := None;
                 Server.reqHeaders := [];
                 Server.reqBody := [] |} in
  (statusOf (Server.reply (fst run)) = Some 403%Z
   /\ Server.actions (fst run)
      = [Server.Validated Server.HttpPath (js "/api/../etc/passwd")
           {| Server.isValid := false; Server.error := js "Path not allowed" |}])
  /\ Server.actions (fst up)
     = [Server.Validated Server.WebSocketPath (js "/ws/../admin")
          {| Server.isValid := false; Server.error := js "Path not allowed" |};
        Server.SocketWrite rawForbidden;
        Server.SocketDestroy].
Proof.
  intros run up. split.
  - pose proof (proj1 (proj2 (proj1
        (@C2_invalid_path_is_refused nat (Deployment.answer 0) Deployment.cfg
           Deployment.start (Deployment.post "/api/../etc/passwd" [] ""))
        eq_refl))
      (js "/api/../etc/passwd")
      {| Server.isValid := false; Server.error := js "Path not allowed" |}
      (or_introl eq_refl) eq_refl) as (_ & Hst & _ & Hacts & _).
    split; [exact Hst | exact Hacts].
  - exact (proj1 (proj2 (proj1 (proj2 (proj2
        (@C2_invalid_path_is_refused nat (Deployment.answer 0)
           (Deployment.config "/ws/../admin") Deployment.start
           {| Server.method := js "GET";
              Server.pathname := js "/ws/../admin";
              Server.search := None;
              Server.reqHeaders := [];
              Server.reqBody := [] |})
        eq_refl)) eq_refl))).
Defined.

Section CaRagFacts.

Import Server.

Context {Backend : Type}.
Variable answer : Backend -> FetchCall -> FetchResult * Backend.
Variable cfg : Config.

(** The [catch] blocks of the two helpers end normally and touch the
    response only. *)
Lemma gatewayError_run (st : Z) (data : option jstring) (w : World Backend) :
  exists rp,
    bind (@headersSentNow Backend) (fun sent =>
      bind (if negb sent then onResponse (res.writeHead st jsonContentType)
            else ret tt)
        (fun _ => onResponse (res.end_ data))) w
    = (Normal tt, withResponse w rp).
Proof.
  unfold bind, headersSentNow, onResponse, res.writeHead.
  destruct (headersSent (response w)) eqn:Hs; cbn [negb].
  - unfold ret. destruct (res.end_ data (response w)) as [[[]|e] r] eqn:He.
    + eexists; reflexivity.
    + unfold res.end_ in He. destruct (writableEnded (response w)); discriminate.
  - rewrite Hs. cbn [response].
    match goal with
    | |- context [res.end_ data ?r] =>
        destruct (res.end_ data r) as [[[]|e] r'] eqn:He
    end.
    + eexists; reflexivity.
    + unfold res.end_ in He.
      match type of He with
      | (if ?c then _ else _) = _ => destruct c; discriminate
      end.
Qed.

(** The forwarding helper ends normally, with one call of [fetch]. *)
Lemma doFetchAndProcess_run req targetUrl processor (w : World Backend) :
  exists rp,
    doFetchAndProcess answer req targetUrl processor w
    = (Normal tt,
       {| response := rp;
          initializedCaRagConversations := initializedCaRagConversations w;
          out := out w ++ [Fetched (forwardCall req targetUrl)
                             (fst (answer (backend w) (forwardCall req targetUrl)))];
          backend := snd (answer (backend w) (forwardCall req targetUrl)) |}).
Proof.
  unfold doFetchAndProcess, tryCatch, bind at 1, fetch.
  destruct (answer (backend w) (forwardCall req targetUrl)) as [[br|m] b].
  - unfold onResponse at 1. cbn [response].
    destruct (processor br (response w)) as [[[]|e] r1].
    + eexists. reflexivity.
    + match goal with
      | |- context [bind (@headersSentNow Backend) ?k ?w1] =>
          destruct (gatewayError_run 502
                      (jsonBody [(js "error", JStr (js "Bad Gateway"));
                                 (js "message", JStr (message e))]) w1)
            as (rp & Hrun)
      end.
      rewrite Hrun. eexists. reflexivity.
  - match goal with
      | |- context [bind (@headersSentNow Backend) ?k ?w1] =>
          destruct (gatewayError_run 502
                      (jsonBody [(js "error", JStr (js "Bad Gateway"));
                                 (js "message", JStr (message (FetchFailed m)))]) w1)
            as (rp & Hrun)
      end.
      rewrite Hrun. eexists. reflexivity.
Qed.

Lemma handle_caRag (st : ServerState Backend) (req : Request) :
  reachesCaRag cfg req ->
  handle answer cfg st req
  = settle (doCaRagWithInit answer cfg req (targetUrlOf cfg req)
              {| response := freshResponse;
                 initializedCaRagConversations := initialized st;
                 out := [validationOf cfg req];
                 backend := backendState st |}).
Proof.
  intros (Hprefix & Hm & Hv & Hpath).
  unfold handle, runListener, requestListener. rewrite Hprefix, Hm.
  unfold bind at 1. cbn [act arrive]. rewrite Hv. cbn [negb].
  unfold dispatch. rewrite Hpath. reflexivity.
Qed.

Lemma caRag_failed_init (req : Request) ini acts b initRes b' :
  includes ini (initKeyOf cfg req) = false ->
  answer b (initCall cfg) = (Answered initRes, b') ->
  ok initRes = false ->
  doCaRagWithInit answer cfg req (targetUrlOf cfg req)
    {| response := freshResponse; initializedCaRagConversations := ini;
       out := acts; backend := b |}
  = (Normal tt,
     {| response := {| pending := [];
                       sent := [EvHead (status initRes) jsonContentType;
                                EvWrite (initFailureBody (text initRes));
                                EvEnd] |};
        initializedCaRagConversations := ini;
        out := acts ++ [Fetched (initCall cfg) (Answered initRes)];
        backend := b' |}).
Proof.
  intros Hkey Hans Hok.
  unfold doCaRagWithInit, tryCatch, bind at 1, has.
  cbn [initializedCaRagConversations]. rewrite Hkey. cbn [negb].
  unfold bind at 1 2, fetch. cbn [backend]. rewrite Hans, Hok. cbn [negb].
  reflexivity.
Qed.

Lemma caRag_rejected_init (req : Request) ini acts b m b' :
  includes ini (initKeyOf cfg req) = false ->
  answer b (initCall cfg) = (Rejected m, b') ->
  exists rp,
  doCaRagWithInit answer cfg req (targetUrlOf cfg req)
    {| response := freshResponse; initializedCaRagConversations := ini;
       out := acts; backend := b |}
  = (Normal tt,
     {| response := rp;
        initializedCaRagConversations := ini;
        out := acts ++ [Fetched (initCall cfg) (Rejected m)];
        backend := b' |}).
Proof.
  intros Hkey Hans.
  unfold doCaRagWithInit, tryCatch, bind at 1, has.
  cbn [initializedCaRagConversations]. rewrite Hkey. cbn [negb].
  unfold bind at 1 2, fetch. cbn [backend]. rewrite Hans.
  eexists. reflexivity.
Qed.

Lemma caRag_known (req : Request) ini acts b :
  includes ini (initKeyOf cfg req) = true ->
  exists rp,
  doCaRagWithInit answer cfg req (targetUrlOf cfg req)
    {| response := freshResponse; initializedCaRagConversations := ini;
       out := acts; backend := b |}
  = (Normal tt,
     {| response := rp;
        initializedCaRagConversations := ini;
        out := acts ++ [Fetched (forwardOf cfg req)
                          (fst (answer b (forwardOf cfg req)))];
        backend := snd (answer b (forwardOf cfg req)) |}).
Proof.
  intros Hkey.
  unfold doCaRagWithInit, tryCatch, bind at 1, has.
  cbn [initializedCaRagConversations]. rewrite Hkey. cbn [negb].
  unfold bind at 1, ret at 1.
  match goal with
  | |- context [doFetchAndProcess answer req ?t ?p ?w] =>
      destruct (doFetchAndProcess_run req t p w) as (rp & Hrun)
  end.
  rewrite Hrun. eexists. reflexivity.
Qed.

Lemma caRag_init_ok (req : Request) ini acts b initRes b' :
  includes ini (initKeyOf cfg req) = false ->
  answer b (initCall cfg) = (Answered initRes, b') ->
  ok initRes = true ->
  exists rp,
  doCaRagWithInit answer cfg req (targetUrlOf cfg req)
    {| response := freshResponse; initializedCaRagConversations := ini;
       out := acts; backend := b |}
  = (Normal tt,
     {| response := rp;
        initializedCaRagConversations := ini ++ [initKeyOf cfg req];
        out := acts ++ [Fetched (initCall cfg) (Answered initRes);
                        Fetched (forwardOf cfg req)
                          (fst (answer b' (forwardOf cfg req)))];
        backend := snd (answer b' (forwardOf cfg req)) |}).
Proof.
  intros Hkey Hans Hok.
  unfold doCaRagWithInit, tryCatch, bind at 1, has.
  cbn [initializedCaRagConversations]. rewrite Hkey. cbn [negb].
  unfold bind at 1 2, fetch. cbn [backend]. rewrite Hans, Hok. cbn [negb].
  unfold bind at 1, add. cbn [initializedCaRagConversations]. rewrite Hkey.
  unfold ret at 1.
  match goal with
  | |- context [doFetchAndProcess answer req ?t ?p ?w] =>
      destruct (doFetchAndProcess_run req t p w) as (rp & Hrun)
  end.
  rewrite Hrun. cbn. rewrite <- app_assoc. eexists. reflexivity.
Qed.
End CaRagFacts.

Section SequenceFacts.
Import Server.
Context {Backend : Type}.
Variable answer : Backend -> FetchCall -> FetchResult * Backend.
Variable cfg : Config.

Lemma app_inv_prefix (p a b : jstring) : p ++ a = p ++ b -> a = b.
Proof. apply app_inv_head. Qed.

(** The call that forwards a request of the call route is no init call. *)
Lemma forward_is_no_init (req : Request) (r : FetchResult) :
  backendPathOf cfg req = constants.CHAT_CA_RAG ->
  isInitCall cfg (Fetched (forwardOf cfg req) r) = false.
Proof.
  intros Hpath. unfold isInitCall, forwardOf, forwardCall, targetUrlOf, initUrl.
  cbn [fetchUrl]. rewrite Hpath. apply jstr_eqb_neq. intros Heq.
  apply app_inv_head in Heq. discriminate Heq.
Qed.

Lemma isInitCall_init (r : FetchResult) :
  isInitCall cfg (Fetched (initCall cfg) r) = true.
Proof. unfold isInitCall, initCall. cbn [fetchUrl]. apply jstr_eqb_refl. Qed.

(** The ways of a request of the call route. *)
Lemma caRag_step (st : ServerState Backend) (req : Request) :
  reachesCaRag cfg req ->
  let run := handle answer cfg st req in
  let key := initKeyOf cfg req in
  (includes (initialized st) key = true
   /\ exists r, actions (fst run) = [validationOf cfg req; Fetched (forwardOf cfg req) r]
   /\ initialized (snd run) = initialized st)
  \/ (includes (initialized st) key = false
      /\ exists r, actions (fst run) = [validationOf cfg req; Fetched (initCall cfg) r]
      /\ initSucceeded cfg (Fetched (initCall cfg) r) = false
      /\ initialized (snd run) = initialized st)
  \/ (includes (initialized st) key = false
      /\ exists r r', actions (fst run)
                   = [validationOf cfg req; Fetched (initCall cfg) r;
                      Fetched (forwardOf cfg req) r']
      /\ initialized (snd run) = initialized st ++ [key]).
Proof.
  intros Hreach run key. subst run.
  rewrite (@handle_caRag _ answer cfg st req Hreach).
  destruct (includes (initialized st) key) eqn:Hkey.
  - left. split; [reflexivity|].
    destruct (@caRag_known _ answer cfg req (initialized st) [validationOf cfg req]
                (backendState st) Hkey) as (rp & Hrun).
    rewrite Hrun. eexists. split; reflexivity.
  - right.
    destruct (answer (backendState st) (initCall cfg)) as [[ir|m] b'] eqn:Hans.
    + destruct (ok ir) eqn:Hok.
      * right. split; [reflexivity|].
        destruct (@caRag_init_ok _ answer cfg req (initialized st)
                    [validationOf cfg req] (backendState st) _ _ Hkey Hans Hok)
          as (rp & Hrun).
        rewrite Hrun. eexists. eexists. split; reflexivity.
      * left. split; [reflexivity|].
        rewrite (@caRag_failed_init _ answer cfg req (initialized st)
                   [validationOf cfg req] (backendState st) _ _ Hkey Hans Hok).
        eexists. split; [reflexivity|]. split; [|reflexivity].
        unfold initSucceeded. rewrite Hok. apply andb_false_r.
    + left. split; [reflexivity|].
      destruct (@caRag_rejected_init _ answer cfg req (initialized st)
                  [validationOf cfg req] (backendState st) _ _ Hkey Hans)
        as (rp & Hrun).
      rewrite Hrun. eexists. split; [reflexivity|]. split; reflexivity.
Qed.


Lemma serve_cons (st : ServerState Backend) (req : Request) (rest : list Request) :
  serve answer cfg st (req :: rest)
  = (fst (handle answer cfg st req)
       :: fst (serve answer cfg (snd (handle answer cfg st req)) rest),
     snd (serve answer cfg (snd (handle answer cfg st req)) rest)).
Proof.
  change (serve answer cfg st (req :: rest))
    with (let '(h, st') := handle answer cfg st req in
          let '(hs, st'') := serve answer cfg st' rest in
          (h :: hs, st'')).
  destruct (handle answer cfg st req) as [h st']. cbn [fst snd].
  destruct (serve answer cfg st' rest) as [hs st'']. reflexivity.
Qed.

Lemma settled_without_init (tr : list action) :
  existsb (isInitCall cfg) tr = false -> settledTrace cfg tr = true.
Proof.
  induction tr as [|a tr IH]; simpl; [reflexivity|]. intros H.
  apply orb_false_elim in H. destruct H as [Ha Htr].
  rewrite Htr, IH by assumption. simpl. now rewrite orb_true_r.
Qed.

Lemma settled_spec (tr : list action) :
  settledTrace cfg tr = true ->
  forall pre a post,
    tr = pre ++ a :: post ->
    initSucceeded cfg a = true ->
    Forall (fun a' => isInitCall cfg a' = false) post.
Proof.
  intros Hs pre. revert tr Hs.
  induction pre as [|p pre IH]; intros tr Hs a post -> Ha; simpl in Hs;
    apply andb_prop in Hs; destruct Hs as [Hhead Htail].
  - rewrite Ha in Hhead. simpl in Hhead. apply negb_true_iff in Hhead.
    apply Forall_forall. intros x Hx.
    destruct (isInitCall cfg x) eqn:Hix; [|reflexivity].
    assert (existsb (isInitCall cfg) post = true)
      by (apply existsb_exists; eauto).
    congruence.
  - eapply IH; eauto.
Qed.

Lemma isInitCall_validation (req : Request) :
  isInitCall cfg (validationOf cfg req) = false.
Proof. reflexivity. Qed.

Lemma initSucceeded_validation (req : Request) :
  initSucceeded cfg (validationOf cfg req) = false.
Proof. reflexivity. Qed.

Lemma initSucceeded_forward (req : Request) (r : FetchResult) :
  backendPathOf cfg req = constants.CHAT_CA_RAG ->
  initSucceeded cfg (Fetched (forwardOf cfg req) r) = false.
Proof.
  intros Hpath. pose proof (@forward_is_no_init req r Hpath) as H.
  unfold isInitCall in H. unfold initSucceeded.
  destruct r; [rewrite H|]; reflexivity.
Qed.

Variable K : jstring.

Let shares (req : Request) : Prop :=
  reachesCaRag cfg req /\ initKeyOf cfg req = K.

(** Once the key is in the set, no request of the run makes an init
    call. *)
Lemma serve_known (reqs : list Request) :
  forall st : ServerState Backend,
    includes (initialized st) K = true ->
    Forall shares reqs ->
    existsb (isInitCall cfg) (traceOf (fst (serve answer cfg st reqs))) = false.
Proof.
  induction reqs as [|req rest IH]; intros st Hin Hall; [reflexivity|].
  inversion Hall as [|x l [Hreach Hkey] Hrest]. subst x l.
  rewrite serve_cons. cbn [fst traceOf flat_map]. fold (traceOf).
  rewrite existsb_app.
  destruct (@caRag_step st req Hreach)
    as [(_ & r & Hacts & Hini)
       | [(Hout & _) | (Hout & _)]]; try congruence.
  rewrite Hacts. cbn [existsb].
  rewrite isInitCall_validation,
    (@forward_is_no_init req r (proj2 (proj2 (proj2 Hreach)))).
  cbn [orb]. apply IH; [rewrite Hini; assumption | assumption].
Qed.

Lemma serve_settled (reqs : list Request) :
  forall st : ServerState Backend,
    Forall shares reqs ->
    settledTrace cfg (traceOf (fst (serve answer cfg st reqs))) = true.
Proof.
  induction reqs as [|req rest IH]; intros st Hall; [reflexivity|].
  inversion Hall as [|x l [Hreach Hkey] Hrest]. subst x l.
  rewrite serve_cons. cbn [fst traceOf flat_map]. fold (traceOf).
  pose proof (proj2 (proj2 (proj2 Hreach))) as Hpath.
  destruct (@caRag_step st req Hreach)
    as [(Hin & r & Hacts & Hini)
       | [(Hout & r & Hacts & Hfail & Hini)
         | (Hout & r & r' & Hacts & Hini)]];
    rewrite Hacts; cbn [app settledTrace existsb];
    rewrite ?initSucceeded_validation, ?initSucceeded_forward by assumption;
    cbn [negb orb andb].
  - apply settled_without_init, serve_known; [|assumption].
    rewrite Hini, <- Hkey. assumption.
  - rewrite Hfail. cbn [negb orb andb]. apply IH, Hrest.
  - assert (Hnone :
      existsb (isInitCall cfg)
        (traceOf (fst (serve answer cfg (snd (handle answer cfg st req)) rest)))
      = false).
    { apply serve_known; [|assumption]. rewrite Hini, Hkey.
      apply includes_In, in_or_app. right. now left. }
    unfold traceOf in Hnone.
    rewrite (@forward_is_no_init req r' Hpath), Hnone.
    cbn [negb orb andb]. rewrite orb_true_r. cbn [andb].
    apply settled_without_init, Hnone.
Qed.

End SequenceFacts.

(* ===================================================================== *)
(** * Requests of the call route handled side by side *)
(* ===================================================================== *)

Section ConcurrentFacts.

Import Server Concurrent.

Context {Backend : Type}.
Variable answer : Backend -> FetchCall -> FetchResult * Backend.
Variable cfg : Config.

Lemma arrives_run (req : Request) (w : World Backend) :
  caRagArrives cfg req w
  = (Normal (if includes (initializedCaRagConversations w) (initKeyOf cfg req)
             then AwaitsForward else AwaitsInit),
     {| response := response w;
        initializedCaRagConversations := initializedCaRagConversations w;
        out := out w ++ [validationOf cfg req];
        backend := backend w |}).
Proof.
  unfold caRagArrives, bind, act, tryCatch, has, ret.
  cbn [initializedCaRagConversations].
  destruct (includes (initializedCaRagConversations w) (initKeyOf cfg req));
    reflexivity.
Qed.

Lemma caRagCatch_run (e : exn) (w : World Backend) :
  exists rp, caRagCatch e w = (Normal Returned, withResponse w rp).
Proof.
  unfold caRagCatch.
  match goal with
  | |- context [res.end_ ?data] =>
      destruct (@gatewayError_run Backend 502 data w) as (rp & Hrun)
  end.
  exists rp. unfold bind in *.
  destruct (headersSentNow w) as [[sent|e'] w1]; [|discriminate Hrun].
  match type of Hrun with
  | (let '(_, _) := ?m in _) = _ => destruct m as [[[]|e'] w2]
  end; [|discriminate Hrun].
  match type of Hrun with
  | ?m = _ => destruct m as [[[]|e'] w3]
  end; inversion Hrun; subst; reflexivity.
Qed.

(** The settling of the init call: the key goes into the set when the call
    succeeded, and only then. *)
Lemma initSettles_run (req : Request) (w : World Backend) :
  exists rp,
    caRagInitSettles answer cfg req w
    = (Normal (match fst (answer (backend w) (initCall cfg)) with
               | Answered initRes =>
                   if ok initRes then AwaitsForward else Returned
               | Rejected _ => Returned
               end),
       {| response := rp;
          initializedCaRagConversations :=
            match fst (answer (backend w) (initCall cfg)) with
            | Answered initRes =>
                if ok initRes
                then if includes (initializedCaRagConversations w)
                          (initKeyOf cfg req)
                     then initializedCaRagConversations w
                     else initializedCaRagConversations w ++ [initKeyOf cfg req]
                else initializedCaRagConversations w
            | Rejected _ => initializedCaRagConversations w
            end;
          out := out w ++ [Fetched (initCall cfg)
                             (fst (answer (backend w) (initCall cfg)))];
          backend := snd (answer (backend w) (initCall cfg)) |}).
Proof.
  unfold caRagInitSettles, tryCatch, bind at 1, fetch.
  destruct (answer (backend w) (initCall cfg)) as [[ir|m] b'].
  - cbn [fst snd]. destruct (ok ir) eqn:Hok; cbn [negb].
    + unfold bind, add, ret. eexists. reflexivity.
    + match goal with
      | |- context [bind (@headersSentNow Backend) ?k ?w1] =>
          destruct (@gatewayError_run Backend (status ir)
                      (jsonBody
                         [(js "error", JStr (js "CA RAG initialization failed"));
                          (js "detail", JStr (text ir))]) w1) as (rp & Hrun)
      end.
      exists rp. unfold bind in *.
      match type of Hrun with
      | (let '(_, _) := ?m in _) = _ => destruct m as [[sent|e'] w1']
      end; [|discriminate Hrun].
      match type of Hrun with
      | (let '(_, _) := ?m in _) = _ => destruct m as [[[]|e'] w2]
      end; [|discriminate Hrun].
      match type of Hrun with
      | ?m = _ => destruct m as [[[]|e'] w3]
      end; inversion Hrun; subst; reflexivity.
  - cbn [fst snd].
    match goal with
    | |- context [caRagCatch ?e ?w1] =>
        destruct (caRagCatch_run e w1) as (rp & ->)
    end.
    eexists. reflexivity.
Qed.

Lemma forwards_run (req : Request) (w : World Backend) :
  exists rp,
    caRagForwards answer cfg req w
    = (Normal Returned,
       {| response := rp;
          initializedCaRagConversations := initializedCaRagConversations w;
          out := out w ++ [Fetched (forwardOf cfg req)
                             (fst (answer (backend w) (forwardOf cfg req)))];
          backend := snd (answer (backend w) (forwardOf cfg req)) |}).
Proof.
  unfold caRagForwards, tryCatch, bind.
  match goal with
  | |- context [doFetchAndProcess answer req ?t ?p ?w] =>
      destruct (@doFetchAndProcess_run _ answer req t p w) as (rp & ->)
  end.
  eexists. reflexivity.
Qed.

End ConcurrentFacts.

Section ProcessFacts.

Import Server Concurrent.

Context {Backend : Type}.
Variable answer : Backend -> FetchCall -> FetchResult * Backend.
Variable cfg : Config.

Lemma skipn_own {A} (l new : list A) : skipn (List.length l) (l ++ new) = new.
Proof. induction l as [|x l IH]; [reflexivity | exact IH]. Qed.

Lemma nth_error_setHandler_same (l : list Handler) :
  forall (i : nat) (t old : Handler),
    nth_error l i = Some old -> nth_error (setHandler i t l) i = Some t.
Proof.
  induction l as [|x l IH]; intros [|i] t old H; try discriminate H.
  - reflexivity.
  - cbn [setHandler nth_error]. eapply IH. exact H.
Qed.

Lemma nth_error_setHandler_other (l : list Handler) :
  forall (i j : nat) (t : Handler),
    i <> j -> nth_error (setHandler j t l) i = nth_error l i.
Proof.
  induction l as [|x l IH]; intros i j t Hne.
  - destruct j; reflexivity.
  - destruct j as [|j], i as [|i]; cbn [setHandler nth_error];
      try reflexivity; [congruence|].
    apply IH. congruence.
Qed.

Lemma includes_grows (s : list jstring) (k k' : jstring) :
  includes s k = true ->
  includes (if includes s k' then s else s ++ [k']) k = true.
Proof.
  intros H. destruct (includes s k'); [exact H|].
  apply includes_In. apply includes_In in H. apply in_or_app. now left.
Qed.

(** Whatever a handler does on its turn, it returns, it adds to what was
    done, and no key leaves the set. *)
Lemma resume_run (t : Handler) (w : World Backend) :
  exists s rp ini acts b,
    resume answer cfg t w
    = (Normal s,
       {| response := rp; initializedCaRagConversations := ini;
          out := out w ++ acts; backend := b |})
    /\ (forall k, includes (initializedCaRagConversations w) k = true ->
                  includes ini k = true).
Proof.
  unfold resume. destruct (standsAt t).
  - rewrite arrives_run. do 5 eexists. split; [reflexivity | auto].
  - destruct (initSettles_run answer cfg (request t) w) as (rp & ->).
    do 5 eexists. split; [reflexivity|]. intros k Hk.
    destruct (fst (answer (backend w) (initCall cfg))) as [ir|m]; [|exact Hk].
    destruct (ok ir); [apply includes_grows|]; exact Hk.
  - destruct (forwards_run answer cfg (request t) w) as (rp & ->).
    do 5 eexists. split; [reflexivity | auto].
  - exists Returned, (response w), (initializedCaRagConversations w), [],
      (backend w).
    split; [|auto]. rewrite app_nil_r. destruct w; reflexivity.
Qed.

(** A turn of a handler leaves the other handlers as they are and no key
    leaves the set. *)
Lemma turn_others (p : Process Backend) (j : nat) :
  (forall k, includes (initializedNow p) k = true ->
             includes (initializedNow (turn answer cfg p j)) k = true)
  /\ (forall i, i <> j ->
        nth_error (handlers (turn answer cfg p j)) i = nth_error (handlers p) i).
Proof.
  unfold turn. destruct (nth_error (handlers p) j) as [t|]; [|split; auto].
  match goal with
  | |- context [resume answer cfg t ?w] =>
      destruct (resume_run t w) as (s & rp & ini & acts & b & -> & Hkeeps)
  end.
  cbn [handlers initializedNow]. split.
  - exact Hkeeps.
  - intros i Hne. apply nth_error_setHandler_other, Hne.
Qed.

(** The turn of a handler that found the key, or finds it now. *)
Lemma turn_skipsInit (p : Process Backend) (i : nat) (t0 t : Handler) :
  nth_error (handlers p) i = Some t ->
  skipsInit cfg t0 t ->
  includes (initializedNow p) (initKeyOf cfg (request t0)) = true ->
  exists t',
    nth_error (handlers (turn answer cfg p i)) i = Some t'
    /\ skipsInit cfg t0 t'.
Proof.
  intros Hi (Hreq & Hshape) Hkey. unfold turn. rewrite Hi.
  destruct Hshape as [(Hst & Hlog) | [(Hst & Hlog) | (Hst & r & Hlog)]];
    unfold resume; rewrite Hst, Hreq.
  - rewrite arrives_run. cbn [initializedCaRagConversations out handlers].
    rewrite Hkey, skipn_own.
    eexists. split; [eapply nth_error_setHandler_same; exact Hi|].
    split; [reflexivity|]. right. left. cbn [standsAt log].
    split; [reflexivity | now rewrite Hlog].
  - match goal with
    | |- context [caRagForwards answer cfg ?req ?w] =>
        destruct (forwards_run answer cfg req w) as (rp & ->)
    end.
    cbn [out handlers]. rewrite skipn_own.
    eexists. split; [eapply nth_error_setHandler_same; exact Hi|].
    split; [reflexivity|]. right. right. cbn [standsAt log].
    split; [reflexivity|]. eexists. rewrite Hlog, <- app_assoc. reflexivity.
  - unfold ret. cbn [out handlers].
    rewrite skipn_all, app_nil_r.
    eexists. split; [eapply nth_error_setHandler_same; exact Hi|].
    split; [reflexivity|]. right. right. cbn [standsAt log].
    split; [reflexivity|]. exists r. exact Hlog.
Qed.

(** Once the key is in the set, a handler that has not begun never makes
    the init call, however the turns are taken. *)
Lemma run_skipsInit (schedule : list nat) :
  forall (p : Process Backend) (i : nat) (t0 t : Handler),
    nth_error (handlers p) i = Some t ->
    skipsInit cfg t0 t ->
    includes (initializedNow p) (initKeyOf cfg (request t0)) = true ->
    includes (initializedNow (run answer cfg schedule p))
      (initKeyOf cfg (request t0)) = true
    /\ exists t',
         nth_error (handlers (run answer cfg schedule p)) i = Some t'
         /\ skipsInit cfg t0 t'.
Proof.
  induction schedule as [|j rest IH]; intros p i t0 t Hi Hskips Hkey.
  - split; [exact Hkey | exists t; split; assumption].
  - cbn [run fold_left]. fold (run answer cfg rest (turn answer cfg p j)).
    destruct (turn_others p j) as [Hkeeps Hothers].
    destruct (Nat.eq_dec i j) as [<-|Hne].
    + destruct (@turn_skipsInit p i t0 t Hi Hskips Hkey) as (t' & Hi' & Hskips').
      eapply IH; [exact Hi' | exact Hskips' | apply Hkeeps, Hkey].
    + eapply IH; [rewrite Hothers by exact Hne; exact Hi | exact Hskips
                 | apply Hkeeps, Hkey].
Qed.

End ProcessFacts.

Section AloneFacts.

Import Server Concurrent.

Context {Backend : Type}.
Variable answer : Backend -> FetchCall -> FetchResult * Backend.
Variable cfg : Config.

(** The turn of the only handler of a process. *)
Lemma turn_alone (t : Handler) ini acts b s w :
  resume answer cfg t
    {| response := answerSoFar t; initializedCaRagConversations := ini;
       out := acts; backend := b |}
  = (Normal s, w) ->
  turn answer cfg
    {| handlers := [t]; initializedNow := ini; doneSoFar := acts;
       backendNow := b |} 0
  = {| handlers :=
         [{| request := request t;
             standsAt := s;
             answerSoFar := response w;
             log := log t ++ skipn (List.length acts) (out w) |}];
       initializedNow := initializedCaRagConversations w;
       doneSoFar := out w;
       backendNow := backend w |}.
Proof.
  intros Hrun. unfold turn.
  cbn [nth_error handlers initializedNow doneSoFar backendNow].
  rewrite Hrun. reflexivity.
Qed.

(** A request handled with no other under way is handled as the listener
    handles it in one go. *)
Lemma alone_is_handle (st : ServerState Backend) (req : Request) :
  reachesCaRag cfg req ->
  let p := run answer cfg [0; 0; 0]%nat (incoming st [req]) in
  exists t,
    handlers p = [t]
    /\ standsAt t = Returned
    /\ doneSoFar p = log t
    /\ handle answer cfg st req
       = ({| result := Normal tt; reply := answerSoFar t; actions := log t |},
          {| initialized := initializedNow p; backendState := backendNow p |}).
Proof.
  intros Hreach p. subst p.
  rewrite (@handle_caRag _ answer cfg st req Hreach).
  unfold run, incoming. cbn [fold_left map]. unfold newHandler.
  erewrite turn_alone by (cbn [resume standsAt request answerSoFar];
                         apply arrives_run).
  cbn [request log app List.length skipn response
       initializedCaRagConversations out backend].
  unfold doCaRagWithInit, tryCatch, bind at 1, has.
  cbn [initializedCaRagConversations].
  destruct (includes (initialized st) (initKeyOf cfg req)) eqn:Hkey;
    cbn [negb].
  - unfold bind at 1, ret at 1. cbv beta iota.
    match goal with
    | |- context [doFetchAndProcess answer req ?t ?p ?w] =>
        destruct (@doFetchAndProcess_run _ answer req t p w) as (rp & Hrun)
    end.
    cbn [out backend initializedCaRagConversations app] in Hrun.
    erewrite turn_alone
      by (cbn [resume standsAt request answerSoFar];
          unfold caRagForwards, tryCatch, bind; rewrite Hrun; reflexivity).
    cbn [request log app List.length skipn response
         initializedCaRagConversations out backend].
    erewrite turn_alone by reflexivity.
    cbn [request log app List.length skipn response
         initializedCaRagConversations out backend].
    unfold bind, ret. rewrite Hrun.
    eexists. repeat split.
  - unfold bind at 1 2, fetch. cbn [backend].
    destruct (answer (backendState st) (initCall cfg)) as [[ir|m] b'] eqn:Hans.
    + destruct (ok ir) eqn:Hok; cbn [negb].
      * unfold bind at 1, add, ret at 1.
        cbn [initializedCaRagConversations response out backend].
        rewrite Hkey.
        erewrite turn_alone
          by (cbn [resume standsAt request answerSoFar];
              unfold caRagInitSettles, tryCatch, bind at 1, fetch;
              cbn [backend]; rewrite Hans, Hok; cbn [negb];
              unfold bind, add, ret;
              cbn [initializedCaRagConversations]; rewrite Hkey;
              reflexivity).
        cbn [request log app List.length skipn response
             initializedCaRagConversations out backend].
        match goal with
        | |- context [doFetchAndProcess answer req ?t ?p ?w] =>
            destruct (@doFetchAndProcess_run _ answer req t p w) as (rp & Hrun)
        end.
        cbn [out backend initializedCaRagConversations app] in Hrun.
        erewrite turn_alone
          by (cbn [resume standsAt request answerSoFar];
              unfold caRagForwards, tryCatch, bind; rewrite Hrun;
              reflexivity).
        cbn [request log app List.length skipn response
             initializedCaRagConversations out backend].
        unfold bind, ret. rewrite Hrun.
        eexists. repeat split.
      * erewrite turn_alone
          by (cbn [resume standsAt request answerSoFar];
              unfold caRagInitSettles, tryCatch, bind at 1, fetch;
              cbn [backend]; rewrite Hans, Hok; cbn [negb];
              reflexivity).
        cbn [request log app List.length skipn response
             initializedCaRagConversations out backend].
        erewrite turn_alone by reflexivity.
        eexists. repeat split.
    + erewrite turn_alone
        by (cbn [resume standsAt request answerSoFar];
            unfold caRagInitSettles, tryCatch, bind at 1, fetch;
            cbn [backend]; rewrite Hans; reflexivity).
      cbn [request log app List.length skipn response
           initializedCaRagConversations out backend].
      erewrite turn_alone by reflexivity.
      eexists. repeat split.
Qed.

End AloneFacts.

Section SetFacts.

Import Server Concurrent.

Context {Backend : Type}.
Variable answer : Backend -> FetchCall -> FetchResult * Backend.
Variable cfg : Config.

(** A turn leaves the set as it is, or it is the turn in which the init
    call of a handler is settled with a success, and the key of that
    handler is added. *)
Lemma turn_set (p : Process Backend) (i : nat) :
  initializedNow (turn answer cfg p i) = initializedNow p
  \/ exists t initRes,
       nth_error (handlers p) i = Some t
       /\ standsAt t = AwaitsInit
       /\ ok initRes = true
       /\ doneSoFar (turn answer cfg p i)
          = doneSoFar p ++ [Fetched (initCall cfg) (Answered initRes)]
       /\ includes (initializedNow p) (initKeyOf cfg (request t)) = false
       /\ initializedNow (turn answer cfg p i)
          = initializedNow p ++ [initKeyOf cfg (request t)].
Proof.
  unfold turn. destruct (nth_error (handlers p) i) as [t|] eqn:Hi; [|now left].
  unfold resume. destruct (standsAt t) eqn:Hst.
  - rewrite arrives_run. now left.
  - match goal with
    | |- context [caRagInitSettles answer cfg ?req ?w] =>
        destruct (initSettles_run answer cfg req w) as (rp & ->)
    end.
    cbn [initializedNow doneSoFar backend out initializedCaRagConversations].
    destruct (answer (backendNow p) (initCall cfg)) as [[ir|m] b'];
      cbn [fst snd]; [|now left].
    destruct (ok ir) eqn:Hok; [|now left].
    destruct (includes (initializedNow p) (initKeyOf cfg (request t))) eqn:Hkey;
      [now left|].
    right. exists t, ir. repeat split; assumption.
  - match goal with
    | |- context [caRagForwards answer cfg ?req ?w] =>
        destruct (forwards_run answer cfg req w) as (rp & ->)
    end.
    now left.
  - now left.
Qed.

End SetFacts.

Section SkipFacts.

Import Server Concurrent.

Variable cfg : Config.

(** What such a handler has done holds no init call. *)
Lemma skipsInit_no_init (t0 t : Handler) :
  backendPathOf cfg (request t0) = constants.CHAT_CA_RAG ->
  skipsInit cfg t0 t ->
  existsb (isInitCall cfg) (log t) = existsb (isInitCall cfg) (log t0).
Proof.
  intros Hpath (_ & [(_ & ->) | [(_ & ->) | (_ & r & ->)]]);
    rewrite ?existsb_app; cbn [existsb];
    rewrite ?isInitCall_validation, ?(@forward_is_no_init cfg _ r Hpath);
    cbn [orb]; rewrite ?orb_false_r; reflexivity.
Qed.

End SkipFacts.

(** C3, as the code has it. For requests of the stateful-workflow-call
    route that share one conversation init key (the backend-instance
    identifier and the conversation identifier, [default] without the
    header): once the key is in the set of initialized conversations, a
    request with that key makes no init call and goes straight to
    forwarding the original request, and the key stays in the set. This
    holds when the listener handles the request in one go, and it holds
    when handlers are under way side by side, each going on from [await]
    to [await] in whatever order the turns are taken: a handler that has
    not begun when the key is in the set validates, forwards and returns,
    and makes no init call; and a key goes into the set only in the turn
    in which an init call is settled with a success, so an init call that
    fails leaves the key out. A request handled with no other under way is
    handled as in one go. Over any run of such requests, handled one after
    the other, no init call is made after an init call that succeeded. *)
Theorem C3_no_init_after_success :
  forall (Backend : Type)
         (answer : Backend -> Server.FetchCall -> Server.FetchResult * Backend)
         (cfg : Server.Config) (key : jstring),
    (forall (st : Server.ServerState Backend) (req : Server.Request),
        reachesCaRag cfg req ->
        Server.initKeyOf cfg req = key ->
        includes (Server.initialized st) key = true ->
        let run := Server.handle answer cfg st req in
        (exists r,
            Server.actions (fst run)
            = [validationOf cfg req; Server.Fetched (forwardOf cfg req) r])
        /\ existsb (isInitCall cfg) (Server.actions (fst run)) = false
        /\ Server.initialized (snd run) = Server.initialized st)
    /\ (forall (p : Concurrent.Process Backend) (schedule : list nat)
               (i : nat) (t0 : Concurrent.Handler),
           nth_error (Concurrent.handlers p) i = Some t0 ->
           Concurrent.standsAt t0 = Concurrent.Arrived ->
           reachesCaRag cfg (Concurrent.request t0) ->
           Server.initKeyOf cfg (Concurrent.request t0) = key ->
           includes (Concurrent.initializedNow p) key = true ->
           let p' := Concurrent.run answer cfg schedule p in
           includes (Concurrent.initializedNow p') key = true
           /\ exists t,
                nth_error (Concurrent.handlers p') i = Some t
                /\ skipsInit cfg t0 t
                /\ existsb (isInitCall cfg) (Concurrent.log t)
                   = existsb (isInitCall cfg) (Concurrent.log t0))
    /\ (forall (p : Concurrent.Process Backend) (i : nat),
           let p' := Concurrent.turn answer cfg p i in
           Concurrent.initializedNow p' = Concurrent.initializedNow p
           \/ exists t initRes,
                nth_error (Concurrent.handlers p) i = Some t
                /\ Concurrent.standsAt t = Concurrent.AwaitsInit
                /\ ok initRes = true
                /\ Concurrent.doneSoFar p'
                   = Concurrent.doneSoFar p
                     ++ [Server.Fetched (Server.initCall cfg)
                           (Server.Answered initRes)]
                /\ includes (Concurrent.initializedNow p)
                     (Server.initKeyOf cfg (Concurrent.request t)) = false
                /\ Concurrent.initializedNow p'
                   = Concurrent.initializedNow p
                     ++ [Server.initKeyOf cfg (Concurrent.request t)])
    /\ (forall (st : Server.ServerState Backend) (req : Server.Request),
           reachesCaRag cfg req ->
           let p := Concurrent.run answer cfg [0; 0; 0]%nat
                      (Concurrent.incoming st [req]) in
           exists t,
             Concurrent.handlers p = [t]
             /\ Concurrent.standsAt t = Concurrent.Returned
             /\ Concurrent.doneSoFar p = Concurrent.log t
             /\ Server.handle answer cfg st req
                = ({| Server.result := Normal tt;
                      Server.reply := Concurrent.answerSoFar t;
                      Server.actions := Concurrent.log t |},
                   {| Server.initialized := Concurrent.initializedNow p;
                      Server.backendState := Concurrent.backendNow p |}))
    /\ (forall (st : Server.ServerState Backend) (reqs : list Server.Request),
           Forall (fun req => reachesCaRag cfg req
                              /\ Server.initKeyOf cfg req = key) reqs ->
           let trace := traceOf (fst (Server.serve answer cfg st reqs)) in
           forall pre a post,
             trace = pre ++ a :: post ->
             initSucceeded cfg a = true ->
             Forall (fun later => isInitCall cfg later = false) post)
    /\ (forall req : Server.Request,
           headersGet (js "conversation-id") (Server.reqHeaders req) = None ->
           Server.initKeyOf cfg req = Server.RAG_UUID cfg ++ js "-default").
Proof.
  intros Backend answer cfg key. split; [|split; [|split; [|split; [|split]]]].
  - intros st req Hreach Hkey Hin run. subst run.
    destruct (@caRag_step _ answer cfg st req Hreach)
      as [(_ & r & Hacts & Hini)
         | [(Hout & _) | (Hout & _)]]; try congruence.
    rewrite Hacts. split; [eexists; reflexivity|]. split; [|exact Hini].
    cbn [existsb]. rewrite isInitCall_validation.
    rewrite (@forward_is_no_init cfg req r (proj2 (proj2 (proj2 Hreach)))).
    reflexivity.
  - intros p schedule i t0 Hi Hst Hreach Hkey Hin p'. subst p' key.
    assert (Hstart : skipsInit cfg t0 t0)
      by (split; [reflexivity | left; split; [exact Hst | reflexivity]]).
    destruct (@run_skipsInit _ answer cfg schedule p i t0 t0 Hi Hstart Hin)
      as (Hkeeps & t & Ht & Hskips).
    split; [exact Hkeeps|]. exists t. split; [exact Ht|].
    split; [exact Hskips|].
    apply skipsInit_no_init; [exact (proj2 (proj2 (proj2 Hreach))) | exact Hskips].
  - intros p i. apply turn_set.
  - intros st req Hreach. apply alone_is_handle, Hreach.
  - intros st reqs Hall trace pre a post Htrace Ha.
    eapply settled_spec; [|exact Htrace | exact Ha].
    subst trace. apply serve_settled with (K := key). exact Hall.
  - intros req Hnone. unfold Server.initKeyOf, Server.conversationIdOf.
    rewrite Hnone. reflexivity.
Qed.

Lemma C3_witness :
  (exists r,
     Server.actions
       (fst (Server.handle (Deployment.answer 0) Deployment.cfg
               {| Server.initialized := [js "123456-c1"];
                  Server.backendState := 1 |}
               Deployment.callRequest))
     = [validationOf Deployment.cfg Deployment.callRequest;
        Server.Fetched (forwardOf Deployment.cfg Deployment.callRequest) r])
  /\ includes
       (Concurrent.initializedNow
          (Concurrent.run (Deployment.answer 0) Deployment.cfg
             [0; 1; 1; 0]%nat
             (Concurrent.incoming
                {| Server.initialized := [js "123456-c1"];
                   Server.backendState := 1 |}
                [Deployment.callRequest; Deployment.callRequest])))
       (js "123456-c1") = true.
Proof.
  split.
  - refine (proj1 (proj1 (@C3_no_init_after_success nat (Deployment.answer 0)
                            Deployment.cfg (js "123456-c1"))
                     {| Server.initialized := [js "123456-c1"];
                        Server.backendState := 1 |}
                     Deployment.callRequest _ eq_refl eq_refl)).
    repeat split; vm_compute; reflexivity.
  - refine (proj1 (proj1 (proj2 (@C3_no_init_after_success nat
                                   (Deployment.answer 0)
                                   Deployment.cfg (js "123456-c1")))
                     (Concurrent.incoming
                        {| Server.initialized := [js "123456-c1"];
                           Server.backendState := 1 |}
                        [Deployment.callRequest; Deployment.callRequest])
                     [0; 1; 1; 0]%nat 1%nat
                     (Concurrent.newHandler Deployment.callRequest)
                     eq_refl eq_refl _ eq_refl eq_refl)).
    repeat split; vm_compute; reflexivity.
Defined.

(** C3 as stated fails twice: the init call is made more than once. An
    init call that fails is made again by the next request; and of two
    requests whose handlers are under way side by side, each finds the key
    missing before the init call of the other has succeeded, so both make
    the init call and both calls succeed. *)
Lemma C3_init_call_is_repeated :
  let reqs := [Deployment.callRequest; Deployment.callRequest] in
  Forall (fun req => reachesCaRag Deployment.cfg req
                     /\ Server.initKeyOf Deployment.cfg req = js "123456-c1")
         reqs
  /\ List.length
       (filter (isInitCall Deployment.cfg)
          (traceOf (fst (Server.serve (Deployment.answer 2) Deployment.cfg
                           Deployment.start reqs)))) = 2
  /\ List.length
       (filter (initSucceeded Deployment.cfg)
          (Concurrent.doneSoFar
             (Concurrent.run (Deployment.answer 0) Deployment.cfg
                [0; 1; 0; 1; 0; 1]%nat
                (Concurrent.incoming Deployment.start reqs)))) = 2.
Proof.
  intros reqs. split; [|split].
  - repeat constructor; vm_compute; reflexivity.
  - vm_compute. reflexivity.
  - vm_compute. reflexivity.
Qed.




(* ===================================================================== *)
(** * JSON text read back *)
(* ===================================================================== *)

(** ** Reading back what QuoteJSONString wrote *)

Lemma digitOfBase_hexDigit (d : N) :
  (d < 16)%N -> digitOfBase 16 (hexDigit d) = Some d.
Proof.
  intros Hd.
  assert (Hcases : In d [0;1;2;3;4;5;6;7;8;9;10;11;12;13;14;15]%N).
  { simpl. lia. }
  simpl in Hcases.
  repeat (destruct Hcases as [<-|Hcases]; [reflexivity|]).
  destruct Hcases.
Qed.

Lemma hex_digits_value (c : N) :
  (c < 65536)%N ->
  ((((0 * 16 + c / 4096 mod 16) * 16 + c / 256 mod 16) * 16
    + c / 16 mod 16) * 16 + c mod 16 = c)%N.
Proof.
  intros Hc. zify. Z.to_euclidean_division_equations. lia.
Qed.

Lemma scan_unicodeEscape (c : N) (acc tail : jstring) :
  (c < 65536)%N ->
  scan (ScString acc) (unicodeEscape c ++ tail) = scan (ScString (c :: acc)) tail.
Proof.
  intros Hc. unfold unicodeEscape.
  change (js "\u") with [backslash; ch "u"].
  cbn [app scan scanStep]. change (backslash =? dquote)%N with false.
  change (backslash =? backslash)%N with true. cbn [scan scanStep].
  change (ch "u" =? ch "u")%N with true. cbv iota.
  cbn [scan scanStep app].
  rewrite !digitOfBase_hexDigit by (apply N.mod_lt; discriminate).
  cbn [scan scanStep app]. rewrite !digitOfBase_hexDigit by (apply N.mod_lt; discriminate).
  cbn [scan scanStep app]. rewrite !digitOfBase_hexDigit by (apply N.mod_lt; discriminate).
  cbn [scan scanStep app]. rewrite !digitOfBase_hexDigit by (apply N.mod_lt; discriminate).
  rewrite hex_digits_value by assumption.
  destruct (scan (ScString (c :: acc)) tail); reflexivity.
Qed.

Lemma scan_plain (c : N) (acc tail : jstring) :
  (c =? dquote)%N = false -> (c =? backslash)%N = false -> (c <? 32)%N = false ->
  scan (ScString acc) (c :: tail) = scan (ScString (c :: acc)) tail.
Proof.
  intros Hq Hb Hlow. cbn [scan scanStep]. rewrite Hq, Hb, Hlow.
  destruct (scan (ScString (c :: acc)) tail); reflexivity.
Qed.

Lemma scan_escaped (e c : N) (acc tail : jstring) :
  (e =? ch "u")%N = false -> escapeChar e = Some c ->
  scan (ScString acc) (backslash :: e :: tail) = scan (ScString (c :: acc)) tail.
Proof.
  intros Hu He. cbn [scan scanStep].
  change (backslash =? dquote)%N with false.
  change (backslash =? backslash)%N with true. cbv iota.
  cbn [scan scanStep]. rewrite Hu, He.
  destruct (scan (ScString (c :: acc)) tail); reflexivity.
Qed.

Lemma scan_quoteUnit (c : N) (acc tail : jstring) :
  (c < 65536)%N ->
  scan (ScString acc) (quoteUnit c ++ tail) = scan (ScString (c :: acc)) tail.
Proof.
  intros Hc. unfold quoteUnit.
  destruct (N.eqb_spec c 8) as [->|H8];
    [apply (@scan_escaped (ch "b")); reflexivity|].
  destruct (N.eqb_spec c 9) as [->|H9];
    [apply (@scan_escaped (ch "t")); reflexivity|].
  destruct (N.eqb_spec c 10) as [->|H10];
    [apply (@scan_escaped (ch "n")); reflexivity|].
  destruct (N.eqb_spec c 12) as [->|H12];
    [apply (@scan_escaped (ch "f")); reflexivity|].
  destruct (N.eqb_spec c 13) as [->|H13];
    [apply (@scan_escaped (ch "r")); reflexivity|].
  destruct (N.eqb_spec c dquote) as [->|Hq];
    [apply (@scan_escaped dquote); reflexivity|].
  destruct (N.eqb_spec c backslash) as [->|Hb];
    [apply (@scan_escaped backslash); reflexivity|].
  destruct ((c <? 32)%N || isLeadSurrogate c || isTrailSurrogate c) eqn:Hesc.
  - apply scan_unicodeEscape, Hc.
  - apply orb_false_elim in Hesc. destruct Hesc as [Hesc _].
    apply orb_false_elim in Hesc. destruct Hesc as [Hlow _].
    apply scan_plain; [apply N.eqb_neq, Hq | apply N.eqb_neq, Hb | exact Hlow].
Qed.

Lemma scan_surrogate (c : N) (acc tail : jstring) :
  isLeadSurrogate c || isTrailSurrogate c = true ->
  scan (ScString acc) (c :: tail) = scan (ScString (c :: acc)) tail.
Proof.
  intros Hs. unfold isLeadSurrogate, isTrailSurrogate in Hs.
  assert (Hc : (55296 <= c)%N).
  { apply orb_prop in Hs. destruct Hs as [Hs|Hs]; apply andb_prop in Hs;
      destruct Hs as [Hlo _]; apply N.leb_le in Hlo; lia. }
  apply scan_plain;
    [apply N.eqb_neq | apply N.eqb_neq | apply N.ltb_ge];
    unfold dquote, backslash; lia.
Qed.

(** The scanner, inside a string, reads the quoted form of [s] back as
    [s]. *)
Lemma scan_quoteBody (s : jstring) :
  forall (pending : option N) (acc tail : jstring),
    wellFormed s ->
    match pending with
    | Some p => (p < 65536)%N /\ isLeadSurrogate p = true
    | None => True
    end ->
    scan (ScString acc) (quoteBody pending s ++ tail)
    = scan (ScString (rev s ++ match pending with
                               | Some p => p :: acc
                               | None => acc
                               end)) tail.
Proof.
  induction s as [|c s IH]; intros pending acc tail Hwf Hp.
  - destruct pending as [p|]; simpl; [|reflexivity].
    apply scan_unicodeEscape, Hp.
  - inversion Hwf as [|? ? Hc Hs]; subst.
    cbn [quoteBody rev]. rewrite <- app_assoc. cbn [app].
    destruct pending as [p|].
    + destruct Hp as [Hp Hlead].
      destruct (isTrailSurrogate c) eqn:Htrail.
      * cbn [app]. rewrite (scan_surrogate p) by (rewrite Hlead; reflexivity).
        rewrite (scan_surrogate c) by (rewrite Htrail; apply orb_true_r).
        apply (IH None); [assumption | exact I].
      * destruct (isLeadSurrogate c) eqn:Hl.
        -- rewrite <- app_assoc, scan_unicodeEscape by assumption.
           apply (IH (Some c)); [assumption | split; assumption].
        -- rewrite <- !app_assoc, scan_unicodeEscape by assumption.
           rewrite scan_quoteUnit by assumption.
           apply (IH None); [assumption | exact I].
    + destruct (isLeadSurrogate c) eqn:Hl.
      * apply (IH (Some c)); [assumption | split; assumption].
      * rewrite <- app_assoc, scan_quoteUnit by assumption.
        apply (IH None); [assumption | exact I].
Qed.

(** A quoted string, whatever follows it, is read as one string token. *)
Lemma scan_QuoteJSONString (s tail : jstring) :
  wellFormed s ->
  scan ScIdle (QuoteJSONString s ++ tail)
  = match scan ScIdle tail with
    | Some rest => Some (TValue (JStr s) :: rest)
    | None => None
    end.
Proof.
  intros Hwf. unfold QuoteJSONString. rewrite <- !app_assoc.
  cbn [app scan scanStep].
  change (scanIdle dquote) with (Some ([] : list token, ScString [])).
  cbv iota beta.
  rewrite (@scan_quoteBody s None [] _ Hwf I).
  cbn [app scan scanStep]. rewrite N.eqb_refl.
  rewrite app_nil_r, rev_involutive.
  destruct (scan ScIdle tail); reflexivity.
Qed.

(** JSON.parse(JSON.stringify(s)) is [s] for every string. *)
Lemma parse_QuoteJSONString (s : jstring) :
  wellFormed s -> JSON_parse (QuoteJSONString s) = Some (JStr s).
Proof.
  intros Hwf. unfold JSON_parse.
  rewrite <- (app_nil_r (QuoteJSONString s)), scan_QuoteJSONString by assumption.
  reflexivity.
Qed.

Lemma scan_app (a b : jstring) :
  forall st,
    scan st (a ++ b)
    = match scanRun st a with
      | Some (ts, st') =>
          match scan st' b with
          | Some rest => Some (ts ++ rest)
          | None => None
          end
      | None => None
      end.
Proof.
  induction a as [|c a IH]; intros st.
  - simpl. destruct (scan st b); reflexivity.
  - cbn [app scan scanRun]. destruct (scanStep st c) as [[ts st']|]; [|reflexivity].
    rewrite IH. destruct (scanRun st' a) as [[rest st'']|]; [|reflexivity].
    destruct (scan st'' b); [|reflexivity]. now rewrite app_assoc.
Qed.

(** A text made of a JSON prefix, a quoted string and a JSON suffix is
    scanned into the tokens of the prefix, the string and the tokens of the
    suffix. *)
Lemma scan_around_string (prefix suffix s : jstring) (before after : list token) :
  scanRun ScIdle prefix = Some (before, ScIdle) ->
  scan ScIdle suffix = Some after ->
  wellFormed s ->
  scan ScIdle (prefix ++ QuoteJSONString s ++ suffix)
  = Some (before ++ TValue (JStr s) :: after).
Proof.
  intros Hpre Hsuf Hwf.
  rewrite scan_app, Hpre, scan_QuoteJSONString, Hsuf by assumption.
  reflexivity.
Qed.

Lemma wellFormed_js (s : string) : wellFormed (js s).
Proof.
  unfold wellFormed, js. apply Forall_forall. intros c Hc.
  apply in_map_iff in Hc. destruct Hc as (a & <- & _).
  pose proof (N_ascii_bounded a). lia.
Qed.

(** The quoted form of a string has no line feed in it. *)
Lemma hexDigit_not_newline (d : N) : hexDigit d <> newline.
Proof.
  unfold hexDigit, newline. destruct (d <? 10)%N; lia.
Qed.

Lemma unicodeEscape_one_line (c : N) : ~ In newline (unicodeEscape c).
Proof.
  unfold unicodeEscape. simpl.
  intros [H|[H|[H|[H|[H|[H|[]]]]]]]; try discriminate H;
    revert H; apply hexDigit_not_newline.
Qed.

Lemma quoteUnit_one_line (c : N) : ~ In newline (quoteUnit c).
Proof.
  unfold quoteUnit.
  repeat match goal with
         | |- ~ In _ (if ?b then _ else _) => destruct b eqn:?
         end;
    try apply unicodeEscape_one_line;
    try (simpl; intros [H|[H|[]]]; discriminate H).
  simpl. intros [H|[]]. subst c. discriminate.
Qed.

Lemma quoteBody_one_line (s : jstring) :
  forall pending,
    match pending with
    | Some p => isLeadSurrogate p = true
    | None => True
    end ->
    ~ In newline (quoteBody pending s).
Proof.
  assert (Hsur : forall c, isLeadSurrogate c || isTrailSurrogate c = true ->
                           c <> newline).
  { intros c Hc ->. discriminate Hc. }
  induction s as [|c s IH]; intros pending Hp.
  - destruct pending; simpl; [apply unicodeEscape_one_line | tauto].
  - cbn [quoteBody]. destruct pending as [p|].
    + destruct (isTrailSurrogate c) eqn:Ht.
      * simpl. intros [H|[H|H]].
        -- apply (Hsur p); [rewrite Hp; reflexivity | congruence].
        -- apply (Hsur c); [rewrite Ht; apply orb_true_r | congruence].
        -- revert H. apply (IH None I).
      * destruct (isLeadSurrogate c) eqn:Hl; rewrite !in_app_iff.
        -- intros [H|H]; revert H;
             [apply unicodeEscape_one_line | apply (IH (Some c) Hl)].
        -- intros [H|[H|H]]; revert H;
             [apply unicodeEscape_one_line | apply quoteUnit_one_line
             | apply (IH None I)].
    + destruct (isLeadSurrogate c) eqn:Hl.
      * apply (IH (Some c) Hl).
      * rewrite in_app_iff. intros [H|H].
        -- revert H. apply quoteUnit_one_line.
        -- revert H. apply (IH None I).
Qed.

Lemma QuoteJSONString_one_line (s : jstring) : ~ In newline (QuoteJSONString s).
Proof.
  unfold QuoteJSONString. rewrite !in_app_iff. simpl.
  intros [[H|[]]|[H|[H|[]]]]; try discriminate H.
  revert H. apply (@quoteBody_one_line s None I).
Qed.

Section Saying.

Lemma live_writes (ws : list jstring) (r : Response) :
  live r -> live (emit (map EvWrite ws) r).
Proof. intros H. apply live_emit; [assumption | apply existsb_isEnd_writes]. Qed.

Lemma says_ret {A} (a : A) : says (ret a).
Proof. intros r _. exists a, []. simpl. now rewrite emit_nil. Qed.

Lemma says_write (chunk : jstring) : says (res.write chunk).
Proof.
  intros r Hlive. rewrite write_live by assumption. exists tt.
  destruct chunk as [|c chunk]; [exists [] | exists [c :: chunk]]; reflexivity.
Qed.

Lemma says_bind {A B} (m : Eff Response A) (k : A -> Eff Response B) :
  says m -> (forall a, says (k a)) -> says (bind m k).
Proof.
  intros Hm Hk r Hlive. destruct (Hm r Hlive) as (a & ws & Hrun).
  destruct (Hk a _ (live_writes ws Hlive)) as (b & ws' & Hrun').
  exists b, (ws ++ ws'). unfold bind. rewrite Hrun, Hrun', emit_emit, map_app.
  reflexivity.
Qed.

Lemma throws_ret {A} (a : A) : saysOrThrows (ret a).
Proof. intros r _. exists (Normal a), []. simpl. now rewrite emit_nil. Qed.

Lemma throws_throw {A} (e : exn) : saysOrThrows (throw (A := A) e).
Proof. intros r _. exists (Thrown e), []. simpl. now rewrite emit_nil. Qed.

Lemma throws_orThrow {A} (e : exn) (o : option A) : saysOrThrows (orThrow e o).
Proof. destruct o; [apply throws_ret | apply throws_throw]. Qed.

Lemma throws_says {A} (m : Eff Response A) : says m -> saysOrThrows m.
Proof.
  intros Hm r Hlive. destruct (Hm r Hlive) as (a & ws & Hrun).
  exists (Normal a), ws. exact Hrun.
Qed.

Lemma throws_writeValue (v : JSValue) : saysOrThrows (res.writeValue v).
Proof.
  destruct v; try apply throws_throw. apply throws_says, says_write.
Qed.

Lemma throws_bind {A B} (m : Eff Response A) (k : A -> Eff Response B) :
  saysOrThrows m -> (forall a, saysOrThrows (k a)) -> saysOrThrows (bind m k).
Proof.
  intros Hm Hk r Hlive. destruct (Hm r Hlive) as ([a|e] & ws & Hrun).
  - destruct (Hk a _ (live_writes ws Hlive)) as (o & ws' & Hrun').
    exists o, (ws ++ ws'). unfold bind. rewrite Hrun, Hrun', emit_emit, map_app.
    reflexivity.
  - exists (Thrown e), ws. unfold bind. rewrite Hrun. reflexivity.
Qed.

(** [try { m } catch { }] returns whatever [m] does. *)
Lemma says_ignoring (m : Eff Response unit) :
  saysOrThrows m -> says (tryCatch m (fun _ => ret tt)).
Proof.
  intros Hm r Hlive. destruct (Hm r Hlive) as ([[]|e] & ws & Hrun);
    exists tt, ws; unfold tryCatch; rewrite Hrun; reflexivity.
Qed.

End Saying.

Create HintDb wire.

#[local] Hint Resolve says_ret says_write throws_ret throws_throw
  throws_orThrow throws_writeValue says_ignoring : wire.

Section LineFacts.

Import ResponseProcessors.

Lemma says_processIntermediateData line : says (processIntermediateData line).
Proof.
  unfold processIntermediateData. apply says_ignoring.
  repeat (apply throws_bind; [auto with wire | intros ?]).
  apply throws_says, says_write.
Qed.

Lemma says_processObservabilityTrace line : says (processObservabilityTrace line).
Proof.
  unfold processObservabilityTrace. apply says_ignoring.
  repeat (apply throws_bind; [auto with wire | intros ?]).
  match goal with |- saysOrThrows (if ?c then _ else _) => destruct c end;
    [|auto with wire].
  apply throws_bind; [auto with wire | intros ?].
  apply throws_says, says_write.
Qed.

Lemma says_processCommonLineTypes line : says (processCommonLineTypes line).
Proof.
  unfold processCommonLineTypes.
  repeat match goal with |- says (if ?c then _ else _) => destruct c end;
    try (apply says_bind; [|intros; apply says_ret]);
    auto using says_processIntermediateData, says_processObservabilityTrace
      with wire.
Qed.

Lemma says_processRemainingBuffer buffer : says (processRemainingBuffer buffer).
Proof.
  unfold processRemainingBuffer.
  match goal with |- says (if ?c then _ else _) => destruct c end;
    auto with wire.
Qed.

Lemma ends_of_says (m : Eff Response control) :
  (forall r, live r -> exists ws, m r = (Normal Continue, emit (map EvWrite ws) r)) ->
  saysOrEnds m.
Proof. intros H r Hlive. destruct (H r Hlive) as (ws & Hrun). exists ws. now left. Qed.

Lemma ends_done : saysOrEnds (bind (res.end_ None) (fun _ => ret Return)).
Proof.
  intros r Hlive. exists []. right. unfold bind.
  rewrite end_live by assumption. reflexivity.
Qed.

Lemma continue_after (m : Eff Response unit) :
  says m -> saysOrEnds (bind m (fun _ => ret Continue)).
Proof.
  intros Hm. apply ends_of_says. intros r Hlive.
  destruct (Hm r Hlive) as ([] & ws & Hrun). exists ws.
  unfold bind. rewrite Hrun. reflexivity.
Qed.

Lemma continue_after_common line :
  saysOrEnds (bind (processCommonLineTypes line) (fun _ => ret Continue)).
Proof.
  apply ends_of_says. intros r Hlive.
  destruct (says_processCommonLineTypes line Hlive) as (handled & ws & Hrun).
  exists ws. unfold bind. rewrite Hrun. reflexivity.
Qed.

Lemma ends_chatStreamLine line : saysOrEnds (chatStreamLine line).
Proof.
  unfold chatStreamLine.
  destruct (startsWith line (js "data: ")); [|apply continue_after_common].
  destruct (isDoneSentinel (trim (slice 6 line))); [apply ends_done|].
  apply continue_after, says_ignoring.
  repeat (apply throws_bind; [auto with wire | intros ?]).
  match goal with |- saysOrThrows (if ?c then _ else _) => destruct c end;
    auto with wire.
Qed.

Lemma ends_generateStreamLine line : saysOrEnds (generateStreamLine line).
Proof.
  unfold generateStreamLine.
  destruct (startsWith line (js "data: ")); [|apply continue_after_common].
  destruct (isDoneSentinel (trim (slice 6 line))); [apply ends_done|].
  apply continue_after, says_ignoring.
  repeat (apply throws_bind; [auto with wire | intros ?]).
  match goal with |- saysOrThrows (if ?c then _ else _) => destruct c end;
    auto using throws_says with wire.
Qed.

Lemma ends_forOf (lineBody : jstring -> Eff Response control) :
  (forall line, saysOrEnds (lineBody line)) ->
  forall lines, saysOrEnds (forOf lineBody lines).
Proof.
  intros Hbody lines. induction lines as [|l rest IH]; intros r Hlive.
  - exists []. left. simpl. now rewrite emit_nil.
  - destruct (Hbody l r Hlive) as (ws & [Hrun|Hrun]).
    + destruct (IH _ (live_writes ws Hlive)) as (ws' & Hrest).
      assert (Hstep : forOf lineBody (l :: rest) r
                      = forOf lineBody rest (emit (map EvWrite ws) r))
        by (cbn [forOf]; unfold bind; rewrite Hrun; reflexivity).
      exists (ws ++ ws'). rewrite Hstep, map_app.
      destruct Hrest as [-> | ->]; [left | right];
        rewrite emit_emit, ?app_assoc; reflexivity.
    + exists ws. right. cbn [forOf]. unfold bind. rewrite Hrun.
      reflexivity.
Qed.

End LineFacts.

Section StreamSettles.

Import ResponseProcessors.

Variable cors : jstring.
Variable lineBody : jstring -> Eff Response control.
Hypothesis lineBody_ok : forall line, saysOrEnds (lineBody line).

Lemma live_head st hs : live {| pending := []; sent := [EvHead st hs] |}.
Proof. split; reflexivity. Qed.

Lemma processStream_settles (b : BackendResponse) (chunks : list jstring) :
  ok b = true ->
  body b = Some chunks ->
  exists ws,
    processStream cors lineBody b freshResponse
    = (Normal tt,
       {| pending := [];
          sent := EvHead 200 (streamHeaders cors) :: map EvWrite ws ++ [EvEnd] |}).
Proof.
  intros Hok Hbody.
  rewrite (processStream_text cors lineBody b freshResponse Hok Hbody).
  unfold bind at 1. rewrite writeHead_fresh.
  set (r1 := {| pending := []; sent := [EvHead 200 (streamHeaders cors)] |}).
  assert (Hlive : live r1) by apply live_head.
  unfold finally, tryCatch, handleText, bind at 1.
  destruct (@ends_forOf lineBody lineBody_ok (linesOf (List.concat chunks))
              r1 Hlive)
    as (ws & [Hrun|Hrun]); rewrite Hrun.
  - destruct (@says_processRemainingBuffer (restOf (List.concat chunks))
                _ (live_writes ws Hlive)) as ([] & ws' & Hrest).
    rewrite Hrest.
    rewrite end_live by (apply live_writes, live_writes, Hlive).
    exists (ws ++ ws'). rewrite !emit_emit, map_app, <- app_assoc. reflexivity.
  - unfold ret. rewrite end_again.
    + exists ws. reflexivity.
    + unfold writableEnded, emit. cbn [sent]. rewrite !existsb_app.
      simpl. now rewrite !orb_true_r.
Qed.

End StreamSettles.

(* ===================================================================== *)
(** * More on the streaming processors *)
(* ===================================================================== *)

(** X1. Both streaming processors leave a successful response answered: they
    return, and what went out is the head with the status 200 and the
    stream headers, chunks of the body, and one end. A response without a
    body makes them throw after the head, before anything is read. *)
Theorem streaming_processors_end_the_response :
  forall (CORS_ORIGIN : jstring) (b : BackendResponse),
    ok b = true ->
    forall process,
      process = ResponseProcessors.processChatStream CORS_ORIGIN
      \/ process = ResponseProcessors.processGenerateStream CORS_ORIGIN ->
      match body b with
      | Some _ =>
          exists ws,
            process b freshResponse
            = (Normal tt,
               {| pending := [];
                  sent := EvHead 200 (ResponseProcessors.streamHeaders CORS_ORIGIN)
                            :: map EvWrite ws ++ [EvEnd] |})
      | None =>
          process b freshResponse
          = (Thrown TypeError,
             {| pending := [];
                sent := [EvHead 200
                           (ResponseProcessors.streamHeaders CORS_ORIGIN)] |})
      end.
Proof.
  intros cors b Hok process Hprocess.
  destruct (body b) as [chunks|] eqn:Hbody.
  - destruct Hprocess as [-> | ->].
    + apply (@processStream_settles cors _ ends_chatStreamLine b chunks Hok Hbody).
    + apply (@processStream_settles cors _ ends_generateStreamLine b chunks
               Hok Hbody).
  - destruct Hprocess as [-> | ->];
      unfold ResponseProcessors.processChatStream,
        ResponseProcessors.processGenerateStream,
        ResponseProcessors.processStream;
      rewrite Hok, Hbody; reflexivity.
Qed.

Lemma streaming_processors_end_the_response_witness :
  exists ws,
    ResponseProcessors.processGenerateStream (js "*")
      {| status := 200; backendHeaders := [];
         body := Some [jsq "data: {'value':'x'}" ++ [newline]; js "{oops"] |}
      freshResponse
    = (Normal tt,
       {| pending := [];
          sent := EvHead 200 (ResponseProcessors.streamHeaders (js "*"))
                    :: map EvWrite ws ++ [EvEnd] |}).
Proof.
  exact (@streaming_processors_end_the_response (js "*")
           {| status := 200; backendHeaders := [];
              body := Some [jsq "data: {'value':'x'}" ++ [newline]; js "{oops"] |}
           eq_refl _ (or_intror eq_refl)).
Defined.

(** X2. How a stream is cut into chunks does not matter: two backend responses
    with the same status whose chunks make up the same text are processed
    alike, from any state of the response. *)
Theorem stream_cut_does_not_matter :
  forall (CORS_ORIGIN : jstring) (b b' : BackendResponse)
         (chunks chunks' : list jstring) (r : Response),
    status b = status b' ->
    body b = Some chunks ->
    body b' = Some chunks' ->
    List.concat chunks = List.concat chunks' ->
    ResponseProcessors.processChatStream CORS_ORIGIN b r
    = ResponseProcessors.processChatStream CORS_ORIGIN b' r
    /\ ResponseProcessors.processGenerateStream CORS_ORIGIN b r
       = ResponseProcessors.processGenerateStream CORS_ORIGIN b' r.
Proof.
  intros cors b b' chunks chunks' r Hst Hb Hb' Htext.
  assert (Hok : ok b' = ok b) by (unfold ok; now rewrite Hst).
  unfold ResponseProcessors.processChatStream,
    ResponseProcessors.processGenerateStream.
  destruct (ok b) eqn:Hokb.
  - rewrite !(processStream_text cors _ b r Hokb Hb).
    rewrite !(processStream_text cors _ b' r Hok Hb'), Htext.
    split; reflexivity.
  - unfold ResponseProcessors.processStream. rewrite Hok, Hokb. cbn [negb].
    unfold ResponseProcessors.mirrorFailure, text. rewrite Hst, Hb, Hb', Htext.
    split; reflexivity.
Qed.

Lemma stream_cut_does_not_matter_witness :
  ResponseProcessors.processChatStream (js "*")
    {| status := 200; backendHeaders := [];
       body := Some [js "data: [DO"; js "NE]" ++ [newline]] |} freshResponse
  = ResponseProcessors.processChatStream (js "*")
      {| status := 200; backendHeaders := [];
         body := Some [js "data: [DONE]" ++ [newline]] |} freshResponse.
Proof.
  exact (proj1 (@stream_cut_does_not_matter (js "*")
                  {| status := 200; backendHeaders := [];
                     body := Some [js "data: [DO"; js "NE]" ++ [newline]] |}
                  {| status := 200; backendHeaders := [];
                     body := Some [js "data: [DONE]" ++ [newline]] |}
                  _ _ freshResponse eq_refl eq_refl eq_refl eq_refl)).
Defined.

(** ** Lines *)

Lemma linesOf_unlines (lines : list jstring) (rest : jstring) :
  Forall (fun l => ~ In newline l) lines ->
  linesOf (unlines lines ++ rest) = lines ++ linesOf rest.
Proof.
  induction 1 as [|l ls Hl Hls IH]; [reflexivity|].
  cbn [unlines flat_map]. fold (unlines ls).
  rewrite <- !app_assoc. cbn [app]. rewrite linesOf_line by assumption.
  rewrite IH. reflexivity.
Qed.

Lemma restOf_unlines (lines : list jstring) (rest : jstring) :
  Forall (fun l => ~ In newline l) lines ->
  restOf (unlines lines ++ rest) = restOf rest.
Proof.
  induction 1 as [|l ls Hl Hls IH]; [reflexivity|].
  cbn [unlines flat_map]. fold (unlines ls).
  rewrite <- !app_assoc. cbn [app]. rewrite restOf_line by assumption.
  exact IH.
Qed.

(** A loop that reaches a line on which its body leaves does not see the
    lines after it. *)
Lemma forOf_leaves {S A : Type} (body : A -> Eff S control)
    (before after : list A) (x : A) (s : S) :
  (forall s', exists s'', body x s' = (Normal Return, s'')) ->
  forOf body (before ++ x :: after) s = forOf body (before ++ [x]) s.
Proof.
  intros Hx. rewrite !forOf_app.
  destruct (forOf body before s) as [[[|]|e] s']; try reflexivity.
  cbn [forOf]. unfold bind. destruct (Hx s') as (s'' & ->). reflexivity.
Qed.

Lemma done_line_leaves (lineBody : jstring -> Eff Response control)
    (line : jstring) :
  lineBody = ResponseProcessors.chatStreamLine
  \/ lineBody = ResponseProcessors.generateStreamLine ->
  isDataLine line = true ->
  isDoneLine line = true ->
  forall r, exists r', lineBody line r = (Normal Return, r').
Proof.
  intros Hbody Hdata Hdone r. unfold isDataLine, isDoneLine, payloadOf in *.
  destruct Hbody as [-> | ->];
    unfold ResponseProcessors.chatStreamLine,
      ResponseProcessors.generateStreamLine;
    rewrite Hdata, Hdone; unfold bind, res.end_;
    destruct (writableEnded r); eexists; reflexivity.
Qed.

(** X3. Nothing that follows the line of the DONE sentinel matters: two
    successful streams that are the same up to that line are processed
    alike, whatever the rest of each is. *)
Theorem nothing_is_read_after_done :
  forall (CORS_ORIGIN : jstring) (b b' : BackendResponse)
         (chunks chunks' : list jstring)
         (lines : list jstring) (done rest rest' : jstring) (r : Response),
    ok b = true ->
    ok b' = true ->
    body b = Some chunks ->
    body b' = Some chunks' ->
    Forall (fun l => ~ In newline l) lines ->
    ~ In newline done ->
    isDataLine done = true ->
    isDoneLine done = true ->
    List.concat chunks = unlines lines ++ done ++ newline :: rest ->
    List.concat chunks' = unlines lines ++ done ++ newline :: rest' ->
    ResponseProcessors.processChatStream CORS_ORIGIN b r
    = ResponseProcessors.processChatStream CORS_ORIGIN b' r
    /\ ResponseProcessors.processGenerateStream CORS_ORIGIN b r
       = ResponseProcessors.processGenerateStream CORS_ORIGIN b' r.
Proof.
  intros cors b b' chunks chunks' lines done rest rest' r
    Hok Hok' Hb Hb' Hlines Hdone Hdata Hsentinel Htext Htext'.
  assert (Hloop : forall lineBody,
    lineBody = ResponseProcessors.chatStreamLine
    \/ lineBody = ResponseProcessors.generateStreamLine ->
    forall tail r0,
      handleText lineBody (unlines lines ++ done ++ newline :: tail) r0
      = match forOf lineBody (lines ++ [done]) r0 with
        | (Normal _, r1) => (Normal tt, r1)
        | (Thrown e, r1) => (Thrown e, r1)
        end).
  { intros lineBody Hbody tail r0. unfold handleText.
    rewrite linesOf_unlines, linesOf_line by assumption. unfold bind at 1.
    rewrite (@forOf_leaves _ _ lineBody lines (linesOf tail) done r0
               (@done_line_leaves lineBody done Hbody Hdata Hsentinel)).
    rewrite forOf_app.
    destruct (forOf lineBody lines r0) as [[[|]|e] r1]; try reflexivity.
    cbn [forOf]. unfold bind.
    destruct (@done_line_leaves lineBody done Hbody Hdata Hsentinel r1)
      as (r2 & ->).
    reflexivity. }
  unfold ResponseProcessors.processChatStream,
    ResponseProcessors.processGenerateStream.
  rewrite !(processStream_text cors _ b r Hok Hb).
  rewrite !(processStream_text cors _ b' r Hok' Hb'), Htext, Htext'.
  unfold bind, finally, tryCatch.
  destruct (res.writeHead 200 (ResponseProcessors.streamHeaders cors) r)
    as [[[]|e] r0]; [|split; reflexivity].
  rewrite !Hloop by auto. split; reflexivity.
Qed.

Lemma nothing_is_read_after_done_witness :
  ResponseProcessors.processChatStream (js "*")
    {| status := 200; backendHeaders := [];
       body := Some [js "data: [DONE]" ++ newline :: js "{later}"] |}
    freshResponse
  = ResponseProcessors.processChatStream (js "*")
      {| status := 200; backendHeaders := [];
         body := Some [js "data: [DONE]" ++ [newline]] |}
      freshResponse.
Proof.
  refine (proj1 (@nothing_is_read_after_done (js "*")
                   {| status := 200; backendHeaders := [];
                      body := Some [js "data: [DONE]" ++ newline :: js "{later}"] |}
                   {| status := 200; backendHeaders := [];
                      body := Some [js "data: [DONE]" ++ [newline]] |}
                   _ _ [] (js "data: [DONE]") (js "{later}") [] freshResponse
                   eq_refl eq_refl eq_refl eq_refl (Forall_nil _) _
                   eq_refl eq_refl eq_refl eq_refl)).
  vm_compute. intuition discriminate.
Defined.

(** ** A stream of deltas *)

Lemma trimEnd_last (a : jstring) (c : N) :
  isWhiteSpace c = false -> trimEnd (a ++ [c]) = a ++ [c].
Proof.
  intros Hc. induction a as [|x a IH]; simpl.
  - now rewrite Hc.
  - rewrite IH. destruct (a ++ [c]) eqn:Ha; [|reflexivity].
    destruct a; discriminate.
Qed.

(** A text that begins and ends with something else than white space is
    its own trimmed form. *)
Lemma trim_tight (c d : N) (s : jstring) :
  isWhiteSpace c = false -> isWhiteSpace d = false ->
  trim (c :: s ++ [d]) = c :: s ++ [d].
Proof.
  intros Hc Hd. unfold trim. cbn [trimStart]. rewrite Hc.
  apply (@trimEnd_last (c :: s) d Hd).
Qed.

(** The JSON text of an object with one property and of an array with one
    element. *)
Lemma objectLiteral_one (k : jstring) (v : JSValue) :
  arrayIndex k = None -> objectLiteral [(k, v)] = JObj [(k, v)].
Proof.
  intros Hk. unfold objectLiteral, defineProp. cbn [fold_left fst snd lookup].
  now rewrite Hk.
Qed.

Lemma stringify_one (k : jstring) (v : JSValue) (t : jstring) :
  arrayIndex k = None ->
  JSON_stringify v = Some t ->
  JSON_stringify (objectLiteral [(k, v)])
  = Some (js "{" ++ QuoteJSONString k ++ js ":" ++ t ++ js "}").
Proof.
  intros Hk Hv. rewrite objectLiteral_one by assumption.
  cbn [JSON_stringify flat_map fst snd]. rewrite Hv.
  cbn [app joinWith]. now rewrite <- !app_assoc.
Qed.

Lemma stringify_singleton (v : JSValue) (t : jstring) :
  JSON_stringify v = Some t ->
  JSON_stringify (JArr [v]) = Some (js "[" ++ t ++ js "]").
Proof.
  intros Hv. cbn [JSON_stringify map]. rewrite Hv. reflexivity.
Qed.

Lemma stringify_deltaChunk (content : jstring) :
  JSON_stringify (deltaChunk content)
  = Some (jsq "{'choices':[{'delta':{'content':"
          ++ QuoteJSONString content ++ js "}}]}").
Proof.
  unfold deltaChunk.
  erewrite stringify_one; [|reflexivity|].
  2:{ apply stringify_singleton. apply stringify_one; [reflexivity|].
      apply stringify_one; reflexivity. }
  rewrite <- !app_assoc. reflexivity.
Qed.

Lemma parse_deltaChunk (content : jstring) :
  wellFormed content ->
  JSON_parse (jsq "{'choices':[{'delta':{'content':"
              ++ QuoteJSONString content ++ js "}}]}")
  = Some (deltaChunk content).
Proof.
  intros Hwf. unfold JSON_parse.
  erewrite scan_around_string; [| vm_compute; reflexivity
                                | vm_compute; reflexivity | assumption].
  reflexivity.
Qed.

Section DeltaFacts.

Import ResponseProcessors.

Lemma dataLine_delta (content : jstring) :
  dataLine (deltaChunk content)
  = js "data: " ++ jsq "{'choices':[{'delta':{'content':"
      ++ QuoteJSONString content ++ js "}}]}".
Proof. unfold dataLine. now rewrite stringify_deltaChunk. Qed.

Lemma delta_line_has_no_newline (content : jstring) :
  ~ In newline (dataLine (deltaChunk content)).
Proof.
  rewrite dataLine_delta, !in_app_iff.
  intros [H|[H|[H|H]]].
  - vm_compute in H. intuition discriminate.
  - vm_compute in H. intuition discriminate.
  - revert H. apply QuoteJSONString_one_line.
  - vm_compute in H. intuition discriminate.
Qed.

(** The line of a delta gives its content to the client, unless the
    content is empty. *)
Lemma chatStreamLine_delta (content : jstring) (r : Response) :
  wellFormed content ->
  live r ->
  chatStreamLine (dataLine (deltaChunk content)) r
  = (Normal Continue, emit (chunkEvents content) r).
Proof.
  intros Hwf Hlive. rewrite dataLine_delta.
  set (payload := jsq "{'choices':[{'delta':{'content':"
                  ++ QuoteJSONString content ++ js "}}]}").
  assert (Htrim : trim payload = payload).
  { subst payload.
    change (jsq "{'choices':[{'delta':{'content':")
      with (ch "{" :: jsq "'choices':[{'delta':{'content':").
    change (js "}}]}") with (js "}}]" ++ [ch "}"]).
    rewrite <- app_comm_cons, !app_assoc. apply trim_tight; reflexivity. }
  unfold chatStreamLine.
  change (startsWith (js "data: " ++ payload) (js "data: ")) with true.
  change (slice 6 (js "data: " ++ payload)) with payload.
  cbv iota. rewrite Htrim.
  replace (isDoneSentinel payload) with false by reflexivity.
  unfold payload at 1. unfold tryCatch, bind at 1 2, orThrow.
  rewrite parse_deltaChunk by assumption.
  unfold ret at 1. cbv beta iota.
  change (get (deltaChunk content) (js "choices"))
    with (Some (JArr [objectLiteral
                        [(js "delta", objectLiteral [(js "content", JStr content)])]])).
  unfold bind at 1, ret at 1. cbv beta iota.
  match goal with
  | |- context [truthy ?v] => change v with (JStr content)
  end.
  destruct content as [|c content].
  - cbn [truthy]. unfold ret. cbn [chunkEvents]. now rewrite emit_nil.
  - cbn [truthy res.writeValue]. rewrite write_live by assumption.
    reflexivity.
Qed.

Lemma live_chunk (content : jstring) (r : Response) :
  live r -> live (emit (chunkEvents content) r).
Proof.
  intros H. apply live_emit; [assumption | destruct content; reflexivity].
Qed.

Lemma chunkEvents_filter (contents : list jstring) :
  flat_map chunkEvents contents = map EvWrite (filter nonEmpty contents).
Proof.
  induction contents as [|[|c s] rest IH]; simpl; [reflexivity | exact IH |].
  now rewrite IH.
Qed.

Lemma forOf_deltas (contents : list jstring) :
  forall r,
    Forall wellFormed contents ->
    live r ->
    forOf chatStreamLine (map (fun c => dataLine (deltaChunk c)) contents) r
    = (Normal Continue, emit (flat_map chunkEvents contents) r).
Proof.
  induction contents as [|c rest IH]; intros r Hwf Hlive.
  - simpl. now rewrite emit_nil.
  - inversion Hwf as [|? ? Hc Hrest]; subst.
    cbn [map forOf flat_map]. unfold bind.
    rewrite chatStreamLine_delta by assumption.
    rewrite IH by (try assumption; apply live_chunk, Hlive).
    now rewrite emit_emit.
Qed.

End DeltaFacts.

Section WireFacts.

(** The encoding of a well-formed string followed by another is the two
    encodings one after the other. *)
Lemma utf8Encode_app_len (n : nat) :
  forall a b : jstring,
    (List.length a <= n)%nat ->
    isWellFormed a = true ->
    utf8Encode (a ++ b) = utf8Encode a ++ utf8Encode b.
Proof.
  induction n as [|n IH]; intros a b Hlen Hwf.
  - destruct a; [reflexivity | cbn in Hlen; lia].
  - destruct a as [|c a]; [reflexivity|].
    cbn [app utf8Encode isWellFormed] in *.
    destruct (isLeadSurrogate c).
    + destruct a as [|d a]; [discriminate Hwf|].
      apply andb_prop in Hwf. destruct Hwf as [Hd Hwf].
      cbn [app]. rewrite Hd, <- app_assoc. f_equal.
      apply IH; [cbn in Hlen; lia | exact Hwf].
    + apply andb_prop in Hwf. destruct Hwf as [Hc Hwf].
      apply negb_true_iff in Hc. rewrite Hc, <- app_assoc. f_equal.
      apply IH; [cbn in Hlen; lia | exact Hwf].
Qed.

Lemma utf8Encode_app (a b : jstring) :
  isWellFormed a = true ->
  utf8Encode (a ++ b) = utf8Encode a ++ utf8Encode b.
Proof. apply (@utf8Encode_app_len (List.length a)). apply Nat.le_refl. Qed.

Lemma utf8Encode_concat (contents : list jstring) :
  Forall (fun c => isWellFormed c = true) contents ->
  flat_map utf8Encode contents = utf8Encode (List.concat contents).
Proof.
  induction 1 as [|c rest Hc Hrest IH]; [reflexivity|].
  cbn [flat_map List.concat]. rewrite utf8Encode_app by exact Hc.
  now rewrite IH.
Qed.

(** The bytes of a response that was answered with the chunks that are not
    empty. *)
Lemma wireOf_answered (st : Z) (hs : headers) (contents : list jstring) :
  wireOf {| pending := [];
            sent := EvHead st hs
                      :: map EvWrite (filter nonEmpty contents) ++ [EvEnd] |}
  = flat_map utf8Encode contents.
Proof.
  unfold wireOf. cbn [sent flat_map app].
  induction contents as [|c rest IH]; [reflexivity|].
  destruct c as [|x c]; cbn [filter nonEmpty map flat_map app utf8Encode];
    [exact IH|].
  rewrite <- IH. reflexivity.
Qed.

End WireFacts.

(** X4. On a successful chat stream made of delta lines and the DONE line
    the processor writes the contents of the deltas, in their order, each
    as one chunk, and then ends the response: empty contents are left out,
    and so is whatever follows the DONE line. Each chunk is encoded for
    the wire by itself, so the bytes the client receives are the encodings
    of the contents one after the other; they are the encoding of the
    deltas put together when each content is well formed, that is when no
    content holds a surrogate without its pair. *)
Theorem chat_stream_delivers_the_deltas :
  forall (CORS_ORIGIN : jstring) (b : BackendResponse) (chunks : list jstring)
         (contents : list jstring) (rest : jstring),
    ok b = true ->
    body b = Some chunks ->
    Forall wellFormed contents ->
    List.concat chunks
    = unlines (map (fun c => dataLine (deltaChunk c)) contents)
      ++ js "data: [DONE]" ++ newline :: rest ->
    let run := ResponseProcessors.processChatStream CORS_ORIGIN b freshResponse in
    run = (Normal tt,
           {| pending := [];
              sent := EvHead 200 (ResponseProcessors.streamHeaders CORS_ORIGIN)
                        :: map EvWrite (filter nonEmpty contents) ++ [EvEnd] |})
    /\ wireOf (snd run) = flat_map utf8Encode contents
    /\ (Forall (fun c => isWellFormed c = true) contents ->
        wireOf (snd run) = utf8Encode (List.concat contents)).
Proof.
  intros cors b chunks contents rest Hok Hbody Hwf Htext run.
  assert (Hrun : run = (Normal tt,
           {| pending := [];
              sent := EvHead 200 (ResponseProcessors.streamHeaders cors)
                        :: map EvWrite (filter nonEmpty contents) ++ [EvEnd] |})).
  { subst run. unfold ResponseProcessors.processChatStream.
    rewrite (processStream_text cors _ b freshResponse Hok Hbody), Htext.
    unfold bind at 1. rewrite writeHead_fresh.
    set (r1 := {| pending := [];
                  sent := [EvHead 200 (ResponseProcessors.streamHeaders cors)] |}).
    assert (Hlive : live r1) by (split; reflexivity).
    unfold finally, tryCatch, handleText.
    rewrite linesOf_unlines
      by (apply Forall_forall; intros l Hl; apply in_map_iff in Hl;
          destruct Hl as (c & <- & _); apply delta_line_has_no_newline).
    rewrite linesOf_line by (vm_compute; intuition discriminate).
    unfold bind at 1. rewrite forOf_app, forOf_deltas by assumption.
    cbn [forOf]. unfold bind at 1.
    change (ResponseProcessors.chatStreamLine (js "data: [DONE]"))
      with (bind (res.end_ None) (fun _ => ret (S := Response) Return)).
    unfold bind at 1. rewrite end_live by (apply live_emit;
      [assumption | rewrite chunkEvents_filter; apply existsb_isEnd_writes]).
    unfold ret. rewrite end_again.
    - rewrite emit_emit, chunkEvents_filter. reflexivity.
    - unfold writableEnded, emit. cbn [sent]. rewrite !existsb_app.
      simpl. now rewrite !orb_true_r. }
  assert (Hwire : wireOf (snd run) = flat_map utf8Encode contents).
  { rewrite Hrun. cbn [snd]. apply wireOf_answered. }
  split; [exact Hrun|]. split; [exact Hwire|].
  intros Hall. rewrite Hwire. apply utf8Encode_concat, Hall.
Qed.

Lemma chat_stream_delivers_the_deltas_witness :
  wireOf (snd (ResponseProcessors.processChatStream (js "*")
                 {| status := 200; backendHeaders := [];
                    body := Some [unlines (map (fun c => dataLine (deltaChunk c))
                                               [js "Hel"; []; js "lo"])
                                  ++ js "data: [DONE]" ++ [newline]] |}
                 freshResponse))
  = utf8Encode (js "Hello").
Proof.
  refine (proj2 (proj2 (@chat_stream_delivers_the_deltas (js "*")
                   {| status := 200; backendHeaders := [];
                      body := Some [unlines (map (fun c => dataLine (deltaChunk c))
                                               [js "Hel"; []; js "lo"])
                                    ++ js "data: [DONE]" ++ [newline]] |}
                   _ [js "Hel"; []; js "lo"] [] eq_refl eq_refl _ _)) _).
  - repeat constructor.
  - vm_compute. reflexivity.
  - repeat constructor.
Defined.

(* ===================================================================== *)
(** * More on the processors of whole bodies *)
(* ===================================================================== *)

Section WholeBodies.

Import ResponseProcessors.

Variable CORS_ORIGIN : jstring.

Lemma head_end_fresh (st : Z) (hs : headers) (data : option jstring) :
  bind (res.writeHead st hs) (fun _ => res.end_ data) freshResponse
  = (Normal tt,
     {| pending := [];
        sent := EvHead st hs
                  :: chunkEvents (match data with Some d => d | None => [] end)
                  ++ [EvEnd] |}).
Proof. destruct data as [d|]; reflexivity. Qed.

Lemma processChat_run (b : BackendResponse) :
  ok b = true ->
  processChat CORS_ORIGIN b freshResponse
  = (Normal tt,
     {| pending := [];
        sent := EvHead 200 (textHeaders CORS_ORIGIN "text/plain; charset=utf-8" b)
                  :: chunkEvents
                       (match JSON_parse (text b) with
                        | Some parsed => textOf (chatContent parsed)
                        | None => text b
                        end)
                  ++ [EvEnd] |}).
Proof.
  intros Hok. unfold processChat. rewrite Hok. cbn [negb].
  unfold tryCatch, bind at 1, orThrow.
  destruct (JSON_parse (text b)) as [parsed|].
  - unfold ret at 1. cbv beta iota. fold (chatContent parsed).
    rewrite head_end_fresh. reflexivity.
  - unfold throw. cbv beta iota. rewrite head_end_fresh. reflexivity.
Qed.

Lemma processCaRag_run (b : BackendResponse) :
  ok b = true ->
  processCaRag CORS_ORIGIN b freshResponse
  = (Normal tt,
     {| pending := [];
        sent := EvHead 200 (plainHeaders CORS_ORIGIN)
                  :: chunkEvents
                       (match JSON_parse (text b) with
                        | Some parsed => textOf (caRagAnswer parsed (text b))
                        | None => text b
                        end)
                  ++ [EvEnd] |}).
Proof.
  intros Hok. unfold processCaRag. rewrite Hok. cbn [negb].
  unfold tryCatch, bind at 1, orThrow.
  destruct (JSON_parse (text b)) as [parsed|].
  - unfold ret at 1. cbv beta iota. fold (caRagAnswer parsed (text b)).
    rewrite head_end_fresh. reflexivity.
  - unfold throw. cbv beta iota. rewrite head_end_fresh. reflexivity.
Qed.

End WholeBodies.

(** ** The text of a value that is truthy *)

Lemma uint_chars_nil (u : Decimal.uint) : uint_chars u = [] -> u = Decimal.Nil.
Proof. destruct u; simpl; congruence. Qed.

Lemma N_to_jstring_not_nil (n : N) : N_to_jstring n <> [].
Proof.
  unfold N_to_jstring. intros H. apply uint_chars_nil in H.
  destruct n as [|p]; [discriminate|].
  exact (DecimalPos.Unsigned.to_uint_nonnil p H).
Qed.

Lemma stripTrailingZeros_not_nil (s : jstring) :
  s <> [] -> stripTrailingZeros s <> [].
Proof.
  intros Hs. unfold stripTrailingZeros.
  assert (Hrev : rev s <> []).
  { intros H. apply (f_equal (@rev N)) in H. rewrite rev_involutive in H.
    exact (Hs H). }
  revert Hrev. generalize (rev s) as r. clear.
  set (strip := fix strip (r : jstring) : jstring :=
                  match r with
                  | 48%N :: r' => match r' with [] => r | _ => strip r' end
                  | _ => r
                  end).
  assert (Hother : forall c r, c <> 48%N -> strip (c :: r) = c :: r).
  { intros c r Hc. destruct c as [|p]; [reflexivity|].
    do 6 (try (destruct p as [p|p|]; try reflexivity)).
    congruence. }
  assert (Hstrip : forall r : jstring, r <> [] -> strip r <> []).
  { induction r as [|c r IH]; [congruence|]. intros _.
    destruct (N.eq_dec c 48) as [->|Hc].
    - destruct r as [|d r]; [discriminate|].
      change (strip (48%N :: d :: r)) with (strip (d :: r)).
      apply IH. discriminate.
    - rewrite (Hother c r Hc). discriminate. }
  intros r Hr H. apply (f_equal (@rev N)) in H.
  rewrite rev_involutive in H. exact (Hstrip r Hr H).
Qed.

Lemma formatDigits_not_nil (digits : jstring) (n : Z) :
  digits <> [] -> formatDigits digits n <> [].
Proof.
  intros Hd. unfold formatDigits.
  repeat match goal with
         | |- (if ?c then _ else _) <> _ => destruct c
         end.
  - destruct digits; [congruence | discriminate].
  - intros H. apply (f_equal (@List.length N)) in H.
    rewrite !length_app in H. simpl in H. lia.
  - discriminate.
  - destruct digits as [|d [|d' ds]]; discriminate.
Qed.

Lemma NumberToString_not_nil (x : number) : NumberToString x <> [].
Proof.
  destruct x as [s|s| |s m e]; try discriminate.
  - destruct s; discriminate.
  - unfold NumberToString.
    repeat match goal with
           | |- (let '(_, _) := ?p in _) <> _ => destruct p
           end.
    intros H. apply app_eq_nil in H. destruct H as [_ H]. revert H.
    apply formatDigits_not_nil, stripTrailingZeros_not_nil,
      N_to_jstring_not_nil.
Qed.

Lemma orElse_false (a b : JSValue) : truthy a = false -> orElse a b = b.
Proof. intros H. unfold orElse. now rewrite H. Qed.

Lemma truthy_orElse (a b : JSValue) :
  truthy (orElse a b) = truthy a || truthy b.
Proof.
  unfold orElse. destruct (truthy a) eqn:Ha; [rewrite Ha|]; reflexivity.
Qed.

(** What the client is sent for a truthy value is not empty. *)
Lemma textOf_truthy (v : JSValue) : truthy v = true -> textOf v <> [].
Proof.
  unfold textOf, ResponseProcessors.stringOrJSON.
  destruct v as [| |flag|x|s|items|props]; simpl; try discriminate.
  - destruct flag; discriminate.
  - intros _. destruct (isFinite x); [apply NumberToString_not_nil | discriminate].
  - destruct s; discriminate.
Qed.

(** X5. On a successful response the chat processor answers 200, once, and
    does not throw, whatever the body is: a body that is no JSON goes out
    as it is; of a JSON body the first truthy one of
    [choices[0].message.content], [message], [answer] and [value] goes
    out, and [value] itself when none is truthy, a string as it is and
    anything else as its JSON text, [undefined] as no body at all. *)
Theorem chat_answers_every_body :
  forall (CORS_ORIGIN : jstring) (b : BackendResponse),
    ok b = true ->
    let run := ResponseProcessors.processChat CORS_ORIGIN b freshResponse in
    let content :=
      match JSON_parse (text b) with
      | Some parsed => textOf (chatContent parsed)
      | None => text b
      end in
    answers 200 content run
    /\ sent (snd run)
       = EvHead 200 (ResponseProcessors.textHeaders CORS_ORIGIN
                       "text/plain; charset=utf-8" b)
           :: chunkEvents content ++ [EvEnd]
    /\ (forall parsed,
          JSON_parse (text b) = Some parsed ->
          truthy (chatContent parsed) = false ->
          content = textOf (optGetLit parsed "value")).
Proof.
  intros cors b Hok run content. subst run.
  rewrite (processChat_run cors b Hok). fold content.
  split; [apply answers_head_body|]. split; [reflexivity|].
  intros parsed Hparse Hfalsy. subst content. rewrite Hparse.
  unfold chatContent in *. rewrite !truthy_orElse in Hfalsy.
  repeat (apply orb_false_elim in Hfalsy; destruct Hfalsy as [Hfalsy ?]).
  rewrite (@orElse_false (optGetLit (optGetLit (optGetLit
             (optGetLit parsed "choices") "0") "message") "content"))
    by assumption.
  rewrite (@orElse_false (optGetLit parsed "message")) by assumption.
  rewrite (@orElse_false (optGetLit parsed "answer")) by assumption.
  reflexivity.
Qed.

Lemma chat_answers_every_body_witness :
  answers 200 (js "null")
    (ResponseProcessors.processChat (js "*")
       {| status := 200; backendHeaders := [];
          body := Some [jsq "{'message':'','value':null}"] |}
       freshResponse).
Proof.
  exact (proj1 (@chat_answers_every_body (js "*")
                  {| status := 200; backendHeaders := [];
                     body := Some [jsq "{'message':'','value':null}"] |}
                  eq_refl)).
Defined.

(** X6. On a successful response the stateful-workflow processor answers 200,
    once, with a body that is empty only when the body of the backend is:
    the answer is the first truthy one of [state.chat.answer], [answer] and
    the raw text. *)
Theorem ca_rag_answer_is_empty_only_for_an_empty_body :
  forall (CORS_ORIGIN : jstring) (b : BackendResponse),
    ok b = true ->
    let run := ResponseProcessors.processCaRag CORS_ORIGIN b freshResponse in
    answers 200
      (match JSON_parse (text b) with
       | Some parsed => textOf (caRagAnswer parsed (text b))
       | None => text b
       end) run
    /\ (bodyOf (snd run) = [] <-> text b = []).
Proof.
  intros cors b Hok run. subst run.
  rewrite (processCaRag_run cors b Hok).
  split; [apply answers_head_body|].
  cbn [snd]. rewrite bodyOf_chunkEvents.
  destruct (JSON_parse (text b)) as [parsed|] eqn:Hparse; [|tauto].
  split.
  - destruct (truthy (caRagAnswer parsed (text b))) eqn:Htruthy.
    + intros Hempty. exfalso. revert Hempty. apply textOf_truthy, Htruthy.
    + unfold caRagAnswer in *. rewrite !truthy_orElse in Htruthy.
      repeat (apply orb_false_elim in Htruthy;
              destruct Htruthy as [Htruthy ?]).
      rewrite (@orElse_false (optGetLit (optGetLit (optGetLit parsed "state")
                                           "chat") "answer")) by assumption.
      rewrite (@orElse_false (optGetLit parsed "answer")) by assumption.
      intros Hempty. exact Hempty.
  - intros Hempty. rewrite Hempty in Hparse. discriminate Hparse.
Qed.

Lemma ca_rag_answer_is_empty_only_for_an_empty_body_witness :
  answers 200 (jsq "{'state':{'chat':{'answer':''}}}")
    (ResponseProcessors.processCaRag (js "*")
       {| status := 200; backendHeaders := [];
          body := Some [jsq "{'state':{'chat':{'answer':''}}}"] |}
       freshResponse).
Proof.
  exact (proj1 (@ca_rag_answer_is_empty_only_for_an_empty_body (js "*")
                  {| status := 200; backendHeaders := [];
                     body := Some [jsq "{'state':{'chat':{'answer':''}}}"] |}
                  eq_refl)).
Defined.

(** X7. On a successful response the generate processor sends the body of the
    backend on as it is, JSON or not, under the status 200 and the JSON
    content type; it hands the backend's [observability-trace-id] header on
    when that header is there and not empty, and adds no such header
    otherwise; so does the chat processor. The stateful-workflow processor
    never hands it on. *)
Theorem generate_forwards_the_body_untouched :
  forall (CORS_ORIGIN : jstring) (b : BackendResponse),
    ok b = true ->
    let traceId :=
      headersGet (js "observability-trace-id") (backendHeaders b) in
    let handedOn :=
      match traceId with
      | Some [] | None => None
      | Some id => Some id
      end in
    let generate :=
      ResponseProcessors.processGenerate CORS_ORIGIN b freshResponse in
    let chat := ResponseProcessors.processChat CORS_ORIGIN b freshResponse in
    let caRag := ResponseProcessors.processCaRag CORS_ORIGIN b freshResponse in
    answers 200 (text b) generate
    /\ headersGet (js "Content-Type") (headersOf (snd generate))
       = Some (js "application/json; charset=utf-8")
    /\ headersGet (js "Observability-Trace-Id") (headersOf (snd generate))
       = handedOn
    /\ headersGet (js "Observability-Trace-Id") (headersOf (snd chat))
       = handedOn
    /\ headersGet (js "Observability-Trace-Id") (headersOf (snd caRag)) = None.
Proof.
  intros cors b Hok traceId handedOn generate chat caRag.
  subst generate chat caRag.
  rewrite (processChat_run cors b Hok), (processCaRag_run cors b Hok).
  unfold ResponseProcessors.processGenerate. rewrite Hok. cbn [negb].
  rewrite head_end_fresh.
  split; [apply answers_head_body|]. cbn [snd headersOf sent].
  split; [reflexivity|].
  assert (Htrace :
    headersGet (js "Observability-Trace-Id")
      (ResponseProcessors.traceIdHeader b) = handedOn).
  { unfold ResponseProcessors.traceIdHeader. subst handedOn traceId.
    destruct (headersGet (js "observability-trace-id") (backendHeaders b))
      as [[|c id]|]; reflexivity. }
  repeat split; try exact Htrace.
Qed.

Lemma generate_forwards_the_body_untouched_witness :
  answers 200 (js "not json")
    (ResponseProcessors.processGenerate (js "*")
       {| status := 200;
          backendHeaders := [(js "observability-trace-id", js "t-1")];
          body := Some [js "not "; js "json"] |}
       freshResponse).
Proof.
  exact (proj1 (@generate_forwards_the_body_untouched (js "*")
                  {| status := 200;
                     backendHeaders := [(js "observability-trace-id", js "t-1")];
                     body := Some [js "not "; js "json"] |}
                  eq_refl)).
Defined.

(* ===================================================================== *)
(** * Properties of the validators of the settings *)
(* ===================================================================== *)

Section SettingsFacts.

Import SettingsValidation.

Lemma filter_nil_iff {A} (f : A -> bool) (l : list A) :
  filter f l = [] <-> forall x, In x l -> f x = false.
Proof.
  induction l as [|a l IH]; simpl; [tauto|].
  destruct (f a) eqn:Ha.
  - split; [discriminate|]. intros H. specialize (H a (or_introl eq_refl)).
    congruence.
  - rewrite IH. split.
    + intros H x [<-|Hx]; auto.
    + intros H x Hx. apply H. now right.
Qed.

Lemma includes_false (l : list jstring) (k : jstring) :
  includes l k = false <-> ~ In k l.
Proof.
  rewrite <- includes_In. destruct (includes l k); split; congruence.
Qed.

Lemma trim_cons_not_nil (s : jstring) : trim s <> [] -> s <> [].
Proof. intros H ->. apply H. reflexivity. Qed.

End SettingsFacts.

(** What the validator of the optional generation parameters does, case by
    case. *)
Lemma validateOptionalGenerationJson_cases (s : jstring) :
  let r := SettingsValidation.validateOptionalGenerationJson s in
  let reserved := SettingsValidation.CHAT_OPTIONAL_GENERATION_RESERVED_FIELDS in
  (trim s = [] /\ r = SettingsValidation.accepted)
  \/ (trim s <> [] /\ JSON_parse s = None
      /\ r = SettingsValidation.rejected (js "Invalid JSON format"))
  \/ (trim s <> []
      /\ (exists v, JSON_parse s = Some v
                    /\ SettingsValidation.notPlainObject v = true)
      /\ r = SettingsValidation.rejected
               (js "JSON must be a valid object (not array or null)"))
  \/ (trim s <> []
      /\ exists props,
           JSON_parse s = Some (JObj props)
           /\ match filter (includes reserved) (map fst props) with
              | [] => r = SettingsValidation.accepted
              | conflicting =>
                  r = SettingsValidation.rejected
                        (js "Cannot override reserved fields: "
                         ++ joinWith (js ", ") conflicting)
              end).
Proof.
  intros r reserved. subst r.
  unfold SettingsValidation.validateOptionalGenerationJson.
  destruct (trim s) as [|c t] eqn:Htrim; [left; split; reflexivity|].
  right. unfold SettingsValidation.orCatch.
  destruct (JSON_parse s) as [parsed|] eqn:Hparse;
    [|left; repeat split; discriminate].
  right.
  destruct parsed as [| |flag|x|str|items|props];
    try (left; split; [discriminate|]; split; [|reflexivity];
         eexists; split; reflexivity).
  right. split; [discriminate|]. exists props. split; [reflexivity|].
  cbn [SettingsValidation.notPlainObject Object_keys]. fold reserved.
  destruct (filter (includes reserved) (map fst props)); reflexivity.
Qed.

Lemma no_conflict_iff (reserved : list jstring) (props : properties) :
  filter (includes reserved) (map fst props) = []
  <-> forall k, In k (map fst props) -> ~ In k reserved.
Proof.
  rewrite filter_nil_iff. split; intros H k Hk.
  - apply includes_false, H, Hk.
  - apply includes_false, H, Hk.
Qed.

Lemma validateOptionalGenerationJson_accepts (s : jstring) :
  SettingsValidation.isValid
    (SettingsValidation.validateOptionalGenerationJson s) = true
  <-> (trim s = []
       \/ exists props,
            JSON_parse s = Some (JObj props)
            /\ forall k, In k (map fst props) ->
                 ~ In k SettingsValidation.CHAT_OPTIONAL_GENERATION_RESERVED_FIELDS).
Proof.
  destruct (validateOptionalGenerationJson_cases s)
    as [(Hblank & ->) | [(Hfull & Hbad & ->)
       | [(Hfull & (v & Hparse & Hnot) & ->) | (Hfull & props & Hparse & Hr)]]].
  - split; [now left | reflexivity].
  - split; [discriminate|]. intros [H|(props & H & _)]; congruence.
  - split; [discriminate|]. intros [H|(props & H & _)]; [congruence|].
    rewrite H in Hparse. injection Hparse as <-. discriminate Hnot.
  - destruct (filter _ (map fst props)) as [|k ks] eqn:Hf; rewrite Hr.
    + split; [|reflexivity]. intros _. right. exists props.
      split; [assumption|]. apply no_conflict_iff, Hf.
    + split; [discriminate|]. intros [H|(props' & H & Hfree)]; [congruence|].
      rewrite H in Hparse. injection Hparse as <-.
      apply no_conflict_iff in Hfree. congruence.
Qed.

(** X8. The validator of the optional generation parameters accepts a string
    exactly when it is blank or the JSON text of an object that has
    neither a [messages] nor a [stream] key. An object that has some of
    them is rejected with a message that lists the ones it has, in the
    order of its keys. *)
Theorem optional_generation_json_is_accepted_iff :
  forall (s : jstring),
    let r := SettingsValidation.validateOptionalGenerationJson s in
    (SettingsValidation.isValid r = true
     <-> (trim s = []
          \/ exists props,
               JSON_parse s = Some (JObj props)
               /\ forall k, In k (map fst props) ->
                    ~ In k SettingsValidation.CHAT_OPTIONAL_GENERATION_RESERVED_FIELDS))
    /\ (forall props,
          trim s <> [] ->
          JSON_parse s = Some (JObj props) ->
          let conflicting :=
            filter (includes
                      SettingsValidation.CHAT_OPTIONAL_GENERATION_RESERVED_FIELDS)
                   (map fst props) in
          conflicting <> [] ->
          r = SettingsValidation.rejected
                (js "Cannot override reserved fields: "
                 ++ joinWith (js ", ") conflicting)).
Proof.
  intros s r. split; [apply validateOptionalGenerationJson_accepts|].
  intros props Hfull Hparse conflicting Hconflict. subst r conflicting.
  destruct (validateOptionalGenerationJson_cases s)
    as [(Hblank & _) | [(_ & Hbad & _)
       | [(_ & (v & Hparse' & Hnot) & _) | (_ & props' & Hparse' & Hr)]]];
    try congruence.
  - rewrite Hparse in Hparse'. injection Hparse' as <-. discriminate Hnot.
  - rewrite Hparse in Hparse'. injection Hparse' as <-.
    destruct (filter _ (map fst props)); [congruence | exact Hr].
Qed.

Lemma optional_generation_json_is_accepted_iff_witness :
  SettingsValidation.validateOptionalGenerationJson
    (jsq "{'model':'m','stream':true,'messages':[]}")
  = SettingsValidation.rejected
      (js "Cannot override reserved fields: stream, messages").
Proof.
  refine (proj2 (optional_generation_json_is_accepted_iff
                   (jsq "{'model':'m','stream':true,'messages':[]}"))
            [(js "model", JStr (js "m")); (js "stream", JBool true);
             (js "messages", JArr [])] _ _ _).
  - vm_compute. discriminate.
  - vm_compute. reflexivity.
  - vm_compute. discriminate.
Defined.

(* ===================================================================== *)
(** * More on the payload builders *)
(* ===================================================================== *)

Section MergeFacts.

Import RequestTransformers.

Lemma lookup_includes (k : jstring) (props : properties) (v : JSValue) :
  lookup k props = Some v -> includes (map fst props) k = true.
Proof.
  induction props as [|[k' v'] rest IH]; [discriminate|].
  cbn [lookup map fst]. unfold includes. cbn [existsb].
  destruct (jstr_eqb k k'); [reflexivity|]. exact IH.
Qed.

(** Assignment never makes [__proto__] an own property. *)
Lemma assign_no_proto (o : object) (k : jstring) (v : JSValue) :
  lookup (js "__proto__") (own (assign o k v))
  = lookup (js "__proto__") (own o).
Proof.
  rewrite lookup_assign. destruct (jstr_eqb k (js "__proto__")) eqn:Hk;
    [reflexivity|].
  rewrite jstr_eqb_sym, Hk. reflexivity.
Qed.

Lemma merge_no_proto parsed keys payload :
  lookup (js "__proto__") (own (fold_left (mergeKey parsed) keys payload))
  = lookup (js "__proto__") (own payload).
Proof.
  revert payload. induction keys as [|key keys IH]; intros payload; simpl;
    [reflexivity|].
  rewrite IH. unfold mergeKey.
  destruct (negb (includes RESERVED_FIELDS key)); [|reflexivity].
  apply assign_no_proto.
Qed.

End MergeFacts.

(** X9. Parameters that the validator of the settings accepts are merged in
    full: for a string that is not blank and that the validator accepts,
    both chat builders return a payload that has every key of the
    parameters with the value the parameters give it, [__proto__] apart,
    beside the builder's own [messages] and [stream]. *)
Theorem accepted_parameters_reach_the_payload :
  forall (stream : bool) (messages : list JSValue) (useChatHistory : bool)
         (s : jstring),
    trim s <> [] ->
    SettingsValidation.isValid
      (SettingsValidation.validateOptionalGenerationJson s) = true ->
    let build := if stream then RequestTransformers.buildChatStreamPayload
                 else RequestTransformers.buildChatPayload in
    exists props payload,
      JSON_parse s = Some (JObj props)
      /\ build messages useChatHistory (Some s) = Normal payload
      /\ (forall key value,
            lookup key props = Some value ->
            key <> js "__proto__" ->
            lookup key (own payload) = Some value)
      /\ ownProp payload "messages"
         = Some (RequestTransformers.selectMessages messages useChatHistory)
      /\ ownProp payload "stream" = Some (JBool stream).
Proof.
  intros stream messages useChatHistory s Hblank Hvalid build.
  destruct (proj1 (validateOptionalGenerationJson_accepts s) Hvalid)
    as [Hnil | (props & Hparse & Hfree)]; [contradiction|].
  assert (Hbuild : build = RequestTransformers.buildChat stream)
    by (subst build; destruct stream; reflexivity).
  rewrite Hbuild; clear Hbuild build.
  exists props.
  unfold RequestTransformers.buildChat,
    RequestTransformers.mergeOptionalParams,
    RequestTransformers.parseOptionalParams.
  destruct s as [|c s]; [exfalso; apply Hblank; reflexivity|].
  destruct (trim (c :: s)) as [|t ts]; [congruence|].
  rewrite Hparse. cbn [Object_keys].
  eexists. split; [reflexivity|]. split; [reflexivity|]. split.
  - intros key value Hkey Hproto.
    rewrite merge_sets_others.
    + rewrite (lookup_includes key props Hkey). cbn [getValue].
      now rewrite Hkey.
    + apply includes_false. apply Hfree.
      apply includes_In. eapply lookup_includes, Hkey.
    + apply jstr_eqb_neq, Hproto.
  - unfold ownProp. rewrite !merge_keeps_reserved by reflexivity.
    split; reflexivity.
Qed.

Lemma accepted_parameters_reach_the_payload_witness :
  exists props payload,
    JSON_parse (jsq "{'top_p':0.9,'model':'m'}") = Some (JObj props)
    /\ RequestTransformers.buildChatPayload [] true
         (Some (jsq "{'top_p':0.9,'model':'m'}")) = Normal payload
    /\ (forall key value,
          lookup key props = Some value ->
          key <> js "__proto__" ->
          lookup key (own payload) = Some value)
    /\ ownProp payload "messages"
       = Some (RequestTransformers.selectMessages [] true)
    /\ ownProp payload "stream" = Some (JBool false).
Proof.
  refine (@accepted_parameters_reach_the_payload false [] true
            (jsq "{'top_p':0.9,'model':'m'}") _ _).
  - vm_compute. discriminate.
  - vm_compute. reflexivity.
Defined.

(** X10. Whatever the optional parameters are, the payload of a chat builder
    has no own [__proto__] property: a [__proto__] key of the parameters is
    assigned like any other and ends as the prototype of the payload or
    nowhere, so it is not among the keys that [JSON.stringify] writes. *)
Theorem payload_has_no_own_proto :
  forall (stream : bool) (messages : list JSValue) (useChatHistory : bool)
         (optionalParams : option jstring),
    let build := if stream then RequestTransformers.buildChatStreamPayload
                 else RequestTransformers.buildChatPayload in
    exists payload,
      build messages useChatHistory optionalParams = Normal payload
      /\ ownProp payload "__proto__" = None
      /\ ~ In (js "__proto__") (keysOf (JObj (own payload))).
Proof.
  intros stream messages useChatHistory optionalParams build.
  assert (Hbuild : build = RequestTransformers.buildChat stream)
    by (subst build; destruct stream; reflexivity).
  rewrite Hbuild; clear Hbuild build.
  assert (Hbase : lookup (js "__proto__")
            (own (RequestTransformers.basePayload messages useChatHistory stream))
          = None) by reflexivity.
  assert (Hkeys : forall props : properties,
            lookup (js "__proto__") props = None ->
            ~ In (js "__proto__") (map fst props)).
  { induction props as [|[k v] rest IH]; cbn [lookup map fst In]; [tauto|].
    destruct (jstr_eqb_spec (js "__proto__") k) as [<-|Hne]; [discriminate|].
    intros Hl [H|H]; [congruence | exact (IH Hl H)]. }
  assert (Hpayload : exists payload,
            RequestTransformers.buildChat stream messages useChatHistory
              optionalParams = Normal payload
            /\ lookup (js "__proto__") (own payload) = None).
  { unfold RequestTransformers.buildChat.
    destruct optionalParams as [[|c s]|];
      try (eexists; split; [reflexivity|]; assumption).
    destruct (trim (c :: s)); [eexists; split; [reflexivity | assumption]|].
    unfold RequestTransformers.mergeOptionalParams.
    destruct (Object_keys (RequestTransformers.parseOptionalParams (c :: s)));
      eexists; (split; [reflexivity|]); [|assumption].
    rewrite merge_no_proto. assumption. }
  destruct Hpayload as (payload & Hrun & Hproto).
  exists payload. split; [exact Hrun|]. split; [exact Hproto|].
  cbn [keysOf Object_keys]. apply Hkeys, Hproto.
Qed.

(* ===================================================================== *)
(** * The validator of the WebSocket parameters *)
(* ===================================================================== *)

Section WebSocketParamsFacts.

Import SettingsValidation.

Lemma reservedKeysCheck_passes (name : string) (reserved : list jstring)
    (section : JSValue) :
  reservedKeysCheck name reserved section = None <-> freeOf reserved section.
Proof.
  unfold reservedKeysCheck, freeOf.
  destruct section as [| |flag|x|str|items|props]; simpl;
    try tauto; try (split; [discriminate | tauto]).
  destruct (filter (includes reserved) (map fst props)) as [|k ks] eqn:Hf.
  - split; [|reflexivity]. intros _ k Hk. apply includes_false.
    revert k Hk. apply filter_nil_iff, Hf.
  - split; [discriminate|]. intros Hfree. exfalso.
    assert (Hin : In k (filter (includes reserved) (map fst props)))
      by (rewrite Hf; now left).
    apply filter_In in Hin. destruct Hin as [Hk Hres].
    apply includes_In in Hres. exact (Hfree k Hk Hres).
Qed.

Lemma reservedKeysCheck_rejects (name : string) (reserved : list jstring)
    (section : JSValue) (r : Result) :
  reservedKeysCheck name reserved section = Some r -> isValid r = false.
Proof.
  unfold reservedKeysCheck.
  destruct (notNullish section); [|discriminate].
  destruct (notPlainObject section); [intros [= <-]; reflexivity|].
  destruct (filter _ _); [discriminate | intros [= <-]; reflexivity].
Qed.

Lemma headersCheck_passes (section : JSValue) :
  headersCheck section = None <-> plainHeaderValues section.
Proof.
  unfold headersCheck, plainHeaderValues.
  destruct section as [| |flag|x|str|items|props]; simpl;
    try tauto; try (split; [discriminate | tauto]).
  destruct (find (fun kv => notStringOrNumber (snd kv)) props) as [[k v]|] eqn:Hf.
  - split; [discriminate|]. intros Hall. exfalso.
    apply find_some in Hf. destruct Hf as [Hin Hbad].
    specialize (Hall k v Hin). destruct v; simpl in Hbad; try discriminate;
      exact Hall.
  - split; [|reflexivity]. intros _ k v Hin.
    pose proof (find_none _ _ Hf (k, v) Hin) as Hgood.
    destruct v; simpl in Hgood; try discriminate; exact I.
Qed.

Lemma headersCheck_rejects (section : JSValue) (r : Result) :
  headersCheck section = Some r -> isValid r = false.
Proof.
  unfold headersCheck.
  destruct (notNullish section); [|discriminate].
  destruct (notPlainObject section); [intros [= <-]; reflexivity|].
  destruct (find _ _); [intros [= <-]; reflexivity | discriminate].
Qed.

End WebSocketParamsFacts.

(** X11. The validator of the WebSocket parameters accepts a string exactly
    when it is blank or the JSON text of an object whose keys are among
    [query], [headers] and [payload], whose [query] and [payload], when
    there and not [null], are objects without a reserved key, and whose
    [headers], when there and not [null], is an object of strings and
    numbers. *)
Theorem websocket_params_are_accepted_iff :
  forall (s : jstring),
    SettingsValidation.isValid
      (SettingsValidation.validateWebSocketCustomParams s) = true
    <-> (trim s = []
         \/ exists props,
              JSON_parse s = Some (JObj props)
              /\ (forall k, In k (map fst props) ->
                    In k SettingsValidation.WEBSOCKET_CUSTOM_PARAMS_TOP_KEYS)
              /\ freeOf SettingsValidation.WEBSOCKET_QUERY_RESERVED_KEYS
                   (getValue (JObj props) (js "query"))
              /\ plainHeaderValues (getValue (JObj props) (js "headers"))
              /\ freeOf SettingsValidation.WEBSOCKET_PAYLOAD_RESERVED_KEYS
                   (getValue (JObj props) (js "payload"))).
Proof.
  intros s. unfold SettingsValidation.validateWebSocketCustomParams.
  destruct (trim s) as [|c t] eqn:Htrim.
  - split; [now left | reflexivity].
  - unfold SettingsValidation.orCatch.
    destruct (JSON_parse s) as [parsed|] eqn:Hparse;
      [|split; [discriminate
               | intros [H|(props & H & _)]; discriminate]].
    destruct parsed as [| |flag|x|str|items|props];
      try (split; [discriminate
                  | intros [H|(props' & H & _)]; discriminate]).
    cbn [SettingsValidation.notPlainObject Object_keys].
    set (query := getValue (JObj props) (js "query")).
    set (hdrs := getValue (JObj props) (js "headers")).
    set (payload := getValue (JObj props) (js "payload")).
    destruct (filter (fun k => negb (includes
                SettingsValidation.WEBSOCKET_CUSTOM_PARAMS_TOP_KEYS k))
                (map fst props)) as [|k ks] eqn:Hextra.
    + assert (Htop : forall k, In k (map fst props) ->
                In k SettingsValidation.WEBSOCKET_CUSTOM_PARAMS_TOP_KEYS).
      { intros k Hk. apply includes_In.
        pose proof (proj1 (filter_nil_iff _ _) Hextra k Hk) as H.
        now apply negb_false_iff in H. }
      destruct (SettingsValidation.reservedKeysCheck "query"
                  SettingsValidation.WEBSOCKET_QUERY_RESERVED_KEYS query)
        as [r|] eqn:Hq.
      { split.
        - intros H. rewrite (reservedKeysCheck_rejects _ _ _ Hq) in H.
          discriminate.
        - intros [H|(props' & H & _ & Hfree & _)]; [discriminate|].
          injection H as <-. apply reservedKeysCheck_passes with (name := "query") in Hfree.
          fold query in Hfree. congruence. }
      destruct (SettingsValidation.headersCheck hdrs) as [r|] eqn:Hh.
      { split.
        - intros H. rewrite (headersCheck_rejects _ Hh) in H. discriminate.
        - intros [H|(props' & H & _ & _ & Hplain & _)]; [discriminate|].
          injection H as <-. apply headersCheck_passes in Hplain.
          fold hdrs in Hplain. congruence. }
      destruct (SettingsValidation.reservedKeysCheck "payload"
                  SettingsValidation.WEBSOCKET_PAYLOAD_RESERVED_KEYS payload)
        as [r|] eqn:Hp.
      { split.
        - intros H. rewrite (reservedKeysCheck_rejects _ _ _ Hp) in H.
          discriminate.
        - intros [H|(props' & H & _ & _ & _ & Hfree)]; [discriminate|].
          injection H as <-.
          apply reservedKeysCheck_passes with (name := "payload") in Hfree.
          fold payload in Hfree. congruence. }
      split; [|reflexivity]. intros _. right. exists props.
      split; [reflexivity|]. split; [exact Htop|].
      split; [eapply reservedKeysCheck_passes, Hq|].
      split; [apply headersCheck_passes, Hh|].
      eapply reservedKeysCheck_passes, Hp.
    + split; [discriminate|].
      intros [H|(props' & H & Htop & _)]; [discriminate|]. injection H as <-.
      assert (Hin : In k (filter (fun k => negb (includes
                SettingsValidation.WEBSOCKET_CUSTOM_PARAMS_TOP_KEYS k))
                (map fst props))) by (rewrite Hextra; now left).
      apply filter_In in Hin. destruct Hin as [Hk Hnot].
      apply negb_true_iff, includes_false in Hnot.
      exfalso. exact (Hnot (Htop k Hk)).
Qed.

Lemma websocket_params_are_accepted_iff_witness :
  trim (jsq "{'query':{'tenant':'a'},'headers':{'X-Tenant':1}}") = []
  \/ exists props,
       JSON_parse (jsq "{'query':{'tenant':'a'},'headers':{'X-Tenant':1}}")
       = Some (JObj props)
       /\ (forall k, In k (map fst props) ->
             In k SettingsValidation.WEBSOCKET_CUSTOM_PARAMS_TOP_KEYS)
       /\ freeOf SettingsValidation.WEBSOCKET_QUERY_RESERVED_KEYS
            (getValue (JObj props) (js "query"))
       /\ plainHeaderValues (getValue (JObj props) (js "headers"))
       /\ freeOf SettingsValidation.WEBSOCKET_PAYLOAD_RESERVED_KEYS
            (getValue (JObj props) (js "payload")).
Proof.
  refine (proj1 (websocket_params_are_accepted_iff
                   (jsq "{'query':{'tenant':'a'},'headers':{'X-Tenant':1}}")) _).
  vm_compute. reflexivity.
Defined.

(* ===================================================================== *)
(** * The [key=value] fallback of the optional parameters *)
(* ===================================================================== *)

(** ** Trimming, again *)

Lemma trimEnd_idempotent (s : jstring) : trimEnd (trimEnd s) = trimEnd s.
Proof.
  induction s as [|c s IH]; [reflexivity|]. cbn [trimEnd].
  destruct (trimEnd s) as [|x t] eqn:Ht.
  - destruct (isWhiteSpace c) eqn:Hc; [reflexivity|].
    cbn [trimEnd]. now rewrite Hc.
  - cbn [trimEnd]. cbn [trimEnd] in IH. rewrite IH. reflexivity.
Qed.

Lemma trimStart_head (s : jstring) :
  match trimStart s with
  | [] => True
  | c :: _ => isWhiteSpace c = false
  end.
Proof.
  induction s as [|c s IH]; [exact I|]. cbn [trimStart].
  destruct (isWhiteSpace c) eqn:Hc; [exact IH | exact Hc].
Qed.

Lemma trimEnd_keeps_head (c : N) (s : jstring) :
  isWhiteSpace c = false -> exists t, trimEnd (c :: s) = c :: t.
Proof.
  intros Hc. cbn [trimEnd]. destruct (trimEnd s) as [|x t].
  - rewrite Hc. now exists [].
  - now exists (x :: t).
Qed.

Lemma trim_idempotent (s : jstring) : trim (trim s) = trim s.
Proof.
  unfold trim. pose proof (trimStart_head s) as Hhead.
  destruct (trimStart s) as [|c y]; [reflexivity|].
  destruct (@trimEnd_keeps_head c y Hhead) as (t & Ht).
  rewrite Ht. cbn [trimStart]. rewrite Hhead, <- Ht.
  apply trimEnd_idempotent.
Qed.

Lemma trimStart_sub (s : jstring) (c : N) : In c (trimStart s) -> In c s.
Proof.
  induction s as [|x s IH]; [intros H; exact H|]. cbn [trimStart].
  destruct (isWhiteSpace x); [intros H; right; apply IH, H | intros H; exact H].
Qed.

Lemma trimEnd_sub (s : jstring) (c : N) : In c (trimEnd s) -> In c s.
Proof.
  induction s as [|x s IH]; [intros H; exact H|]. cbn [trimEnd].
  destruct (trimEnd s) as [|y t].
  - destruct (isWhiteSpace x); [intros []|]. intros [<-|[]]. now left.
  - intros [<-|H]; [now left | right; apply IH, H].
Qed.

Lemma trim_sub (s : jstring) (c : N) : In c (trim s) -> In c s.
Proof. intros H. apply trimStart_sub, trimEnd_sub, H. Qed.

(** ** What a pair adds *)

Section PairFacts.

Import RequestTransformers.

Lemma Forall_replaceProp (Q : jstring * JSValue -> Prop) k v props :
  Forall Q props -> Q (k, v) -> Forall Q (replaceProp k v props).
Proof.
  intros Hall Hkv. induction Hall as [|[k' v'] rest Hhead Hrest IH];
    cbn [replaceProp]; [constructor|].
  destruct (jstr_eqb_spec k k') as [<-|Hne]; constructor; assumption.
Qed.

Lemma Forall_insertIndex (Q : jstring * JSValue -> Prop) i k v props :
  Forall Q props -> Q (k, v) -> Forall Q (insertIndex i k v props).
Proof.
  intros Hall Hkv. induction Hall as [|[k' v'] rest Hhead Hrest IH];
    cbn [insertIndex]; [repeat constructor; assumption|].
  destruct (arrayIndex k') as [i'|]; [destruct (i' <? i)%N|];
    repeat constructor; assumption.
Qed.

Lemma Forall_defineProp (Q : jstring * JSValue -> Prop) k v props :
  Forall Q props -> Q (k, v) -> Forall Q (defineProp props k v).
Proof.
  intros Hall Hkv. unfold defineProp.
  destruct (lookup k props); [apply Forall_replaceProp; assumption|].
  destruct (arrayIndex k); [apply Forall_insertIndex; assumption|].
  apply Forall_app. split; [assumption | repeat constructor; assumption].
Qed.

Lemma coerceValue_coerced (value : jstring) :
  cleanText value -> coerced (coerceValue value).
Proof.
  intros Hclean. unfold coerceValue.
  destruct (jstr_eqb_spec value (js "true")) as [->|Ht]; [exact I|].
  destruct (jstr_eqb_spec value (js "false")) as [->|Hf]; [exact I|].
  destruct (isNaN (StringToNumber value)) eqn:Hnan; cbn [negb coerced].
  - repeat split; try assumption; apply Hclean.
  - exact Hnan.
Qed.

Lemma cleanText_piece (s pair piece : jstring) :
  In pair (split (ch ",") s) ->
  In piece (split (ch "=") pair) ->
  trim piece <> [] ->
  cleanText (trim piece).
Proof.
  intros Hpair Hpiece Hne. repeat split.
  - exact Hne.
  - apply trim_idempotent.
  - intros Hin. apply trim_sub in Hin.
    pose proof (split_pieces_no_sep (ch ",") s) as Hall.
    rewrite Forall_forall in Hall. apply (Hall pair Hpair).
    eapply split_pieces; eassumption.
  - intros Hin. apply trim_sub in Hin.
    pose proof (split_pieces_no_sep (ch "=") pair) as Hall.
    rewrite Forall_forall in Hall. exact (Hall piece Hpiece Hin).
Qed.

Lemma addPair_keeps (s pair : jstring) (params : object) :
  In pair (split (ch ",") s) ->
  Forall pairOk (own params) ->
  Forall pairOk (own (addPair params pair)).
Proof.
  intros Hpair Hall. unfold addPair.
  destruct (split (ch "=") pair) as [|p0 [|p1 rest]] eqn:Hsplit;
    cbn [map nth nth_error]; try assumption.
  destruct (trim p0) as [|k0 k] eqn:Hk; [destruct (trim p1); assumption|].
  destruct (trim p1) as [|v0 v] eqn:Hv; [assumption|].
  assert (Hkey : cleanText (k0 :: k)).
  { rewrite <- Hk. apply (cleanText_piece s pair p0 Hpair);
      [rewrite Hsplit; now left | rewrite Hk; discriminate]. }
  assert (Hvalue : cleanText (v0 :: v)).
  { rewrite <- Hv. apply (cleanText_piece s pair p1 Hpair);
      [rewrite Hsplit; right; now left | rewrite Hv; discriminate]. }
  unfold assign.
  destruct (jstr_eqb_spec (k0 :: k) (js "__proto__")) as [Hproto|Hproto].
  - pose proof (coerceValue_coerced Hvalue) as Hc.
    destruct (coerceValue (v0 :: v)); try assumption; destruct Hc.
  - cbn [own]. apply Forall_defineProp; [assumption|].
    repeat split; try apply Hkey; try assumption.
    apply coerceValue_coerced, Hvalue.
Qed.

End PairFacts.

Lemma split_snoc (sep : N) (a b : jstring) :
  split sep (a ++ sep :: b) = split sep a ++ split sep b.
Proof.
  induction a as [|c a IH]; cbn [app split].
  - rewrite N.eqb_refl. reflexivity.
  - rewrite IH. destruct (N.eqb c sep); [reflexivity|].
    pose proof (split_not_nil sep a) as Hne.
    destruct (split sep a) as [|l ls]; [congruence | reflexivity].
Qed.

Section PairReading.

Import RequestTransformers.

Lemma addPair_keyAndValue (params : object) (pair : jstring) :
  addPair params pair
  = match keyAndValue pair with
    | Some (key, value) => assign params key (coerceValue value)
    | None => params
    end.
Proof.
  unfold addPair, keyAndValue.
  destruct (map trim (split (ch "=") pair)) as [|[|k0 k] [|[|v0 v] rest]];
    reflexivity.
Qed.

(** The keys an object has after one more pair. *)
Lemma addPair_keys (params : object) (pair key : jstring) :
  lookup key (own (addPair params pair)) <> None
  <-> lookup key (own params) <> None
      \/ key <> js "__proto__"
         /\ exists value, keyAndValue pair = Some (key, value).
Proof.
  rewrite addPair_keyAndValue.
  destruct (keyAndValue pair) as [[k v]|].
  - rewrite lookup_assign.
    destruct (jstr_eqb_spec k (js "__proto__")) as [Hproto|Hproto].
    + split; [now left|]. intros [H|(Hne & value & Heq)]; [exact H|].
      inversion Heq; subst. contradiction.
    + destruct (jstr_eqb_spec key k) as [->|Hne].
      * split; [|discriminate]. intros _. right.
        split; [exact Hproto | now exists v].
      * split; [now left|]. intros [H|(_ & value & Heq)]; [exact H|].
        inversion Heq; subst. contradiction.
  - split; [now left|]. intros [H|(_ & value & Heq)]; [exact H | discriminate].
Qed.

Lemma fold_addPair_keys (pairs : list jstring) :
  forall (params : object) (key : jstring),
    lookup key (own (fold_left addPair pairs params)) <> None
    <-> lookup key (own params) <> None
        \/ key <> js "__proto__"
           /\ exists pair value,
                In pair pairs /\ keyAndValue pair = Some (key, value).
Proof.
  induction pairs as [|pair pairs IH]; intros params key; cbn [fold_left].
  - split; [now left|]. intros [H|(_ & pair & _ & [] & _)]. exact H.
  - rewrite IH, addPair_keys. split.
    + intros [[H|(Hne & value & Heq)]|(Hne & p & value & Hin & Heq)].
      * now left.
      * right. split; [exact Hne|]. exists pair, value. split; [now left | exact Heq].
      * right. split; [exact Hne|]. exists p, value. split; [now right | exact Heq].
    + intros [H|(Hne & p & value & [<-|Hin] & Heq)].
      * left. now left.
      * left. right. split; [exact Hne | now exists value].
      * right. split; [exact Hne|]. now exists p, value.
Qed.

End PairReading.

(** X12. Whatever the string, the object that the [key=value] fallback
    builds has a key exactly when some pair of the string has that key and
    a value, both not empty once trimmed, and the key is not [__proto__]:
    a pair without a key or without a value adds nothing. Its keys are
    trimmed, not empty, free of [,] and [=] and different from
    [__proto__], and its values are booleans, numbers other than NaN, and
    trimmed texts that read as neither. *)
Theorem fallback_pairs_are_clean :
  forall (s : jstring),
    let props := match RequestTransformers.parseKeyValueList s with
                 | JObj props => props
                 | _ => []
                 end in
    (forall (key : jstring) (value : JSValue),
        In (key, value) props ->
        cleanText key /\ key <> js "__proto__" /\ coerced value)
    /\ (forall key : jstring,
          lookup key props <> None
          <-> key <> js "__proto__"
              /\ exists pair value,
                   In pair (split (ch ",") s)
                   /\ keyAndValue pair = Some (key, value))
    /\ (forall pair : jstring,
          ~ In (ch ",") pair ->
          keyAndValue pair = None ->
          RequestTransformers.parseKeyValueList (s ++ js "," ++ pair)
          = RequestTransformers.parseKeyValueList s).
Proof.
  intros s props. subst props.
  unfold RequestTransformers.parseKeyValueList. split; [|split].
  - intros key value Hin.
    assert (Hfold : forall pairs params,
              (forall pair, In pair pairs -> In pair (split (ch ",") s)) ->
              Forall pairOk (own params) ->
              Forall pairOk
                (own (fold_left RequestTransformers.addPair pairs params))).
    { induction pairs as [|pair pairs IH]; intros params Hsub Hall;
        [exact Hall|].
      cbn [fold_left]. apply IH.
      - intros p Hp. apply Hsub. now right.
      - apply (@addPair_keeps s pair params);
          [apply Hsub; now left | exact Hall]. }
    specialize (Hfold (split (ch ",") s) (newObject []) (fun _ H => H)
                  (Forall_nil _)).
    rewrite Forall_forall in Hfold. exact (Hfold (key, value) Hin).
  - intros key. rewrite fold_addPair_keys. split.
    + intros [H|H]; [exfalso; apply H; reflexivity | exact H].
    + intros H. now right.
  - intros pair Hcomma Hnone.
    change (js "," ++ pair) with (ch "," :: pair).
    rewrite split_snoc, (split_no_sep _ _ Hcomma), fold_left_app.
    cbn [fold_left]. rewrite addPair_keyAndValue, Hnone. reflexivity.
Qed.

Lemma fallback_pairs_are_clean_witness :
  (cleanText (js "top_p") /\ js "top_p" <> js "__proto__"
   /\ coerced (JNum (StringToNumber (js "0.9"))))
  /\ RequestTransformers.parseKeyValueList
       (js " top_p = 0.9 , =1" ++ js "," ++ js " seed= ")
     = RequestTransformers.parseKeyValueList (js " top_p = 0.9 , =1").
Proof.
  split.
  - refine (proj1 (@fallback_pairs_are_clean (js " top_p = 0.9 , =1, seed= "))
              (js "top_p") (JNum (StringToNumber (js "0.9"))) _).
    vm_compute. left. reflexivity.
  - refine (proj2 (proj2 (@fallback_pairs_are_clean (js " top_p = 0.9 , =1")))
              (js " seed= ") _ eq_refl).
    vm_compute. intuition discriminate.
Defined.

(** ** One more pair *)

(** X13. A pair [key=value] put after a list of pairs sets [key] to what the
    value reads as and leaves every other key as it was: of two pairs with
    one key the later one wins. *)
Theorem fallback_last_pair_wins :
  forall (s key value : jstring),
    cleanText key -> cleanText value -> key <> js "__proto__" ->
    let before := RequestTransformers.parseKeyValueList s in
    let after :=
      RequestTransformers.parseKeyValueList
        (s ++ js "," ++ key ++ js "=" ++ value) in
    getValue after key = RequestTransformers.coerceValue value
    /\ (forall other, other <> key ->
          getValue after other = getValue before other)
    /\ (JSON_parse (s ++ js "," ++ key ++ js "=" ++ value) = None ->
        RequestTransformers.parseOptionalParams
          (s ++ js "," ++ key ++ js "=" ++ value) = after).
Proof.
  intros s key value Hkey Hvalue Hproto before after.
  assert (Hfallback :
    JSON_parse (s ++ js "," ++ key ++ js "=" ++ value) = None ->
    RequestTransformers.parseOptionalParams
      (s ++ js "," ++ key ++ js "=" ++ value) = after).
  { intros Hbad. unfold RequestTransformers.parseOptionalParams.
    rewrite Hbad.
    destruct (s ++ js "," ++ key ++ js "=" ++ value) as [|c t] eqn:Htext.
    - destruct s; discriminate.
    - destruct (trim (c :: t)) eqn:Htrim; [|reflexivity].
      exfalso. apply trim_nil_blank in Htrim. rewrite Forall_forall in Htrim.
      assert (Hin : In (ch ",") (c :: t)).
      { rewrite <- Htext. apply in_or_app. right. now left. }
      specialize (Htrim _ Hin). discriminate Htrim. }
  refine ((fun H => conj (proj1 H) (conj (proj2 H) Hfallback)) _).
  clear Hfallback.
  subst before after. unfold RequestTransformers.parseKeyValueList.
  change (js "," ++ key ++ js "=" ++ value)
    with (ch "," :: key ++ ch "=" :: value).
  rewrite split_snoc, fold_left_app.
  destruct Hkey as (Hk0 & Hktrim & Hkcomma & Hkeq).
  destruct Hvalue as (Hv0 & Hvtrim & Hvcomma & Hveq).
  rewrite (@split_no_sep (ch ",") (key ++ ch "=" :: value)).
  2:{ rewrite in_app_iff. intros [H|[H|H]]; [tauto | discriminate H | tauto]. }
  cbn [fold_left].
  set (params := fold_left RequestTransformers.addPair (split (ch ",") s)
                   (newObject [])).
  assert (Hadd : RequestTransformers.addPair params (key ++ ch "=" :: value)
                 = assign params key (RequestTransformers.coerceValue value)).
  { unfold RequestTransformers.addPair.
    rewrite split_line, split_no_sep by assumption.
    cbn [map nth nth_error]. rewrite Hktrim, Hvtrim.
    destruct key; [congruence|]. destruct value; [congruence|]. reflexivity. }
  rewrite Hadd. cbn [getValue]. split.
  - rewrite lookup_assign, (jstr_eqb_neq Hproto), jstr_eqb_refl. reflexivity.
  - intros other Hother.
    rewrite lookup_assign, (jstr_eqb_neq Hproto), (jstr_eqb_neq Hother).
    reflexivity.
Qed.

Lemma fallback_last_pair_wins_witness :
  getValue (RequestTransformers.parseKeyValueList
              (js "seed=1,top_p=0.5" ++ js "," ++ js "seed" ++ js "=" ++ js "7"))
    (js "seed")
  = RequestTransformers.coerceValue (js "7").
Proof.
  refine (proj1 (@fallback_last_pair_wins (js "seed=1,top_p=0.5") (js "seed")
                   (js "7") _ _ _)).
  - vm_compute. intuition discriminate.
  - vm_compute. intuition discriminate.
  - vm_compute. discriminate.
Defined.

(* ===================================================================== *)
(** * Payloads and error bodies read back *)
(* ===================================================================== *)

(** The JSON text of an object with one string in it, as a prefix, the
    quoted string and a suffix, is parsed back to the object. *)
Ltac read_back Hwf :=
  unfold JSON_parse;
  erewrite scan_around_string;
    [| vm_compute; reflexivity | vm_compute; reflexivity | exact Hwf];
  reflexivity.

Lemma stringify_generate (message : jstring) :
  JSON_stringify (RequestTransformers.buildGeneratePayload message)
  = Some (jsq "{'input_message':" ++ QuoteJSONString message ++ js "}").
Proof.
  unfold RequestTransformers.buildGeneratePayload.
  erewrite stringify_one; reflexivity.
Qed.

Lemma stringify_caRag (message : jstring) :
  JSON_stringify (RequestTransformers.buildCaRagPayload message)
  = Some (jsq "{'state':{'chat':{'question':"
          ++ QuoteJSONString message ++ js "}}}").
Proof.
  unfold RequestTransformers.buildCaRagPayload.
  erewrite stringify_one; [|reflexivity|].
  2:{ apply stringify_one; [reflexivity|]. apply stringify_one; reflexivity. }
  rewrite <- !app_assoc. reflexivity.
Qed.

(** X14. The payloads of the generate routes and of the stateful-workflow route
    survive their way to the backend as JSON: whatever the message is
    (quotes, backslashes, control characters, line ends, lone surrogates),
    the JSON text of the payload is parsed back to the payload, message
    included. The two generate builders build the same payload. *)
Theorem payloads_are_read_back :
  forall (message : jstring),
    wellFormed message ->
    readBack (RequestTransformers.buildGeneratePayload message)
    = Some (RequestTransformers.buildGeneratePayload message)
    /\ readBack (RequestTransformers.buildCaRagPayload message)
       = Some (RequestTransformers.buildCaRagPayload message)
    /\ RequestTransformers.buildGenerateStreamPayload message
       = RequestTransformers.buildGeneratePayload message.
Proof.
  intros message Hwf. unfold readBack.
  rewrite stringify_generate, stringify_caRag.
  split; [read_back Hwf|]. split; [read_back Hwf | reflexivity].
Qed.

Lemma payloads_are_read_back_witness :
  readBack (RequestTransformers.buildCaRagPayload
              (jsq "say 'hi'" ++ [newline; 55357%N]))
  = Some (RequestTransformers.buildCaRagPayload
            (jsq "say 'hi'" ++ [newline; 55357%N])).
Proof.
  refine (proj1 (proj2 (@payloads_are_read_back
                          (jsq "say 'hi'" ++ [newline; 55357%N]) _))).
  unfold wellFormed. repeat constructor.
Defined.

(* ===================================================================== *)
(** * Every request is answered once *)
(* ===================================================================== *)

Section ProcessorsBehave.

Import ResponseProcessors.

Variable cors : jstring.

Lemma settled_head_body (st : Z) (hs : headers) (content : jstring) :
  settled st {| pending := []; sent := EvHead st hs :: chunkEvents content ++ [EvEnd] |}.
Proof.
  exists hs. destruct content as [|c content];
    [exists [] | exists [c :: content]]; reflexivity.
Qed.

Lemma behaves_whole (p : BackendResponse -> Eff Response unit) :
  (forall b, exists st hs content,
      p b freshResponse
      = (Normal tt,
         {| pending := []; sent := EvHead st hs :: chunkEvents content ++ [EvEnd] |})) ->
  behaves p.
Proof.
  intros H b. left. destruct (H b) as (st & hs & content & ->).
  exists st. split; [reflexivity | apply settled_head_body].
Qed.

Lemma behaves_processChat : behaves (processChat cors).
Proof.
  apply behaves_whole. intros b. destruct (ok b) eqn:Hok.
  - rewrite (processChat_run cors b Hok). eexists _, _, _. reflexivity.
  - unfold processChat. rewrite Hok. cbn [negb]. rewrite mirrorFailure_fresh.
    eexists _, _, _. reflexivity.
Qed.

Lemma behaves_processCaRag : behaves (processCaRag cors).
Proof.
  apply behaves_whole. intros b. destruct (ok b) eqn:Hok.
  - rewrite (processCaRag_run cors b Hok). eexists _, _, _. reflexivity.
  - unfold processCaRag. rewrite Hok. cbn [negb]. rewrite mirrorFailure_fresh.
    eexists _, _, _. reflexivity.
Qed.

Lemma behaves_processGenerate : behaves (processGenerate cors).
Proof.
  apply behaves_whole. intros b. unfold processGenerate.
  destruct (ok b) eqn:Hok; cbn [negb].
  - rewrite head_end_fresh. eexists _, _, _. reflexivity.
  - rewrite mirrorFailure_fresh. eexists _, _, _. reflexivity.
Qed.

Lemma behaves_processStream (lineBody : jstring -> Eff Response control) :
  (forall line, saysOrEnds (lineBody line)) ->
  behaves (processStream cors lineBody).
Proof.
  intros Hbody b. destruct (ok b) eqn:Hok.
  - destruct (body b) as [chunks|] eqn:Hb.
    + left. exists 200%Z.
      destruct (@processStream_settles cors lineBody Hbody b chunks Hok Hb)
        as (ws & ->).
      split; [reflexivity|]. eexists _, ws. reflexivity.
    + right. exists TypeError. unfold processStream. rewrite Hok, Hb.
      split; [reflexivity|]. right. eexists _, _, []. reflexivity.
  - left. exists (status b). unfold processStream. rewrite Hok. cbn [negb].
    rewrite mirrorFailure_fresh. split; [reflexivity | apply settled_head_body].
Qed.

End ProcessorsBehave.

(** Ending a response that has begun, and answering a fresh one. *)
Lemma end_settles (data : option jstring) (r : Response) :
  started r ->
  exists st r',
    res.end_ data r = (Normal tt, r') /\ settled st r'.
Proof.
  destruct r as [p evs]. intros (st & hs & ws & H). cbn [sent] in H. subst evs.
  exists st. unfold res.end_, writableEnded. cbn [sent existsb isEnd orb].
  rewrite existsb_isEnd_writes. unfold implicitHead, headersSent. cbn [sent].
  eexists. split; [reflexivity|]. unfold emit. cbn [sent].
  exists hs.
  exists (ws ++ match data with Some (c :: d) => [c :: d] | _ => [] end).
  cbn [app]. rewrite map_app, <- app_assoc.
  destruct data as [[|c d]|]; reflexivity.
Qed.

Lemma head_end_settles (st : Z) (hs : headers) (data : option jstring)
    (r : Response) :
  sent r = [] ->
  exists r',
    bind (res.writeHead st hs) (fun _ => res.end_ data) r = (Normal tt, r')
    /\ settled st r'.
Proof.
  destruct r as [p evs]. cbn [sent]. intros ->.
  eexists. split; [reflexivity|]. cbn.
  exists (p ++ hs).
  exists (match data with Some (c :: d) => [c :: d] | _ => [] end).
  destruct data as [[|c d]|]; reflexivity.
Qed.

Section GatewaySettles.

Import Server.

Context {Backend : Type}.
Variable answer : Backend -> FetchCall -> FetchResult * Backend.
Variable cfg : Config.

(** The [catch] blocks of the helpers answer a response that is fresh or
    has begun. *)
Lemma gatewayError_settles (st : Z) (data : option jstring) (w : World Backend) :
  sent (response w) = [] \/ started (response w) ->
  exists rp status,
    bind (@headersSentNow Backend) (fun sent =>
      bind (if negb sent then onResponse (res.writeHead st jsonContentType)
            else ret tt)
        (fun _ => onResponse (res.end_ data))) w
    = (Normal tt, withResponse w rp)
    /\ settled status rp.
Proof.
  intros Hstate. unfold bind at 1, headersSentNow.
  destruct Hstate as [Hfresh | Hbegun].
  - destruct (@head_end_settles st jsonContentType data (response w) Hfresh)
      as (rp & Hrun & Hsettled).
    exists rp, st. split; [|exact Hsettled].
    unfold headersSent. rewrite Hfresh. cbn [negb].
    unfold bind in *. unfold onResponse at 1.
    destruct (res.writeHead st jsonContentType (response w)) as [[[]|e] r1];
      [|discriminate Hrun].
    unfold onResponse. cbn [response]. rewrite Hrun. reflexivity.
  - destruct (@end_settles data (response w) Hbegun)
      as (status & rp & Hrun & Hsettled).
    exists rp, status. split; [|exact Hsettled].
    destruct Hbegun as (st0 & hs0 & ws & Hsent).
    unfold headersSent. rewrite Hsent. cbn [negb].
    unfold bind, ret, onResponse. rewrite Hrun. destruct w; reflexivity.
Qed.

(** The forwarding helper, on a fresh response, answers the request: it
    returns, with one call of [fetch] done and the response answered. *)
Lemma doFetchAndProcess_settles req targetUrl processor (w : World Backend) :
  behaves processor ->
  response w = freshResponse ->
  exists rp status,
    doFetchAndProcess answer req targetUrl processor w
    = (Normal tt,
       {| response := rp;
          initializedCaRagConversations := initializedCaRagConversations w;
          out := out w ++ [Fetched (forwardCall req targetUrl)
                             (fst (answer (backend w) (forwardCall req targetUrl)))];
          backend := snd (answer (backend w) (forwardCall req targetUrl)) |})
    /\ settled status rp.
Proof.
  intros Hp Hfresh. unfold doFetchAndProcess, tryCatch, bind at 1, fetch.
  destruct (answer (backend w) (forwardCall req targetUrl)) as [[br|m] b].
  - unfold onResponse at 1. cbn [response]. rewrite Hfresh.
    destruct (Hp br) as [(st & Hnormal & Hsettled) | (e & Hthrown & Hstate)].
    + destruct (processor br freshResponse) as [o r1]. cbn [fst snd] in *.
      subst o. eexists. exists st. split; [reflexivity | exact Hsettled].
    + destruct (processor br freshResponse) as [o r1]. cbn [fst snd] in *.
      subst o.
      match goal with
      | |- context [bind (@headersSentNow Backend) ?k ?w1] =>
          destruct (@gatewayError_settles 502
                      (jsonBody [(js "error", JStr (js "Bad Gateway"));
                                 (js "message", JStr (message e))]) w1 Hstate)
            as (rp & status & Hrun & Hsettled)
      end.
      rewrite Hrun. exists rp, status. split; [reflexivity | exact Hsettled].
  - match goal with
    | |- context [bind (@headersSentNow Backend) ?k ?w1] =>
        destruct (@gatewayError_settles 502
                    (jsonBody [(js "error", JStr (js "Bad Gateway"));
                               (js "message", JStr (message (FetchFailed m)))])
                    w1 (or_introl (f_equal sent Hfresh)))
          as (rp & status & Hrun & Hsettled)
    end.
    rewrite Hrun. exists rp, status. split; [reflexivity | exact Hsettled].
Qed.

End GatewaySettles.

Section ListenerSettles.

Import Server.

Context {Backend : Type}.
Variable answer : Backend -> FetchCall -> FetchResult * Backend.
Variable cfg : Config.

(** The helper of the call route, on a fresh response, answers the
    request: it returns, having done calls of [fetch] only, with the
    response answered. *)
Lemma doCaRagWithInit_settles req ini acts b :
  exists rp status ini' es b',
    doCaRagWithInit answer cfg req (targetUrlOf cfg req)
      {| response := freshResponse; initializedCaRagConversations := ini;
         out := acts; backend := b |}
    = (Normal tt,
       {| response := rp; initializedCaRagConversations := ini';
          out := acts ++ es; backend := b' |})
    /\ settled status rp
    /\ Forall (fun a => isFetch a = true) es.
Proof.
  unfold doCaRagWithInit, tryCatch, bind at 1, has.
  cbn [initializedCaRagConversations].
  destruct (includes ini (initKeyOf cfg req)) eqn:Hkey; cbn [negb].
  - unfold bind at 1, ret at 1.
    match goal with
    | |- context [doFetchAndProcess answer req ?t ?p ?w] =>
        destruct (@doFetchAndProcess_settles _ answer req t p w
                    (behaves_processCaRag (CORS_ORIGIN cfg)) eq_refl)
          as (rp & status & Hrun & Hsettled)
    end.
    rewrite Hrun. cbn [initializedCaRagConversations out backend].
    eexists rp, status, _, _, _. split; [reflexivity|].
    split; [exact Hsettled | repeat constructor].
  - unfold bind at 1 2, fetch. cbn [backend].
    destruct (answer b (initCall cfg)) as [[initRes|m] b1] eqn:Hans.
    + destruct (ok initRes) eqn:Hok; cbn [negb].
      * unfold bind at 1, add. cbn [initializedCaRagConversations].
        rewrite Hkey. unfold ret at 1.
        match goal with
        | |- context [doFetchAndProcess answer req ?t ?p ?w] =>
            destruct (@doFetchAndProcess_settles _ answer req t p w
                        (behaves_processCaRag (CORS_ORIGIN cfg)) eq_refl)
              as (rp & status & Hrun & Hsettled)
        end.
        rewrite Hrun. cbn [initializedCaRagConversations out backend response].
        rewrite <- app_assoc.
        eexists rp, status, _, _, _. split; [reflexivity|].
        split; [exact Hsettled | repeat constructor].
      * pose proof (@caRag_failed_init _ answer cfg req ini acts b initRes b1
                      Hkey Hans Hok) as Hrun.
        unfold doCaRagWithInit, tryCatch, bind at 1, has in Hrun.
        cbn [initializedCaRagConversations] in Hrun.
        rewrite Hkey in Hrun. cbn [negb] in Hrun.
        unfold bind at 1 2, fetch in Hrun. cbn [backend] in Hrun.
        rewrite Hans, Hok in Hrun. cbn [negb] in Hrun.
        rewrite Hrun.
        eexists _, (status initRes), _, [_], _. split; [reflexivity|].
        split; [|repeat constructor].
        eexists _, [_]. reflexivity.
    + match goal with
      | |- context [bind (@headersSentNow Backend) ?k ?w1] =>
          destruct (@gatewayError_settles _ 502
                      (jsonBody [(js "error", JStr (js "CA RAG request failed"));
                                 (js "message", JStr (message (FetchFailed m)))])
                      w1 (or_introl eq_refl))
            as (rp & status & Hrun & Hsettled)
      end.
      rewrite Hrun. eexists rp, status, _, [_], _. split; [reflexivity|].
      split; [exact Hsettled | repeat constructor].
Qed.

Lemma preflight_run (w : World Backend) :
  response w = freshResponse ->
  preflight cfg w
  = (Normal tt,
     withResponse w
       {| pending := [(js "Access-Control-Allow-Origin", CORS_ORIGIN cfg);
                      (js "Access-Control-Allow-Methods", constants.CORS_METHODS);
                      (js "Access-Control-Allow-Headers", constants.CORS_HEADERS);
                      (js "Access-Control-Allow-Credentials", js "true")];
          sent := [EvHead 204
                     [(js "Access-Control-Allow-Origin", CORS_ORIGIN cfg);
                      (js "Access-Control-Allow-Methods", constants.CORS_METHODS);
                      (js "Access-Control-Allow-Headers", constants.CORS_HEADERS);
                      (js "Access-Control-Allow-Credentials", js "true")];
                   EvEnd] |}).
Proof.
  intros Hfresh. unfold preflight, onResponse. rewrite Hfresh. reflexivity.
Qed.

End ListenerSettles.

(** A request whose target was taken apart gets one answer. *)
Lemma handle_one_answer :
  forall (Backend : Type)
         (answer : Backend -> Server.FetchCall -> Server.FetchResult * Backend)
         (cfg : Server.Config) (st : Server.ServerState Backend)
         (req : Server.Request),
    let h := fst (Server.handle answer cfg st req) in
    Server.result h = Normal tt
    /\ ((exists status, settled status (Server.reply h))
        /\ existsb handsOn (Server.actions h) = false
        \/ Server.reply h = freshResponse
           /\ exists before a,
                Server.actions h = before ++ [a]
                /\ handsOn a = true
                /\ existsb handsOn before = false).
Proof.
  intros Backend answer cfg st req h. subst h.
  unfold Server.handle, Server.runListener, Server.requestListener.
  destruct (startsWith (Server.pathname req)
              (Server.HTTP_PROXY_PATH cfg ++ js "/")) eqn:Hprefix.
  2:{ split; [reflexivity|]. right. split; [reflexivity|].
      exists [], (Server.NextProxyWeb req). repeat split. }
  destruct (jstr_eqb (Server.method req) constants.HTTP_METHOD_OPTIONS).
  { rewrite preflight_run by reflexivity.
    split; [reflexivity|]. left. split; [|reflexivity].
    exists 204%Z. eexists _, []. reflexivity. }
  unfold bind. cbn [Server.act Server.arrive Server.response
                         Server.initializedCaRagConversations Server.out
                         Server.backend app].
  destruct (Server.isValid (Server.validateProxyHttpPath cfg
                              (Server.pathname req))) eqn:Hvalid; cbn [negb].
  2:{ split; [reflexivity|]. left. split; [|reflexivity].
      exists 403%Z. eexists _, [_]. reflexivity. }
  unfold Server.dispatch.
  set (w := {| Server.response := freshResponse;
               Server.initializedCaRagConversations := Server.initialized st;
               Server.out := [Server.Validated Server.HttpPath
                                (Server.pathname req)
                                (Server.validateProxyHttpPath cfg
                                   (Server.pathname req))];
               Server.backend := Server.backendState st |}).
  assert (Hprocess : forall processor,
    behaves processor ->
    let run := Server.settle
                 (Server.doFetchAndProcess answer req
                    (Server.targetUrlOf cfg req) processor w) in
    Server.result (fst run) = Normal tt
    /\ ((exists status, settled status (Server.reply (fst run)))
        /\ existsb handsOn (Server.actions (fst run)) = false
        \/ Server.reply (fst run) = freshResponse
           /\ exists before a,
                Server.actions (fst run) = before ++ [a]
                /\ handsOn a = true
                /\ existsb handsOn before = false)).
  { intros processor Hp run. subst run.
    destruct (@doFetchAndProcess_settles _ answer req
                (Server.targetUrlOf cfg req) processor w Hp eq_refl)
      as (rp & status & Hrun & Hsettled).
    rewrite Hrun. split; [reflexivity|]. left.
    split; [exists status; exact Hsettled | reflexivity]. }
  destruct (jstr_eqb (Server.backendPathOf cfg req) constants.CHAT_STREAM).
  { apply Hprocess, behaves_processStream, ends_chatStreamLine. }
  destruct (jstr_eqb (Server.backendPathOf cfg req) constants.CHAT).
  { apply Hprocess, behaves_processChat. }
  destruct (jstr_eqb (Server.backendPathOf cfg req) constants.GENERATE_STREAM).
  { apply Hprocess, behaves_processStream, ends_generateStreamLine. }
  destruct (jstr_eqb (Server.backendPathOf cfg req) constants.GENERATE).
  { apply Hprocess, behaves_processGenerate. }
  destruct (jstr_eqb (Server.backendPathOf cfg req) constants.CHAT_CA_RAG).
  { destruct (@doCaRagWithInit_settles _ answer cfg req (Server.initialized st)
                [Server.Validated Server.HttpPath (Server.pathname req)
                   (Server.validateProxyHttpPath cfg (Server.pathname req))]
                (Server.backendState st))
      as (rp & status & ini' & es & b' & Hrun & Hsettled & Hfetches).
    subst w. rewrite Hrun. split; [reflexivity|]. left.
    split; [exists status; exact Hsettled|].
    cbn [Server.settle fst snd Server.actions Server.out app existsb handsOn orb].
    clear Hrun. induction Hfetches as [|a es Ha Hes IH]; [reflexivity|].
    cbn [existsb]. destruct a; try discriminate Ha. exact IH. }
  split.
  - destruct (constants.EXTENDED_BACKEND_TARGETS (Server.backendPathOf cfg req))
      as [[|]|]; reflexivity.
  - right.
    destruct (constants.EXTENDED_BACKEND_TARGETS (Server.backendPathOf cfg req))
      as [[|]|]; (split; [reflexivity|]);
      eexists [_], _; repeat split.
Qed.

(** X15. Every request whose target [url.parse] takes apart gets one
    answer. Whatever such a request, the state of the server and the
    backend, the listener returns without an exception, and either the
    gateway has answered the request itself, with one head, chunks of the
    body and one end on the response and with no proxy called, or it has
    handed the request to one proxy as its last step and has not touched
    the response. A request whose target [url.parse] rejects gets no
    answer from the listener: it throws from [url.parse], with the
    response untouched, nothing validated or forwarded and the state of
    the server as before. *)
Theorem every_request_gets_one_answer :
  forall (Backend : Type)
         (answer : Backend -> Server.FetchCall -> Server.FetchResult * Backend)
         (cfg : Server.Config) (urlParse : Incoming.UrlParse)
         (st : Server.ServerState Backend) (req : Incoming.Message),
    let run := Incoming.receive answer cfg urlParse st req in
    let h := fst run in
    match urlParse (Incoming.url req) with
    | inr parts =>
        run = Server.handle answer cfg st (Incoming.parsed req parts)
        /\ Server.result h = Normal tt
        /\ ((exists status, settled status (Server.reply h))
            /\ existsb handsOn (Server.actions h) = false
            \/ Server.reply h = freshResponse
               /\ exists before a,
                    Server.actions h = before ++ [a]
                    /\ handsOn a = true
                    /\ existsb handsOn before = false)
    | inl err =>
        Server.result h = Thrown err
        /\ Server.reply h = freshResponse
        /\ Server.actions h = []
        /\ snd run = st
    end.
Proof.
  intros Backend answer cfg urlParse st req run h. subst h run.
  unfold Incoming.receive, Incoming.onRequest.
  destruct (urlParse (Incoming.url req)) as [err|parts].
  - destruct st as [ini b]. repeat split.
  - split; [reflexivity|].
    exact (@handle_one_answer Backend answer cfg st (Incoming.parsed req parts)).
Qed.

(* ===================================================================== *)
(** * Where the gateway addresses what it forwards *)
(* ===================================================================== *)

Lemma startsWith_app (s p q : jstring) :
  startsWith s (p ++ q) = true ->
  exists rest, s = p ++ q ++ rest.
Proof.
  revert s. induction p as [|c p IH]; intros s H.
  - cbn [app] in *. revert s H.
    induction q as [|d q IHq]; intros s H; [now exists s|].
    destruct s as [|x s]; [discriminate H|]. cbn [startsWith] in H.
    apply andb_prop in H. destruct H as [Hx Hrest].
    apply N.eqb_eq in Hx. subst x.
    destruct (IHq s Hrest) as (rest & ->). now exists rest.
  - destruct s as [|x s]; [discriminate H|]. cbn [app startsWith] in H.
    apply andb_prop in H. destruct H as [Hx Hrest].
    apply N.eqb_eq in Hx. subst x.
    destruct (IH s Hrest) as (rest & ->). now exists rest.
Qed.

Lemma skipn_prefix {A} (p rest : list A) :
  skipn (List.length p) (p ++ rest) = rest.
Proof. induction p; simpl; auto. Qed.

Section UpstreamFacts.

Import Server.

Context {Backend : Type}.
Variable answer : Backend -> FetchCall -> FetchResult * Backend.
Variable cfg : Config.

(** The path after the API-proxy prefix begins with a slash. *)
Lemma backendPathOf_rooted (req : Request) :
  startsWith (pathname req) (HTTP_PROXY_PATH cfg ++ js "/") = true ->
  exists path, backendPathOf cfg req = ch "/" :: path.
Proof.
  intros Hprefix. unfold backendPathOf.
  destruct (startsWith_app _ _ _ Hprefix) as (rest & ->).
  rewrite skipn_prefix. now exists rest.
Qed.

Lemma forward_upstream (req : Request) (r : FetchResult) :
  startsWith (pathname req) (HTTP_PROXY_PATH cfg ++ js "/") = true ->
  addressedUpstream cfg (Fetched (forwardCall req (targetUrlOf cfg req)) r).
Proof.
  intros Hprefix. destruct (backendPathOf_rooted req Hprefix) as (path & Hpath).
  exists (path ++ searchOf req). cbn [forwardCall fetchUrl].
  unfold targetUrlOf. rewrite Hpath. reflexivity.
Qed.

Lemma init_upstream (r : FetchResult) :
  addressedUpstream cfg (Fetched (initCall cfg) r).
Proof. exists (js "init"). reflexivity. Qed.

Lemma doFetchAndProcess_upstream req processor :
  startsWith (pathname req) (HTTP_PROXY_PATH cfg ++ js "/") = true ->
  appends (addressedUpstream cfg)
    (doFetchAndProcess answer req (targetUrlOf cfg req) processor).
Proof.
  intros Hprefix. unfold doFetchAndProcess. apply appends_tryCatch.
  - apply appends_bind;
      [apply appends_fetch; intros r; apply forward_upstream, Hprefix|].
    auto with gateway.
  - intros e. apply appends_bind; [auto with gateway|]. intros s.
    apply appends_bind; [destruct (negb s); auto with gateway|].
    auto with gateway.
Qed.

Lemma doCaRagWithInit_upstream req :
  startsWith (pathname req) (HTTP_PROXY_PATH cfg ++ js "/") = true ->
  appends (addressedUpstream cfg)
    (doCaRagWithInit answer cfg req (targetUrlOf cfg req)).
Proof.
  intros Hprefix. unfold doCaRagWithInit. apply appends_tryCatch.
  - apply appends_bind; [auto with gateway|]. intros known.
    apply appends_bind.
    + destruct (negb known); [|auto with gateway].
      apply appends_bind; [apply appends_fetch; apply init_upstream|].
      intros initRes. destruct (negb (ok initRes)).
      * apply appends_bind; [auto with gateway|]. intros s.
        apply appends_bind; [destruct (negb s); auto with gateway|].
        intros _. apply appends_bind; auto with gateway.
      * apply appends_bind; auto with gateway.
    + intros [|]; [apply doFetchAndProcess_upstream, Hprefix
                  | auto with gateway].
  - intros e. apply appends_bind; [auto with gateway|]. intros s.
    apply appends_bind; [destruct (negb s); auto with gateway|].
    auto with gateway.
Qed.

Lemma requestListener_upstream req :
  appends (addressedUpstream cfg) (requestListener answer cfg req).
Proof.
  unfold requestListener.
  destruct (startsWith (pathname req) (HTTP_PROXY_PATH cfg ++ js "/"))
    eqn:Hprefix; [|apply appends_act; exact I].
  destruct (jstr_eqb (method req) constants.HTTP_METHOD_OPTIONS);
    [unfold preflight; auto with gateway|].
  apply appends_bind; [apply appends_act; exact I|]. intros _.
  destruct (negb (isValid (validateProxyHttpPath cfg (pathname req))));
    [unfold forbidden; auto with gateway|].
  unfold dispatch.
  repeat match goal with
         | |- appends _ (if ?c then _ else _) => destruct c
         end;
    try (apply doFetchAndProcess_upstream, Hprefix);
    try (apply doCaRagWithInit_upstream, Hprefix).
  destruct (backendPathOf_rooted req Hprefix) as (path & Hpath).
  destruct (constants.EXTENDED_BACKEND_TARGETS (backendPathOf cfg req))
    as [[|]|]; apply appends_act; try exact I;
    (split; [reflexivity|]); exists (path ++ searchOf req);
    rewrite Hpath; reflexivity.
Qed.

Lemma upgradeListener_upstream req :
  appends (addressedUpstream cfg) (upgradeListener (Backend := Backend) cfg req).
Proof.
  unfold upgradeListener.
  destruct (jstr_eqb (pathname req) (WEBSOCKET_PROXY_PATH cfg)
            || startsWith (pathname req) (WEBSOCKET_PROXY_PATH cfg ++ js "?"));
    [|apply appends_act; exact I].
  apply appends_bind; [apply appends_act; exact I|]. intros _.
  destruct (negb (isValid (validateProxyWebSocketPath cfg (pathname req)))).
  - apply appends_bind; [apply appends_act; exact I|]. intros _.
    apply appends_act. exact I.
  - apply appends_act. split; reflexivity.
Qed.

End UpstreamFacts.

(** X16. Whatever a client asks for, the gateway addresses what it forwards
    to the backend it was configured with: every call of [fetch] is made
    with a URL that is the origin of the backend followed by a path that
    begins with a slash, so the request cannot change or extend the host of
    that URL; a request handed to the backend proxy is given the same
    origin for target and such a path for URL, and an upgrade handed to the
    backend proxy is given the WebSocket origin of the backend and the path
    [/websocket], with the query of the request and nothing else of its
    URL. This is about the address each call is made with; [fetch] is
    called without a [redirect] option, and what it asks for when the
    backend answers with a redirect is not bounded by it. *)
Theorem calls_are_addressed_upstream :
  forall (Backend : Type)
         (answer : Backend -> Server.FetchCall -> Server.FetchResult * Backend)
         (cfg : Server.Config) (st : Server.ServerState Backend)
         (req : Server.Request),
    Forall (addressedUpstream cfg)
      (Server.actions (fst (Server.handle answer cfg st req)))
    /\ Forall (addressedUpstream cfg)
         (Server.actions (fst (Server.upgrade cfg st req))).
Proof.
  intros Backend answer cfg st req. split.
  - destruct (@requestListener_upstream _ answer cfg req (Server.arrive st))
      as (es & Hout & Hes).
    unfold Server.handle, Server.runListener, Server.settle.
    cbn [fst Server.actions]. rewrite Hout. exact Hes.
  - destruct (@upgradeListener_upstream Backend cfg req (Server.arrive st))
      as (es & Hout & Hes).
    unfold Server.upgrade, Server.runListener, Server.settle.
    cbn [fst Server.actions]. rewrite Hout. exact Hes.
Qed.

(* ===================================================================== *)
(** * The set of initialized conversations *)
(* ===================================================================== *)

Section InitSetFacts.

Import Server.

Context {Backend : Type}.
Variable answer : Backend -> FetchCall -> FetchResult * Backend.
Variable cfg : Config.

(** What a request of the call route does to the set. *)
Lemma caRag_set (st : ServerState Backend) (req : Request) :
  reachesCaRag cfg req ->
  let run := handle answer cfg st req in
  let key := initKeyOf cfg req in
  initialized (snd run) = initialized st
  \/ (includes (initialized st) key = false
      /\ initialized (snd run) = initialized st ++ [key]
      /\ exists initRes,
           In (Fetched (initCall cfg) (Answered initRes)) (actions (fst run))
           /\ ok initRes = true).
Proof.
  intros Hreach run key. subst run.
  rewrite (@handle_caRag _ answer cfg st req Hreach).
  destruct (includes (initialized st) key) eqn:Hkey.
  - left.
    destruct (@caRag_known _ answer cfg req (initialized st)
                [validationOf cfg req] (backendState st) Hkey) as (rp & ->).
    reflexivity.
  - destruct (answer (backendState st) (initCall cfg)) as [[ir|m] b'] eqn:Hans.
    + destruct (ok ir) eqn:Hok.
      * right. split; [reflexivity|].
        destruct (@caRag_init_ok _ answer cfg req (initialized st)
                    [validationOf cfg req] (backendState st) _ _ Hkey Hans Hok)
          as (rp & ->).
        split; [reflexivity|]. exists ir. split; [|exact Hok].
        cbn. right. left. reflexivity.
      * left.
        rewrite (@caRag_failed_init _ answer cfg req (initialized st)
                   [validationOf cfg req] (backendState st) _ _ Hkey Hans Hok).
        reflexivity.
    + left.
      destruct (@caRag_rejected_init _ answer cfg req (initialized st)
                  [validationOf cfg req] (backendState st) _ _ Hkey Hans)
        as (rp & ->).
      reflexivity.
Qed.

(** Forwarding a request does not touch the set. *)
Lemma forwarded_keeps_the_set req targetUrl processor (w : World Backend) :
  initialized (snd (settle (doFetchAndProcess answer req targetUrl processor w)))
  = initializedCaRagConversations w.
Proof.
  destruct (@doFetchAndProcess_run _ answer req targetUrl processor w)
    as (rp & ->).
  reflexivity.
Qed.

(** A request of any other kind leaves the set as it is. *)
Lemma other_requests_keep_the_set (st : ServerState Backend) (req : Request) :
  ~ reachesCaRag cfg req ->
  initialized (snd (handle answer cfg st req)) = initialized st.
Proof.
  intros Hnot. unfold handle, runListener, requestListener.
  destruct (startsWith (pathname req) (HTTP_PROXY_PATH cfg ++ js "/"))
    eqn:Hprefix; [|reflexivity].
  destruct (jstr_eqb (method req) constants.HTTP_METHOD_OPTIONS) eqn:Hm;
    [reflexivity|].
  unfold bind. cbn [act arrive response initializedCaRagConversations out
                    backend app].
  destruct (isValid (validateProxyHttpPath cfg (pathname req))) eqn:Hvalid;
    cbn [negb]; [|reflexivity].
  unfold dispatch.
  destruct (jstr_eqb (backendPathOf cfg req) constants.CHAT_STREAM);
    [apply forwarded_keeps_the_set|].
  destruct (jstr_eqb (backendPathOf cfg req) constants.CHAT);
    [apply forwarded_keeps_the_set|].
  destruct (jstr_eqb (backendPathOf cfg req) constants.GENERATE_STREAM);
    [apply forwarded_keeps_the_set|].
  destruct (jstr_eqb (backendPathOf cfg req) constants.GENERATE);
    [apply forwarded_keeps_the_set|].
  destruct (jstr_eqb_spec (backendPathOf cfg req) constants.CHAT_CA_RAG)
    as [Hpath|_].
  - exfalso. apply Hnot. repeat split; assumption.
  - destruct (constants.EXTENDED_BACKEND_TARGETS (backendPathOf cfg req))
      as [[|]|]; reflexivity.
Qed.

Lemma handle_set (st : ServerState Backend) (req : Request) :
  let run := handle answer cfg st req in
  let key := initKeyOf cfg req in
  initialized (snd run) = initialized st
  \/ (reachesCaRag cfg req
      /\ includes (initialized st) key = false
      /\ initialized (snd run) = initialized st ++ [key]
      /\ exists initRes,
           In (Fetched (initCall cfg) (Answered initRes)) (actions (fst run))
           /\ ok initRes = true).
Proof.
  intros run key.
  assert (Hdec : reachesCaRag cfg req \/ ~ reachesCaRag cfg req).
  { unfold reachesCaRag.
    destruct (startsWith (pathname req) (HTTP_PROXY_PATH cfg ++ js "/"));
      [|right; intros (H & _); discriminate H].
    destruct (jstr_eqb (method req) constants.HTTP_METHOD_OPTIONS);
      [right; intros (_ & H & _); discriminate H|].
    destruct (isValid (validateProxyHttpPath cfg (pathname req)));
      [|right; intros (_ & _ & H & _); discriminate H].
    destruct (jstr_eqb_spec (backendPathOf cfg req) constants.CHAT_CA_RAG)
      as [Heq|Hne]; [left; repeat split; assumption|].
    right. intros (_ & _ & _ & H). exact (Hne H). }
  destruct Hdec as [Hreach|Hnot].
  - destruct (@caRag_set st req Hreach) as [Hsame | Hgrown];
      [left; exact Hsame | right; split; [exact Hreach | exact Hgrown]].
  - left. apply (@other_requests_keep_the_set st req Hnot).
Qed.

Lemma serve_set (reqs : list Request) :
  forall st : ServerState Backend,
    (forall key, In key (initialized st) ->
       In key (initialized (snd (serve answer cfg st reqs))))
    /\ (NoDup (initialized st) ->
        NoDup (initialized (snd (serve answer cfg st reqs)))).
Proof.
  induction reqs as [|req rest IH]; intros st; [split; auto|].
  rewrite serve_cons. cbn [snd].
  destruct (IH (snd (handle answer cfg st req))) as [IHin IHnodup].
  destruct (@handle_set st req) as [Hsame | (_ & Hkey & Hgrown & _)].
  - rewrite Hsame in *. split; assumption.
  - split.
    + intros key Hin. apply IHin. rewrite Hgrown. apply in_or_app. now left.
    + intros Hnodup. apply IHnodup. rewrite Hgrown.
      apply NoDup_app; [assumption | repeat constructor; intros [] |].
      intros x Hx [<-|[]]. apply includes_In in Hx. congruence.
Qed.

End InitSetFacts.

(** X17. The set of initialized conversations only grows, and only by an init
    call that succeeded. A request leaves the set as it is, or it is a
    request of the call route whose key was not in the set, the listener
    has made an init call that the backend answered with a success, and the
    set is the former one with that key added at its end. So over any run
    of requests no key leaves the set and no key is in it twice; an
    upgrade never changes it. *)
Theorem initialized_set_only_grows :
  forall (Backend : Type)
         (answer : Backend -> Server.FetchCall -> Server.FetchResult * Backend)
         (cfg : Server.Config) (st : Server.ServerState Backend),
    (forall req,
       let run := Server.handle answer cfg st req in
       let key := Server.initKeyOf cfg req in
       Server.initialized (snd run) = Server.initialized st
       \/ (reachesCaRag cfg req
           /\ includes (Server.initialized st) key = false
           /\ Server.initialized (snd run) = Server.initialized st ++ [key]
           /\ exists initRes,
                In (Server.Fetched (Server.initCall cfg)
                      (Server.Answered initRes))
                   (Server.actions (fst run))
                /\ ok initRes = true))
    /\ (forall reqs,
          let st' := snd (Server.serve answer cfg st reqs) in
          (forall key, In key (Server.initialized st) ->
             In key (Server.initialized st'))
          /\ (NoDup (Server.initialized st) ->
              NoDup (Server.initialized st')))
    /\ (forall req,
          Server.initialized (snd (Server.upgrade cfg st req))
          = Server.initialized st).
Proof.
  intros Backend answer cfg st. split; [|split].
  - intros req. apply handle_set.
  - intros reqs. apply serve_set.
  - intros req. unfold Server.upgrade, Server.runListener,
      Server.upgradeListener.
    destruct (jstr_eqb (Server.pathname req) (Server.WEBSOCKET_PROXY_PATH cfg)
              || startsWith (Server.pathname req)
                   (Server.WEBSOCKET_PROXY_PATH cfg ++ js "?"));
      [|reflexivity].
    unfold bind. cbn [Server.act].
    destruct (Server.isValid (Server.validateProxyWebSocketPath cfg
                                (Server.pathname req))); reflexivity.
Qed.

Lemma initialized_set_only_grows_witness :
  NoDup (Server.initialized
           (snd (Server.serve (Deployment.answer 1) Deployment.cfg
                   Deployment.start
                   [Deployment.callRequest; Deployment.callRequest;
                    Deployment.callRequest]))).
Proof.
  refine (proj2 (proj1 (proj2 (@initialized_set_only_grows nat
                                 (Deployment.answer 1) Deployment.cfg
                                 Deployment.start))
                   [Deployment.callRequest; Deployment.callRequest;
                    Deployment.callRequest]) _).
  vm_compute. constructor.
Defined.

(* ===================================================================== *)
(** * The error responses of the gateway *)
(* ===================================================================== *)

Section ErrorBodies.

Import Server.

Lemma jsonBody_badGateway (reason : jstring) :
  jsonBody [(js "error", JStr (js "Bad Gateway")); (js "message", JStr reason)]
  = Some (badGatewayBody reason).
Proof. reflexivity. Qed.

Lemma jsonBody_forbidden (reason : jstring) :
  jsonBody [(js "error", JStr (js "Forbidden")); (js "message", JStr reason)]
  = Some (forbiddenBody reason).
Proof. reflexivity. Qed.

Lemma jsonBody_initFailure (detail : jstring) :
  jsonBody [(js "error", JStr (js "CA RAG initialization failed"));
            (js "detail", JStr detail)]
  = Some (initFailureBody detail).
Proof. reflexivity. Qed.

Lemma jsonBody_caRagFailure (reason : jstring) :
  jsonBody [(js "error", JStr (js "CA RAG request failed"));
            (js "message", JStr reason)]
  = Some (jsq "{'error':'CA RAG request failed','message':"
          ++ QuoteJSONString reason ++ js "}").
Proof. reflexivity. Qed.

End ErrorBodies.

(** X18. The error bodies are read back. The four JSON bodies the gateway makes
    for its own errors (the refusal of a path, the failure of an init call,
    the two bad-gateway answers) are parsed back to the object they were
    made from, whatever the text they carry: the reason of the validator,
    the body of the failed init call, the message of the exception. *)
Theorem error_bodies_are_read_back :
  forall (text : jstring),
    wellFormed text ->
    let carries (error field : string) :=
      objectLiteral [(js "error", JStr (js error)); (js field, JStr text)] in
    readBack (carries "Forbidden" "message")
    = Some (carries "Forbidden" "message")
    /\ readBack (carries "CA RAG initialization failed" "detail")
       = Some (carries "CA RAG initialization failed" "detail")
    /\ readBack (carries "Bad Gateway" "message")
       = Some (carries "Bad Gateway" "message")
    /\ readBack (carries "CA RAG request failed" "message")
       = Some (carries "CA RAG request failed" "message").
Proof.
  intros text Hwf carries. subst carries. cbv beta. unfold readBack.
  pose proof (jsonBody_forbidden text) as H1.
  pose proof (jsonBody_initFailure text) as H2.
  pose proof (jsonBody_badGateway text) as H3.
  pose proof (jsonBody_caRagFailure text) as H4.
  unfold Server.jsonBody in H1, H2, H3, H4. rewrite H1, H2, H3, H4.
  unfold forbiddenBody, initFailureBody, badGatewayBody.
  repeat split; read_back Hwf.
Qed.

Lemma error_bodies_are_read_back_witness :
  readBack (objectLiteral
              [(js "error", JStr (js "CA RAG initialization failed"));
               (js "detail", JStr (jsq "{'detail':'warming up'}"))])
  = Some (objectLiteral
            [(js "error", JStr (js "CA RAG initialization failed"));
             (js "detail", JStr (jsq "{'detail':'warming up'}"))]).
Proof.
  refine (proj1 (proj2 (@error_bodies_are_read_back
                          (jsq "{'detail':'warming up'}") _))).
  unfold wellFormed. repeat constructor.
Defined.

(* ===================================================================== *)
(** * Bad gateway, preflight and the errors of the proxies *)
(* ===================================================================== *)

Section DirectRoutes.

Import Server.

Context {Backend : Type}.
Variable answer : Backend -> FetchCall -> FetchResult * Backend.
Variable cfg : Config.



End DirectRoutes.



(** X20. A preflight is answered by the gateway itself, before anything else.
    A request under the API-proxy prefix whose method is OPTIONS gets the
    status 204 with the four CORS headers (the configured origin, the
    methods, the headers, the credentials) and no body, whatever its path:
    the path is not validated, the backend is not called, no proxy is
    handed the request, and the state of the server is as before. *)
Theorem preflight_is_answered_first :
  forall (Backend : Type)
         (answer : Backend -> Server.FetchCall -> Server.FetchResult * Backend)
         (cfg : Server.Config) (st : Server.ServerState Backend)
         (req : Server.Request),
    startsWith (Server.pathname req) (Server.HTTP_PROXY_PATH cfg ++ js "/")
    = true ->
    Server.method req = constants.HTTP_METHOD_OPTIONS ->
    let run := Server.handle answer cfg st req in
    Server.result (fst run) = Normal tt
    /\ sent (Server.reply (fst run))
       = [EvHead 204
            [(js "Access-Control-Allow-Origin", Server.CORS_ORIGIN cfg);
             (js "Access-Control-Allow-Methods",
              js "GET, POST, PUT, DELETE, OPTIONS");
             (js "Access-Control-Allow-Headers",
              js "Content-Type, Authorization, Conversation-Id, X-Timezone, User-Message-ID");
             (js "Access-Control-Allow-Credentials", js "true")];
          EvEnd]
    /\ Server.actions (fst run) = []
    /\ snd run = st.
Proof.
  intros Backend answer cfg st req Hprefix Hm run. subst run.
  unfold Server.handle, Server.runListener, Server.requestListener.
  rewrite Hprefix, Hm, jstr_eqb_refl.
  rewrite preflight_run by reflexivity.
  destruct st as [ini b]. repeat split.
Qed.

Lemma preflight_is_answered_first_witness :
  Server.actions
    (fst (Server.handle (Deployment.answer 0) Deployment.cfg Deployment.start
            {| Server.method := js "OPTIONS";
               Server.pathname := js "/api/../admin";
               Server.search := None;
               Server.reqHeaders := [];
               Server.reqBody := [] |}))
  = [].
Proof.
  exact (proj1 (proj2 (proj2
           (@preflight_is_answered_first nat (Deployment.answer 0)
              Deployment.cfg Deployment.start
              {| Server.method := js "OPTIONS";
                 Server.pathname := js "/api/../admin";
                 Server.search := None;
                 Server.reqHeaders := [];
                 Server.reqBody := [] |}
              eq_refl eq_refl)))).
Defined.

Section ProxyErrorFacts.

Import ProxyEvents.

Lemma errorBody_text (what : string) :
  JSON_stringify (objectLiteral [(js "error", JStr (js what))])
  = Some (proxyErrorBody what).
Proof. unfold proxyErrorBody. erewrite stringify_one; reflexivity. Qed.

Lemma errorBody_parse (what : string) :
  JSON_parse (proxyErrorBody what)
  = Some (objectLiteral [(js "error", JStr (js what))]).
Proof.
  unfold JSON_parse, proxyErrorBody.
  erewrite (@scan_around_string (jsq "{'error':") (js "}") (js what));
    [| vm_compute; reflexivity | vm_compute; reflexivity | apply wellFormed_js].
  reflexivity.
Qed.

(** What an error listener leaves of a response. *)
Lemma onError_run (what : string) (r : Response) :
  ProxyEvents.onError what (Some r)
  = (Normal tt, Some (afterProxyError what r)).
Proof.
  unfold ProxyEvents.onError, bind, ProxyEvents.getHeadersSent,
    ProxyEvents.getWritableEnded, afterProxyError.
  rewrite errorBody_text. fold (proxyErrorBody what).
  destruct (headersSent r) eqn:Hsent; cbn [negb].
  - unfold ret.
    destruct (writableEnded r) eqn:Hended; cbn [negb]; [reflexivity|].
    unfold res.end_, implicitHead. rewrite Hended, Hsent. reflexivity.
  - assert (Hended : writableEnded r = false).
    { unfold writableEnded, headersSent in *.
      destruct (sent r); [reflexivity | discriminate Hsent]. }
    unfold res.writeHead. rewrite Hsent, Hended.
    assert (Hlive : writableEnded
              (emit [EvHead 502 (pending r ++ ResponseProcessors.jsonContentType)] r)
            = false).
    { unfold writableEnded, emit in *. cbn [sent].
      rewrite existsb_app, Hended. reflexivity. }
    rewrite Hlive. cbn [negb]. unfold res.end_, implicitHead.
    rewrite Hlive.
    assert (Hhead : headersSent
              (emit [EvHead 502 (pending r ++ ResponseProcessors.jsonContentType)] r)
            = true).
    { unfold headersSent, emit. cbn [sent].
      destruct (sent r); reflexivity. }
    rewrite Hhead, emit_emit. reflexivity.
Qed.

Lemma afterProxyError_ended (what : string) (r : Response) :
  writableEnded (afterProxyError what r) = true.
Proof.
  unfold afterProxyError.
  destruct (writableEnded r) eqn:Hended; [exact Hended|].
  destruct (headersSent r); unfold writableEnded, emit; cbn [sent];
    rewrite existsb_app; cbn; apply orb_true_r.
Qed.

End ProxyErrorFacts.

(** X21. The error listeners of the two proxies never throw and leave the
    response ended. Called with the response of a request, whatever its
    state, each returns, and: a response that has ended is left as it is; a
    response whose head has gone out keeps its head and gets the error as
    its last chunk; a response whose head has not gone out gets the status
    502 with the JSON content type after the headers set so far, and the
    error as its body. The error is a JSON object with the one field
    [error], which is read back: the Next.js dev server is unavailable for
    the one proxy, the backend is unavailable for the other. Called with
    no response, each does nothing. *)
Theorem proxy_error_ends_the_response :
  forall (r : Response),
    let ends (listener : option Response -> outcome unit * option Response)
             (what : string) :=
      listener (Some r) = (Normal tt, Some (afterProxyError what r))
      /\ writableEnded (afterProxyError what r) = true
      /\ JSON_parse (proxyErrorBody what)
         = Some (objectLiteral [(js "error", JStr (js what))])
      /\ listener None = (Normal tt, None) in
    ends ProxyEvents.nextProxyOnError "Next.js dev server unavailable"
    /\ ends ProxyEvents.backendProxyOnError "Backend unavailable".
Proof.
  intros r ends. subst ends. cbv beta.
  unfold ProxyEvents.nextProxyOnError, ProxyEvents.backendProxyOnError.
  split; (split; [apply onError_run|]; split; [apply afterProxyError_ended|];
          split; [apply errorBody_parse | reflexivity]).
Qed.
